(** * Trino adaptive partitioning tool: usage mining, scoring and
      partition-transform selection

    A shallow embedding of [src/partitioning.py] and [src/iceberg_utils.py].

    Conventions of the embedding:
    - Python [str] is [string], one character per code point below 256.
      [str.upper] is modelled on ASCII text, where it acts on the letters
      a-z and keeps the length; statements that depend on it assume the
      text is ASCII ([ascii_text]).
    - Python [int] is [Z]. The resource scores are binary64 floats
      ([Float.float]): a finite float is the rational it denotes, every
      operation rounds to nearest, ties to even, and leaves the range as
      Python does (OverflowError for [int / int], an infinity otherwise);
      the sign of a zero is not kept. The partition score and the
      distribution statistics are exact rationals ([Q]), compared with [==].
    - A [dict] whose iteration order is observed ([Counter], [view_scores])
      is an association list in insertion order; a [dict] that is only
      looked up is a [gmap].
    - [sqlglot] and the Trino cursor are external collaborators: the parser is
      a function into a model of sqlglot's expression tree, the cursor is a
      record of oracles, one per query the code issues (the database does not
      change during a run). *)

From Stdlib Require Import ZArith QArith Qminmax String Ascii List Lia Lqa.
From Stdlib Require Import Qround Qabs Qpower.
From Stdlib Require Import Permutation Sorted DecimalString.
From stdpp Require Import gmap strings list.
Import ListNotations.

Local Open Scope list_scope.
Local Open Scope string_scope.
Local Open Scope Z_scope.

(** ** Python strings *)

Module PyStr.

Definition is_lower (c : ascii) : bool :=
  ((97 <=? nat_of_ascii c) && (nat_of_ascii c <=? 122))%nat.

Definition upper_char (c : ascii) : ascii :=
  if is_lower c then ascii_of_nat (nat_of_ascii c - 32) else c.

(** [s.upper()] on ASCII text: the letters a-z are folded and the length is
    kept. (On other text Python also folds letters beyond ASCII, some into
    two characters.) *)
Fixpoint upper (s : string) : string :=
  match s with
  | EmptyString => EmptyString
  | String c s' => String (upper_char c) (upper s')
  end.

Definition len (s : string) : Z := Z.of_nat (String.length s).

Fixpoint find_from (sub s : string) (i : Z) : Z :=
  if String.prefix sub s then i
  else match s with
       | EmptyString => -1
       | String _ s' => find_from sub s' (i + 1)
       end.

(** [s.find(sub)]: the lowest index at which [sub] occurs, [-1] if none. *)
Definition find (s sub : string) : Z := find_from sub s 0.

Fixpoint drop (n : nat) (s : string) : string :=
  match n, s with
  | O, _ => s
  | S n', EmptyString => EmptyString
  | S n', String _ s' => drop n' s'
  end.

(** [s[i:]], with Python's reading of a negative start. *)
Definition slice_from (s : string) (i : Z) : string :=
  if i <? 0 then drop (Z.to_nat (Z.max 0 (len s + i))) s
  else drop (Z.to_nat i) s.

Fixpoint mem (c : ascii) (chars : string) : bool :=
  match chars with
  | EmptyString => false
  | String d chars' => if Ascii.eqb c d then true else mem c chars'
  end.

Fixpoint lstrip (chars s : string) : string :=
  match s with
  | EmptyString => EmptyString
  | String c s' => if mem c chars then lstrip chars s' else s
  end.

Fixpoint rstrip (chars s : string) : string :=
  match s with
  | EmptyString => EmptyString
  | String c s' =>
      match rstrip chars s' with
      | EmptyString => if mem c chars then EmptyString else String c EmptyString
      | r => String c r
      end
  end.

(** [s.strip(chars)]: drops the leading and the trailing characters that
    belong to [chars]. *)
Definition strip (chars s : string) : string := rstrip chars (lstrip chars s).

Fixpoint count_char (c : ascii) (s : string) : nat :=
  match s with
  | EmptyString => O
  | String d s' => (if Ascii.eqb c d then 1 else 0) + count_char c s'
  end.

(** [sub in s] *)
Fixpoint contains (sub s : string) : bool :=
  String.prefix sub s
  || match s with
     | EmptyString => false
     | String _ s' => contains sub s'
     end.

(** [s.startswith(p)] *)
Definition startswith (s p : string) : bool := String.prefix p s.

(** [str(n)] for an integer. *)
Definition of_Z (n : Z) : string := NilZero.string_of_int (Z.to_int n).

(** ["sep".join(l)] *)
Fixpoint join (sep : string) (l : list string) : string :=
  match l with
  | [] => ""
  | [x] => x
  | x :: l' => x ++ sep ++ join sep l'
  end.

End PyStr.

Definition newline : string := String (ascii_of_nat 10) EmptyString.
Definition tab : string := String (ascii_of_nat 9) EmptyString.

(** ** SQL usage extractor: [extract_select_statement] *)

Definition marker : string := " AS ".

Definition strip_chars : string := " " ++ newline ++ ";".

(** [None] is Python's [None]: the marker was not found (a warning is
    logged). *)
Definition extract_select_statement (ddl : string) : option string :=
  let idx := PyStr.find (PyStr.upper ddl) marker in
  if negb (idx =? -1) then
    Some (PyStr.strip strip_chars (PyStr.slice_from ddl (idx + PyStr.len marker)))
  else None.

(** ** Python exceptions *)

Inductive exn : Set :=
  | ZeroDivisionError | OverflowError | IndexError | DatabaseError.

Inductive outcome (A : Type) : Type :=
  | Returns (a : A)
  | Raises (e : exn).
Arguments Returns {A} a.
Arguments Raises {A} e.

Definition bind {A B : Type} (m : outcome A) (k : A -> outcome B) : outcome B :=
  match m with
  | Returns a => k a
  | Raises e => Raises e
  end.

Notation "'let*' x ':=' m 'in' k" := (bind m (fun x => k))
  (at level 10, x name, m at level 100, k at level 200).

(** Python's [a / b] on numbers. *)
Definition true_div (a b : Q) : outcome Q :=
  if Qeq_bool b 0 then Raises ZeroDivisionError else Returns (a / b)%Q.

(** [a > b] on numbers *)
Definition Qgt_bool (a b : Q) : bool := negb (Qle_bool a b).

(** ** Python floats *)

(** IEEE 754 binary64: 53 bits of precision, the least exponent of a unit in
    the last place is -1074, and 2^1024 is the first power of two out of
    range. *)
Module Float.

(** The integer nearest to [q], the even one of the two when [q] lies
    halfway. *)
Definition round_half_even (q : Q) : Z :=
  let f := Qfloor q in
  match (q - inject_Z f ?= 1 # 2)%Q with
  | Lt => f
  | Gt => f + 1
  | Eq => if Z.even f then f else f + 1
  end.

(** The integer part of the binary logarithm of [q > 0]. *)
Definition log2_floor (q : Q) : Z :=
  let k := Z.log2 (Qnum q) - Z.log2 (Zpos (Qden q)) in
  if Qle_bool (2 ^ k) q then k else k - 1.

(** The exponent of the unit in the last place of the floats around
    [q > 0]. *)
Definition exponent (q : Q) : Z := Z.max (-1074) (log2_floor q - 52).

(** The float nearest to [q > 0], were the exponent not bounded above. *)
Definition round_positive (q : Q) : Q :=
  let e := exponent q in
  (inject_Z (round_half_even (q / 2 ^ e)) * 2 ^ e)%Q.

Definition round (q : Q) : Q :=
  let q := Qred q in
  match Qnum q with
  | 0 => 0%Q
  | Zpos _ => Qred (round_positive q)
  | Zneg _ => Qred (- round_positive (- q))
  end.

Inductive float : Type :=
  | Finite (q : Q)
  | Infinity (negative : bool)
  | NaN.

Definition limit : Q := (2 ^ 1024)%Q.

(** The float an exact result is rounded to. *)
Definition of_Q (q : Q) : float :=
  let r := round q in
  if Qle_bool limit (Qabs r) then Infinity (Qnum q <? 0) else Finite r.

(** [float(n)] for the integer constants of the code. *)
Definition of_Z (n : Z) : float := of_Q (inject_Z n).

(** [a * b] *)
Definition mul (a b : float) : float :=
  match a, b with
  | NaN, _ | _, NaN => NaN
  | Finite x, Finite y => of_Q (x * y)
  | Infinity s, Finite y | Finite y, Infinity s =>
      if Qeq_bool y 0 then NaN else Infinity (xorb s (Qnum y <? 0))
  | Infinity s, Infinity t => Infinity (xorb s t)
  end.

(** [a + b] *)
Definition add (a b : float) : float :=
  match a, b with
  | NaN, _ | _, NaN => NaN
  | Finite x, Finite y => of_Q (x + y)
  | Infinity s, Finite _ | Finite _, Infinity s => Infinity s
  | Infinity s, Infinity t => if Bool.eqb s t then Infinity s else NaN
  end.
End Float.

(** Python's [a / b] on two integers: the quotient, correctly rounded;
    OverflowError when it rounds out of the range of a float. *)
Definition int_true_div (a b : Z) : outcome Float.float :=
  if b =? 0 then Raises ZeroDivisionError
  else match Float.of_Q (inject_Z a / inject_Z b) with
       | Float.Infinity _ => Raises OverflowError
       | r => Returns r
       end.

(** ** The model of sqlglot's expression tree *)

Module exp.
Inductive class : Set :=
  | Select | From | Table | TableAlias | Identifier | Join | Column
  | Where | EQ | GT | And | Literal | Star.

Definition eqb (a b : class) : bool :=
  match a, b with
  | Select, Select | From, From | Table, Table | TableAlias, TableAlias
  | Identifier, Identifier | Join, Join | Column, Column | Where, Where
  | EQ, EQ | GT, GT | And, And | Literal, Literal | Star, Star => true
  | _, _ => false
  end.
End exp.

#[local] Set Warnings "-register-all".

(** A node has its class, its [name] (the text of its [this] argument) and
    its [args], the child expressions under their argument keys, in
    order. *)
Inductive Expression : Type :=
  | Expr (cls : exp.class) (name : string) (args : list (string * Expression)).

Definition cls (e : Expression) : exp.class := let 'Expr c _ _ := e in c.
Definition name (e : Expression) : string := let 'Expr _ n _ := e in n.
Definition args (e : Expression) : list (string * Expression) :=
  let 'Expr _ _ a := e in a.

(** [e.args.get(key)] *)
Definition args_get (key : string) (e : Expression) : option Expression :=
  match List.find (fun kv => String.eqb (fst kv) key) (args e) with
  | Some kv => Some (snd kv)
  | None => None
  end.

Fixpoint depth (e : Expression) : nat :=
  match e with
  | Expr _ _ a => S (list_max (List.map (fun kv => depth (snd kv)) a))
  end.

(** sqlglot walks the tree breadth first: the queue of one level, then the
    children of that level. *)
Fixpoint bfs (fuel : nat) (level : list Expression) : list Expression :=
  match fuel, level with
  | O, _ | _, [] => []
  | S fuel', _ =>
      (level ++ bfs fuel' (flat_map (fun e => List.map snd (args e)) level))%list
  end.

Definition walk (e : Expression) : list Expression := bfs (depth e) [e].

(** The nodes of a tree: the tree itself and the nodes of its children. *)
Inductive subexpr : Expression -> Expression -> Prop :=
  | subexpr_self e : subexpr e e
  | subexpr_child s c e :
      In c (List.map snd (args e)) -> subexpr s c -> subexpr s e.

(** [e.find_all(cls)] *)
Definition find_all (c : exp.class) (e : Expression) : list Expression :=
  List.filter (fun n => exp.eqb (cls n) c) (walk e).

(** ** [collections.Counter], in insertion order *)

Definition Counter : Type := list (string * Z).

(** [c[k] += n] *)
Fixpoint counter_add (k : string) (n : Z) (c : Counter) : Counter :=
  match c with
  | [] => [(k, n)]
  | (k', m) :: c' =>
      if String.eqb k k' then (k', m + n) :: c' else (k', m) :: counter_add k n c'
  end.

(** [Counter(iterable)]: each element counts for one. *)
Definition count_one (c : Counter) (k : string) : Counter := counter_add k 1 c.

Definition Counter_of (l : list string) : Counter := fold_left count_one l [].

(** [c[k]], 0 for a missing key *)
Fixpoint counter_get (k : string) (c : Counter) : Z :=
  match c with
  | [] => 0
  | (k', m) :: c' => if String.eqb k k' then m else counter_get k c'
  end.

(** [l * n]: list repetition; nothing for [n <= 0]. *)
Definition list_mul {A : Type} (l : list A) (n : Z) : list A :=
  List.concat (repeat l (Z.to_nat n)).

(** A stable sort in descending order: [sorted(..., reverse=True)], and
    [DataFrame.sort_values(ascending=False)] (which orders the rows by the
    value column alone and leaves rows of equal value as they were). *)
Section SortDesc.
Context {A : Type} (geb : A -> A -> bool).

Fixpoint insert_desc (x : A) (l : list A) : list A :=
  match l with
  | [] => [x]
  | y :: l' => if geb x y then x :: l else y :: insert_desc x l'
  end.

Definition sort_desc (l : list A) : list A := fold_right insert_desc [] l.
End SortDesc.

(** ** Inputs *)

(** A [view_data] tuple [(fully_qualified_view, columns, query_count, ddl)]. *)
Record View : Type := mkView {
  fq_view : string;
  columns : list string;
  query_count : Z;
  ddl : option string
}.

(** A query-log row [(query_id, query, create_time, execution_time_ms,
    cpu_time_ms, scheduled_time_ms, input_bytes, peak_memory_bytes,
    peak_total_memory_bytes)]; [metrics] holds the fields from index 3 on, as
    many as the row has, [None] for SQL NULL. *)
Record LogRow : Type := mkRow {
  query_id : string;
  query : string;
  create_time : string;
  metrics : list (option Z)
}.

(** [len(row)] *)
Definition row_len (row : LogRow) : Z := 3 + Z.of_nat (length (metrics row)).

(** [row[i]] for a metric index [3 <= i < len(row)]. *)
Definition row_get (row : LogRow) (i : Z) : option Z :=
  nth (Z.to_nat (i - 3)) (metrics row) None.

(** ** [parse_underlying_query] *)

Record Usage : Type := mkUsage {
  tables : list string;
  join_columns : Counter;
  where_columns : Counter
}.

Definition table_label (node : Expression) : string :=
  match args_get "alias" node with
  | Some alias => name node ++ " AS " ++ name alias
  | None => name node
  end.

Definition count_columns (e : Expression) (c : Counter) : Counter :=
  fold_left (fun c col => counter_add (name col) 1 c) (find_all exp.Column e) c.

Section Parsing.
(** [sqlglot.parse_one]; [None] when it raises. *)
Variable parse_one : string -> option Expression.

Definition parse_underlying_query (ddl : string) : option Usage :=
  match extract_select_statement ddl with
  | None | Some "" => None
  | Some query_text =>
      match parse_one query_text with
      | None => None
      | Some parsed =>
          let tables := List.map table_label (find_all exp.Table parsed) in
          let join_columns :=
            fold_left
              (fun c join =>
                 match args_get "on" join with
                 | Some on => count_columns on c
                 | None => c
                 end)
              (find_all exp.Join parsed) [] in
          let where_columns :=
            match args_get "where" parsed with
            | Some where_ => count_columns where_ []
            | None => []
            end in
          Some (mkUsage tables join_columns where_columns)
      end
  end.

(** ** [aggregate_column_usage] *)

(** The rows [(Column, WeightedFrequency)] of the returned DataFrame. *)
Definition DataFrame : Type := list (string * Z).

(** [df.sort_values(by='WeightedFrequency', ascending=False)]. Rows of equal
    frequency are left in their order here; pandas sorts with quicksort by
    default and does not promise that order, so the statements about the
    table say nothing on it, or hold for every reordering that looks at the
    frequencies alone. *)
Definition sort_values (df : DataFrame) : DataFrame :=
  sort_desc (fun a b => snd b <=? snd a) df.

(** One turn of the loop over [view_data]. *)
Definition extend_with_view (weighted_columns : list string) (v : View)
  : list string :=
  let weighted_columns :=
    (weighted_columns ++ list_mul (columns v) (query_count v))%list in
  match ddl v with
  | None | Some "" => weighted_columns
  | Some ddl =>
      match parse_underlying_query ddl with
      | Some stats =>
          fold_left
            (fun w '(col, cnt) => (w ++ list_mul [col] cnt)%list)
            (join_columns stats) weighted_columns
      | None => weighted_columns
      end
  end.

(** One turn of the loop over [query_log_data]. *)
Definition extend_with_log (weighted_columns : list string) (row : LogRow)
  : list string :=
  match parse_one (query row) with
  | Some parsed =>
      fold_left (fun w node => (w ++ [name node])%list)
        (find_all exp.Table parsed) weighted_columns
  | None => weighted_columns
  end.

Definition weighted_columns_of (view_data : list View)
    (query_log_data : option (list LogRow)) : list string :=
  let weighted_columns := fold_left extend_with_view view_data [] in
  match query_log_data with
  | None | Some [] => weighted_columns
  | Some rows => fold_left extend_with_log rows weighted_columns
  end.

Definition aggregate_column_usage (view_data : list View)
    (query_log_data : option (list LogRow)) : DataFrame :=
  let col_stats := Counter_of (weighted_columns_of view_data query_log_data) in
  sort_values col_stats.
End Parsing.

(** ** [analyze_query_resource_metrics] *)

(** [[row[i] for row in query_log_data if len(row) > i and row[i] is not None]] *)
Definition present_values (i : Z) (query_log_data : list LogRow) : list Z :=
  flat_map
    (fun row =>
       if row_len row >? i
       then match row_get row i with Some v => [v] | None => [] end
       else [])
    query_log_data.

(** [max(l) if l else 1] *)
Definition max_or_1 (l : list Z) : Z :=
  match l with
  | [] => 1
  | v :: l' => fold_left Z.max l' v
  end.

Record MaxValues : Type := mkMax {
  max_execution_time_ms : Z;
  max_cpu_time_ms : Z;
  max_input_bytes : Z;
  max_peak_memory_bytes : Z
}.

Definition max_values (query_log_data : list LogRow) : MaxValues :=
  {| max_execution_time_ms := max_or_1 (present_values 3 query_log_data);
     max_cpu_time_ms := max_or_1 (present_values 4 query_log_data);
     max_input_bytes := max_or_1 (present_values 6 query_log_data);
     max_peak_memory_bytes := max_or_1 (present_values 7 query_log_data) |}.

(** [(field / max_value) * weight if field else 0]: [None] and [0] are
    falsy. The integer 0 of the [else] branch is the float 0. *)
Definition normalise (field : option Z) (max_value : Z) (weight : Z)
  : outcome Float.float :=
  match field with
  | None => Returns (Float.Finite 0)
  | Some v =>
      if v =? 0 then Returns (Float.Finite 0)
      else let* r := int_true_div v max_value in
           Returns (Float.mul r (Float.of_Z weight))
  end.

(** The body of the scoring loop for a row of at least 8 fields. *)
Definition resource_score (mv : MaxValues) (row : LogRow) : outcome Float.float :=
  let* exec_time_norm := normalise (row_get row 3) (max_execution_time_ms mv) 40 in
  let* cpu_time_norm := normalise (row_get row 4) (max_cpu_time_ms mv) 30 in
  let* input_bytes_norm := normalise (row_get row 6) (max_input_bytes mv) 15 in
  let* memory_norm := normalise (row_get row 7) (max_peak_memory_bytes mv) 15 in
  Returns
    (Float.add
       (Float.add (Float.add exec_time_norm cpu_time_norm) input_bytes_norm)
       memory_norm).

Definition score_row (mv : MaxValues) (acc : outcome (gmap string Float.float))
    (row : LogRow) : outcome (gmap string Float.float) :=
  let* query_resource_scores := acc in
  if row_len row <? 8 then Returns query_resource_scores
  else let* resource_score := resource_score mv row in
       Returns (<[query_id row := resource_score]> query_resource_scores).

Definition analyze_query_resource_metrics (query_log_data : option (list LogRow))
  : outcome (gmap string Float.float) :=
  match query_log_data with
  | None | Some [] => Returns ∅
  | Some rows => fold_left (score_row (max_values rows)) rows (Returns ∅)
  end.

(** ** The Trino cursor *)

(** What [cursor.execute(sql)] followed by [cursor.fetchone()] gives: the
    call raises, there is no row, or there is a row. *)
Inductive fetched (A : Type) : Type :=
  | ExecuteRaises
  | NoRow
  | Row (r : A).
Arguments ExecuteRaises {A}.
Arguments NoRow {A}.
Arguments Row {A} r.

(** One oracle per statement the code sends, keyed by the values the
    statement text is built from, returning the columns the code reads. *)
Record Cursor : Type := mkCursor {
  (** [SELECT execution_time_ms FROM system.runtime.queries WHERE query_id = ..]:
      [result[0]], [None] for NULL *)
  execution_time_ms : string -> fetched (option Z);
  (** [SELECT approx_distinct(column) as cardinality FROM fq_view]: [result[0]] *)
  approx_distinct : string -> string -> fetched Z;
  (** [SELECT approx_percentile(column, ARRAY[0.1, 0.5, 0.9]), count(distinct
      column), count( * ) FROM fq_view]: percentiles ([None] for NULL),
      distinct_count, total_count *)
  distribution : string -> string -> fetched (option (list Q) * Z * Z);
  (** [DESCRIBE fq_view column]: [result[1]] *)
  describe : string -> string -> fetched string;
  (** [SELECT MIN(column), MAX(column) FROM fq_view] *)
  min_max : string -> string -> fetched (option Q * option Q);
  (** the day, month and year counts of the granularity probe *)
  date_counts : string -> string -> fetched (Z * Z * Z)
}.

(** ** [analyze_column_cardinality] *)

Definition analyze_column_cardinality (cursor : Cursor) (view_data : list View)
  : gmap string (gmap string Z) :=
  fold_left
    (fun cardinality_stats v =>
       let view_stats :=
         fold_left
           (fun (view_stats : gmap string Z) column =>
              match approx_distinct cursor column (fq_view v) with
              | Row result => <[column := result]> view_stats
              | NoRow | ExecuteRaises => view_stats
              end)
           (columns v) ∅ in
       <[fq_view v := view_stats]> cardinality_stats)
    view_data ∅.

(** ** [analyze_query_performance] *)

Record PerfEntry : Type := mkPerf {
  pm_execution_time : Z;
  pm_query_count : Z;
  pm_columns : gmap string Z
}.

Definition add_execution_time (t : Z) (e : PerfEntry) : PerfEntry :=
  mkPerf (pm_execution_time e + t) (pm_query_count e) (pm_columns e).

Definition add_query_count (e : PerfEntry) : PerfEntry :=
  mkPerf (pm_execution_time e) (pm_query_count e + 1) (pm_columns e).

Definition add_column_time (col : string) (t : Z) (e : PerfEntry) : PerfEntry :=
  mkPerf (pm_execution_time e) (pm_query_count e)
         (<[col := default 0 (pm_columns e !! col) + t]> (pm_columns e)).

(** [if table not in performance_metrics: performance_metrics[table] = {...}] *)
Definition ensure_table (table : string) (pm : gmap string PerfEntry)
  : gmap string PerfEntry :=
  match pm !! table with
  | Some _ => pm
  | None => <[table := mkPerf 0 0 ∅]> pm
  end.

(** The loop over the tables of one logged query. The dictionary is updated
    in place, so what was written before [+= result[0]] raises on a NULL
    stays written. *)
Fixpoint correlate (tables columns : list string) (result0 : option Z)
    (pm : gmap string PerfEntry) : gmap string PerfEntry :=
  match tables with
  | [] => pm
  | table :: tables' =>
      let pm := ensure_table table pm in
      match result0 with
      | None => pm
      | Some t =>
          let pm := alter (add_execution_time t) table pm in
          let pm := alter add_query_count table pm in
          let pm :=
            fold_left (fun pm col => alter (add_column_time col t) table pm)
              columns pm in
          correlate tables' columns result0 pm
      end
  end.

Section Performance.
Variable parse_one : string -> option Expression.

Definition correlate_row (cursor : Cursor) (pm : gmap string PerfEntry)
    (row : LogRow) : gmap string PerfEntry :=
  match execution_time_ms cursor (query_id row) with
  | ExecuteRaises | NoRow => pm
  | Row result0 =>
      match parse_one (query row) with
      | None => pm
      | Some parsed =>
          let tables := List.map name (find_all exp.Table parsed) in
          let columns := List.map name (find_all exp.Column parsed) in
          correlate tables columns result0 pm
      end
  end.

Definition analyze_query_performance (cursor : Cursor) (view_data : list View)
    (query_log_data : option (list LogRow)) : gmap string PerfEntry :=
  match query_log_data with
  | None | Some [] => ∅
  | Some rows => fold_left (correlate_row cursor) rows ∅
  end.
End Performance.

(** ** [analyze_data_distribution] *)

Record Distribution : Type := mkDist {
  percentiles : list Q;
  skew_ratio : Q;
  density : Q;
  distinct_count : Z
}.

(** [l[i]] *)
Definition index {A : Type} (l : list A) (i : nat) : outcome A :=
  match nth_error l i with
  | Some x => Returns x
  | None => Raises IndexError
  end.

(** The body of the [try] for one sampled column, given what the cursor
    fetched: [Returns None] when the [if result and result[0]] test fails. *)
Definition column_distribution (result : fetched (option (list Q) * Z * Z))
  : outcome (option Distribution) :=
  match result with
  | ExecuteRaises => Raises DatabaseError
  | NoRow | Row (None, _, _) | Row (Some [], _, _) => Returns None
  | Row (Some percentiles, distinct_count, total_count) =>
      let* p10 := index percentiles 0 in
      let* p90 := index percentiles 2 in
      let* skew_ratio :=
        (if negb (Qeq_bool p10 p90) && negb (Qeq_bool p10 0)
         then true_div p90 p10
         else Returns 1%Q) in
      let* density :=
        (if total_count >? 0
         then true_div (inject_Z distinct_count) (inject_Z total_count)
         else Returns 0%Q) in
      Returns (Some (mkDist percentiles skew_ratio density distinct_count))
  end.

(** One turn of the loop over the sampled columns of a view. *)
Definition sample_column (cursor : Cursor) (fq_view : string)
    (view_stats : gmap string Distribution) (column : string)
  : gmap string Distribution :=
  match column_distribution (distribution cursor column fq_view) with
  | Returns (Some d) => <[column := d]> view_stats
  | Returns None | Raises _ => view_stats
  end.

Definition analyze_data_distribution (cursor : Cursor) (view_data : list View)
  : gmap string (gmap string Distribution) :=
  fold_left
    (fun distribution_stats v =>
       let sample_columns := firstn (Nat.min 5 (length (columns v))) (columns v) in
       let view_stats :=
         fold_left (sample_column cursor (fq_view v)) sample_columns ∅ in
       <[fq_view v := view_stats]> distribution_stats)
    view_data ∅.

(** ** [calculate_partition_score] *)

(** [global_stats.loc[global_stats['Column'] == column,
    'WeightedFrequency'].values[0] if column in global_stats['Column'].values
    else 0] *)
Definition base_weight (global_stats : list (string * Z)) (column : string) : Z :=
  match List.find (fun r => String.eqb (fst r) column) global_stats with
  | Some r => snd r
  | None => 0
  end.

Definition calculate_partition_score (column view : string)
    (cardinality_stats : gmap string (gmap string Z))
    (performance_metrics : gmap string PerfEntry)
    (global_stats : list (string * Z)) : Q :=
  let score := 0%Q in
  let score := (score + inject_Z (base_weight global_stats column) * 1)%Q in
  let score :=
    match cardinality_stats !! view ≫= (fun view_stats => view_stats !! column) with
    | Some cardinality =>
        if cardinality <? 10 then (score + 5)%Q
        else if cardinality <? 100 then (score + 10)%Q
        else if cardinality <? 1000 then (score + 8)%Q
        else if cardinality <? 10000 then (score + 5)%Q
        else (score + 1)%Q
    | None => score
    end in
  let score :=
    match performance_metrics !! view ≫= (fun e => pm_columns e !! column) with
    | Some weighted => (score + Qmin (inject_Z weighted / 1000) 50)%Q
    | None => score
    end in
  score.

(** ** [generate_iceberg_partition_spec] *)

(** The [column_stats] dictionary: an absent key is [None]. *)
Record ColumnStats : Type := mkStats {
  cardinality : option Z;
  value_range : option Q;
  date_granularity : option string
}.

Definition no_stats : ColumnStats := mkStats None None None.

(** [x in (a, b, ...)] on strings *)
Definition one_of (x : string) (l : list string) : bool :=
  existsb (String.eqb x) l.

Definition generate_iceberg_partition_spec (column column_type : string)
    (column_stats : ColumnStats) : string :=
  if one_of column_type ["date"; "timestamp"] then
    match date_granularity column_stats with
    | Some granularity =>
        if String.eqb granularity "day" then "day(" ++ column ++ ")"
        else if String.eqb granularity "month" then "month(" ++ column ++ ")"
        else if String.eqb granularity "year" then "year(" ++ column ++ ")"
        else "month(" ++ column ++ ")"
    | None => "month(" ++ column ++ ")"
    end
  else if one_of column_type ["varchar"; "string"; "char"] then
    let cardinality := default 0 (cardinality column_stats) in
    if cardinality >? 10000 then "bucket(16, " ++ column ++ ")"
    else column
  else if one_of column_type ["integer"; "bigint"] then
    let cardinality := default 0 (cardinality column_stats) in
    if cardinality >? 1000 then
      let bucket_count := Z.min (Z.max (Z.quot cardinality 500) 4) 32 in
      "bucket(" ++ PyStr.of_Z bucket_count ++ ", " ++ column ++ ")"
    else
      let value_range := default 0%Q (value_range column_stats) in
      if Qgt_bool value_range 10000 then "truncate(" ++ column ++ ", 100)"
      else column
  else column.

(** ** [produce_iceberg_partition_scripts] *)

(** [d[k1][k2] = v], creating [d[k1]] when it is missing *)
Definition set2 {V : Type} (k1 k2 : string) (v : V)
    (d : gmap string (gmap string V)) : gmap string (gmap string V) :=
  <[k1 := <[k2 := v]> (default ∅ (d !! k1))]> d.

(** [d.get(k1, {}).get(k2)] *)
Definition get2 {V : Type} (k1 k2 : string) (d : gmap string (gmap string V))
  : option V :=
  d !! k1 ≫= (fun inner => inner !! k2).

(** [view_scores[column] = score] on a dictionary in insertion order *)
Fixpoint dict_set {V : Type} (k : string) (v : V) (d : list (string * V))
  : list (string * V) :=
  match d with
  | [] => [(k, v)]
  | (k', v') :: d' =>
      if String.eqb k k' then (k', v) :: d' else (k', v') :: dict_set k v d'
  end.

(** [l[:n]] *)
Definition take {A : Type} (n : Z) (l : list A) : list A :=
  if n <? 0 then firstn (Z.to_nat (Z.of_nat (length l) + n)) l
  else firstn (Z.to_nat n) l.

Definition granularity_of (counts : Z * Z * Z) : string :=
  let '(day_count, month_count, year_count) := counts in
  if day_count >? month_count * 20 then "day"
  else if month_count >? year_count * 8 then "month"
  else "year".

(** The [try] block that fills [column_types] and [column_stats] for one
    column; any exception leaves what was written so far. *)
Definition gather_column (cursor : Cursor)
    (cardinality_stats : gmap string (gmap string Z)) (fq_view column : string)
    (st : gmap string (gmap string string) * gmap string (gmap string ColumnStats))
  : gmap string (gmap string string) * gmap string (gmap string ColumnStats) :=
  let '(column_types, column_stats) := st in
  (* schema, table = fq_view.split('.') *)
  if negb (PyStr.count_char "." fq_view =? 1)%nat then st
  else
    match describe cursor fq_view column with
    | ExecuteRaises | NoRow => st
    | Row type =>
        let column_types := set2 fq_view column type column_types in
        let stat :=
          mkStats (Some (default 0 (get2 fq_view column cardinality_stats)))
                  None None in
        let stat :=
          if one_of type ["integer"; "bigint"; "double"] then
            match min_max cursor column fq_view with
            | Row (Some lo, Some hi) =>
                mkStats (cardinality stat) (Some (hi - lo)%Q) (date_granularity stat)
            | _ => stat
            end
          else stat in
        let stat :=
          if one_of type ["date"; "timestamp"] then
            match date_counts cursor column fq_view with
            | Row counts =>
                mkStats (cardinality stat) (value_range stat)
                        (Some (granularity_of counts))
            | _ => stat
            end
          else stat in
        (column_types, set2 fq_view column stat column_stats)
    end.

Definition top_columns_of (sorted_columns : list (string * Q)) (top_n : Z)
  : list string :=
  List.map fst
    (List.filter (fun cs => Qgt_bool (snd cs) 0)
       (take top_n sorted_columns)).

Definition advisory_script (fq_view : string) : string :=
  "-- " ++ fq_view ++ " does not contain suitable columns for partitioning." ++ newline.

Section Scripts.
Variable parse_one : string -> option Expression.
(** The text Python's [repr] gives for the list of [(column, score)] pairs. *)
Variable repr_scores : list (string * Q) -> string.

Definition alter_script (fq_view : string) (scores : list (string * Q))
    (partition_specs : list string) : string :=
  "-- Iceberg Partitioning script for " ++ fq_view ++ newline ++
  "-- Column scores: " ++ repr_scores scores ++ newline ++
  "ALTER TABLE " ++ fq_view ++ " REPLACE PARTITION SPEC (" ++ newline ++ "    " ++
  PyStr.join ("," ++ newline ++ "    ") partition_specs ++
  newline ++ ");" ++ newline.

Record ScriptState : Type := mkState {
  column_types : gmap string (gmap string string);
  column_stats : gmap string (gmap string ColumnStats);
  partition_scripts : gmap string string
}.

(** The first loop of a view: the score of every column, and its type and
    statistics when there is a cursor. *)
Definition score_columns (cursor : option Cursor)
    (cardinality_stats : gmap string (gmap string Z))
    (performance_metrics : gmap string PerfEntry)
    (global_stats : list (string * Z)) (v : View)
    (types_stats : gmap string (gmap string string) * gmap string (gmap string ColumnStats))
  : list (string * Q) * (gmap string (gmap string string) * gmap string (gmap string ColumnStats)) :=
  fold_left
    (fun '(view_scores, types_stats) column =>
       let score :=
         calculate_partition_score column (fq_view v) cardinality_stats
           performance_metrics global_stats in
       let view_scores := dict_set column score view_scores in
       match cursor with
       | Some cursor =>
           (view_scores,
            gather_column cursor cardinality_stats (fq_view v) column types_stats)
       | None => (view_scores, types_stats)
       end)
    (columns v) ([], types_stats).

(** One turn of the loop over [view_data]. *)
Definition script_view (cursor : option Cursor)
    (cardinality_stats : gmap string (gmap string Z))
    (performance_metrics : gmap string PerfEntry)
    (global_stats : list (string * Z)) (top_n : Z)
    (st : ScriptState) (v : View) : ScriptState :=
  let '(view_scores, (column_types, column_stats)) :=
    score_columns cursor cardinality_stats performance_metrics global_stats v
      (column_types st, column_stats st) in
  let sorted_columns :=
    sort_desc (fun a b => Qle_bool (snd b) (snd a))
      view_scores in
  let top_columns := top_columns_of sorted_columns top_n in
  let script :=
    match top_columns with
    | [] => advisory_script (fq_view v)
    | _ =>
        let partition_specs :=
          List.map
            (fun col =>
               let col_type := default "unknown" (get2 (fq_view v) col column_types) in
               let col_stat := default no_stats (get2 (fq_view v) col column_stats) in
               generate_iceberg_partition_spec col col_type col_stat)
            top_columns in
        alter_script (fq_view v) (take top_n sorted_columns) partition_specs
    end in
  mkState column_types column_stats (<[fq_view v := script]> (partition_scripts st)).

(** [analyze_column_cardinality(cursor, view_data) if cursor else {}] *)
Definition cardinality_stats_of (cursor : option Cursor) (view_data : list View)
  : gmap string (gmap string Z) :=
  match cursor with
  | Some cursor => analyze_column_cardinality cursor view_data
  | None => ∅
  end.

(** [analyze_query_performance(cursor, view_data, query_log_data)
    if cursor and query_log_data else {}] *)
Definition performance_metrics_of (cursor : option Cursor) (view_data : list View)
    (query_log_data : option (list LogRow)) : gmap string PerfEntry :=
  match cursor, query_log_data with
  | Some cursor, Some (_ :: _) =>
      analyze_query_performance parse_one cursor view_data query_log_data
  | _, _ => ∅
  end.

Definition produce_iceberg_partition_scripts (view_data : list View)
    (global_stats : list (string * Z)) (cursor : option Cursor) (top_n : Z)
    (query_log_data : option (list LogRow)) : gmap string string :=
  let cardinality_stats := cardinality_stats_of cursor view_data in
  let performance_metrics :=
    performance_metrics_of cursor view_data query_log_data in
  partition_scripts
    (fold_left
       (script_view cursor cardinality_stats performance_metrics global_stats top_n)
       view_data (mkState ∅ ∅ ∅)).
End Scripts.

(** ** Notions the statements below are written with *)

(** [m], in upper case, is found at the start of [s] when letter case is
    ignored. *)
Fixpoint matches_start (m s : string) : bool :=
  match m, s with
  | EmptyString, _ => true
  | String _ _, EmptyString => false
  | String a m', String b s' =>
      Ascii.eqb a (PyStr.upper_char b) && matches_start m' s'
  end.

(** The token [" AS "] occurs at index [i] of [ddl], in any letter case. *)
Definition marker_at (ddl : string) (i : nat) : bool :=
  matches_start marker (PyStr.drop i ddl).

Definition carriage_return : string := String (ascii_of_nat 13) EmptyString.

(** The characters [str.strip()] removes. *)
Definition whitespace : string :=
  " " ++ tab ++ newline ++ carriage_return
      ++ String (ascii_of_nat 11) (String (ascii_of_nat 12) EmptyString).

(** Stripped of surrounding whitespace and of trailing semicolons. *)
Definition whitespace_semicolon_trim (s : string) : string :=
  PyStr.rstrip (whitespace ++ ";") (PyStr.lstrip whitespace s).

(** [clamp(x, lo, hi)] *)
Definition clamp (x lo hi : Z) : Z :=
  if x <? lo then lo else if hi <? x then hi else x.

(** The performance term of the score: [min(weighted sum / 1000, 50)], 0
    without data. *)
Definition performance_bonus (performance_metrics : gmap string PerfEntry)
    (view column : string) : Q :=
  match performance_metrics !! view with
  | Some e =>
      match pm_columns e !! column with
      | Some weighted => Qmin (inject_Z weighted / 1000) 50
      | None => 0%Q
      end
  | None => 0%Q
  end.

(** The positions of execution_time_ms, cpu_time_ms, input_bytes and
    peak_memory_bytes in a log row. *)
Definition metric_indices : list Z := [3; 4; 6; 7].


(** Every metric value present in the batch is non-negative. *)
Definition nonneg_metrics (rows : list LogRow) : Prop :=
  forall i v, In i metric_indices -> In v (present_values i rows) -> 0 <= v.

(** [row] holds the batch maximum of metric [i]. *)
Definition holds_max (rows : list LogRow) (row : LogRow) (i : Z) : Prop :=
  exists v, row_get row i = Some v
            /\ forall w, In w (present_values i rows) -> w <= v.

(** [row] holds the batch maximum of metric [i], and that maximum is not 0. *)
Definition holds_positive_max (rows : list LogRow) (row : LogRow) (i : Z) : Prop :=
  exists v, row_get row i = Some v /\ 0 < v
            /\ forall w, In w (present_values i rows) -> w <= v.

(** The cardinality term of the score, by band. *)
Definition cardinality_bonus (cardinality : option Z) : Q :=
  match cardinality with
  | None => 0
  | Some c =>
      if c <? 10 then 5
      else if c <? 100 then 10
      else if c <? 1000 then 8
      else if c <? 10000 then 5
      else 1
  end.

(** The entry of [view] in the performance metrics, if any, attributes no
    time to any column. *)
Definition no_column_time (view : string) (pm : gmap string PerfEntry) : Prop :=
  forall e, pm !! view = Some e -> pm_columns e = ∅.

(** The rows of an optional query log. *)
Definition rows_of (query_log_data : option (list LogRow)) : list LogRow :=
  default [] query_log_data.

(** What one view, and one log row, add to [weighted_columns]. *)
Definition view_emissions (parse_one : string -> option Expression) (v : View)
  : list string := extend_with_view parse_one [] v.

Definition log_emissions (parse_one : string -> option Expression) (row : LogRow)
  : list string := extend_with_log parse_one [] row.

(** The rows are in descending order of frequency. *)
Definition descending (df : list (string * Z)) : Prop :=
  StronglySorted (fun a b => snd b <= snd a) df.

(** The [view_scores] dictionary of a view once its columns are scored, its
    items sorted by descending score, and the columns selected from them. *)
Definition view_scores_of (cardinality_stats : gmap string (gmap string Z))
    (performance_metrics : gmap string PerfEntry)
    (global_stats : list (string * Z)) (v : View) : list (string * Q) :=
  fold_left
    (fun view_scores column =>
       dict_set column
         (calculate_partition_score column (fq_view v) cardinality_stats
            performance_metrics global_stats)
         view_scores)
    (columns v) [].

Definition sorted_columns_of (cardinality_stats : gmap string (gmap string Z))
    (performance_metrics : gmap string PerfEntry)
    (global_stats : list (string * Z)) (v : View) : list (string * Q) :=
  sort_desc (fun a b => Qle_bool (snd b) (snd a))
    (view_scores_of cardinality_stats performance_metrics global_stats v).

Definition selected_columns (cardinality_stats : gmap string (gmap string Z))
    (performance_metrics : gmap string PerfEntry)
    (global_stats : list (string * Z)) (top_n : Z) (v : View) : list string :=
  top_columns_of
    (sorted_columns_of cardinality_stats performance_metrics global_stats v) top_n.


(** ** Sample inputs *)


(** A batch in which no query read any input: input_bytes is 0 on every
    row. The first row holds the maximum of all four metrics. *)
Definition heavy_row : LogRow :=
  mkRow "q1" "SELECT * FROM orders" "2024-01-01 00:00:00"
        [Some 10; Some 5; Some 2; Some 0; Some 7; Some 7].
Definition light_row : LogRow :=
  mkRow "q2" "SELECT * FROM regions" "2024-01-01 00:00:01"
        [Some 5; Some 2; Some 1; Some 0; Some 3; Some 3].
Definition short_row : LogRow :=
  mkRow "q3" "SELECT 1" "2024-01-01 00:00:02" [].
Definition zero_input_batch : list LogRow := [heavy_row; light_row; short_row].

(** The view of the end-to-end example, and the tree sqlglot builds for its
    SELECT statement: two tables with aliases, one join whose ON condition
    compares [o.region] with [r.region], and a WHERE clause on [o.amount]. *)
Definition sales_ddl : string :=
  "CREATE MATERIALIZED VIEW db.sales AS SELECT * FROM orders o JOIN regions r ON o.region=r.region WHERE o.amount > 100".

Definition sales_select : string :=
  "SELECT * FROM orders o JOIN regions r ON o.region=r.region WHERE o.amount > 100".

Definition sales_view : View :=
  mkView "db.sales" ["order_date"; "region"; "amount"] 1 (Some sales_ddl).

Definition identifier (text : string) : Expression := Expr exp.Identifier text [].

Definition aliased_table (table alias : string) : Expression :=
  Expr exp.Table table
       [("this", identifier table);
        ("alias", Expr exp.TableAlias alias [("this", identifier alias)])].

Definition qualified_column (table column : string) : Expression :=
  Expr exp.Column column [("this", identifier column); ("table", identifier table)].

Definition sales_tree : Expression :=
  Expr exp.Select ""
    [("expressions", Expr exp.Star "*" []);
     ("from", Expr exp.From "" [("this", aliased_table "orders" "o")]);
     ("joins",
      Expr exp.Join ""
        [("this", aliased_table "regions" "r");
         ("on", Expr exp.EQ ""
                  [("this", qualified_column "o" "region");
                   ("expression", qualified_column "r" "region")])]);
     ("where",
      Expr exp.Where ""
        [("this", Expr exp.GT ""
                    [("this", qualified_column "o" "amount");
                     ("expression", Expr exp.Literal "100" [])])])].

Definition orders_tree : Expression :=
  Expr exp.Select ""
    [("expressions", Expr exp.Star "*" []);
     ("from", Expr exp.From ""
                [("this", Expr exp.Table "orders" [("this", identifier "orders")])])].

(** A parser that knows the two sample statements and rejects every other
    text. *)
Definition sample_parse_one (sql : string) : option Expression :=
  if String.eqb sql sales_select then Some sales_tree
  else if String.eqb sql "SELECT * FROM orders" then Some orders_tree
  else None.

(** A cursor that answers every request. *)
Definition sample_cursor : Cursor :=
  {| execution_time_ms := fun _ => Row (Some 2000);
     approx_distinct := fun _ _ => Row 50;
     distribution := fun _ _ => Row (Some [1%Q; 5%Q; 9%Q], 40, 100);
     describe := fun _ _ => Row "varchar";
     min_max := fun _ _ => Row (Some 0%Q, Some 100%Q);
     date_counts := fun _ _ => Row (31, 1, 1) |}.

(** Two views without DDL, one column each. *)
Definition two_views : list View :=
  [mkView "db.a" ["x"] 1 None; mkView "db.b" ["y"] 1 None].

(** A view that is never queried, and a rendering of score lists. *)
Definition idle_view : View := mkView "db.idle" ["a"; "b"] 0 None.

Definition sample_repr (scores : list (string * Q)) : string :=
  "[" ++ PyStr.join ", " (List.map fst scores) ++ "]".

(** ** [analyze_query_types] *)

(** The value stored per query: [{"is_interactive": ..., "partition_priority": ...}]. *)
Record QueryType : Type := mkQueryType {
  is_interactive : bool;
  partition_priority : Q
}.

(** The body of the loop: a LIMIT in the text or an execution time under
    10 seconds marks the query as interactive. *)
Definition classify_query (row : LogRow) : QueryType :=
  let is_interactive := false in
  let is_interactive :=
    if PyStr.contains "LIMIT" (PyStr.upper (query row)) then true
    else is_interactive in
  let is_interactive :=
    if row_len row >? 3 then
      match row_get row 3 with
      | Some exec_time => if exec_time <? 10000 then true else is_interactive
      | None => is_interactive
      end
    else is_interactive in
  mkQueryType is_interactive (if is_interactive then 2 else 1).

Definition analyze_query_types (query_log_data : option (list LogRow))
  : gmap string QueryType :=
  match query_log_data with
  | None | Some [] => ∅
  | Some rows =>
      fold_left
        (fun query_type_stats row =>
           <[query_id row := classify_query row]> query_type_stats)
        rows ∅
  end.

(** ** The execution test of [cli.main] *)

(** The characters [str.strip()] removes from an ASCII text: tab, newline,
    vertical tab, form feed, carriage return, the four separators 28 to 31,
    and space. *)
Definition py_whitespace : string :=
  String (ascii_of_nat 9) (String (ascii_of_nat 10) (String (ascii_of_nat 11)
  (String (ascii_of_nat 12) (String (ascii_of_nat 13) (String (ascii_of_nat 28)
  (String (ascii_of_nat 29) (String (ascii_of_nat 30) (String (ascii_of_nat 31)
  (String (ascii_of_nat 32) EmptyString))))))))).

(** [not script.strip().startswith("--")]: the script is sent to the
    cursor. *)
Definition should_execute (script : string) : bool :=
  negb (PyStr.startswith (PyStr.strip py_whitespace script) "--").

(** ** Texts the statements are about *)

Fixpoint all_chars (p : ascii -> bool) (s : string) : bool :=
  match s with
  | EmptyString => true
  | String c s' => p c && all_chars p s'
  end.

(** Every character of the text is an ASCII character. *)
Definition ascii_text (s : string) : bool :=
  all_chars (fun c => (nat_of_ascii c <? 128)%nat) s.

(** The only whitespace characters of the text are spaces and newlines. *)
Definition plain_whitespace (s : string) : bool :=
  all_chars
    (fun c => negb (PyStr.mem c py_whitespace) || PyStr.mem c (" " ++ newline))
    s.

(** ** More notions for the statements *)

(** [m] (in upper case) occurs in [s] at some index, in any letter case. *)
Definition occurs_ignoring_case (m s : string) : Prop :=
  exists i, matches_start m (PyStr.drop i s) = true.

(** The first and the last character of a text. *)
Definition first_char (s : string) : option ascii :=
  match s with
  | EmptyString => None
  | String c _ => Some c
  end.

Fixpoint last_char (s : string) : option ascii :=
  match s with
  | EmptyString => None
  | String c EmptyString => Some c
  | String _ s' => last_char s'
  end.

(** The names of the column references under the ON conditions of the joins
    of a statement, and under its WHERE clause, in the order of the walk. *)
Definition on_column_names (parsed : Expression) : list string :=
  flat_map
    (fun join =>
       match args_get "on" join with
       | Some on => List.map name (find_all exp.Column on)
       | None => []
       end)
    (find_all exp.Join parsed).

Definition where_column_names (parsed : Expression) : list string :=
  match args_get "where" parsed with
  | Some where_ => List.map name (find_all exp.Column where_)
  | None => []
  end.

(** The number of times [x] occurs in [l]. *)
Definition occurrences (x : string) (l : list string) : Z :=
  Z.of_nat (count_occ string_dec l x).

Definition zsum (l : list Z) : Z := fold_right Z.add 0 l.

(** The count of [column] among the join columns parsed from the DDL of a
    view; 0 when the view has no DDL or the DDL gives nothing. *)
Definition join_count (parse_one : string -> option Expression) (v : View)
    (column : string) : Z :=
  match ddl v with
  | None | Some "" => 0
  | Some ddl =>
      match parse_underlying_query parse_one ddl with
      | Some stats => counter_get column (join_columns stats)
      | None => 0
      end
  end.

(** The number of table references named [column] in the text of a log
    row; 0 when the text does not parse. *)
Definition table_references (parse_one : string -> option Expression)
    (row : LogRow) (column : string) : Z :=
  match parse_one (query row) with
  | Some parsed => occurrences column (List.map name (find_all exp.Table parsed))
  | None => 0
  end.

(** The weighted frequency of a column, as the docstring of
    [aggregate_column_usage] describes it. *)
Definition weighted_frequency (parse_one : string -> option Expression)
    (view_data : list View) (query_log_data : option (list LogRow))
    (column : string) : Z :=
  zsum (List.map
          (fun v =>
             occurrences column (columns v) * Z.max 0 (query_count v)
             + join_count parse_one v column)
          view_data)
  + zsum (List.map (fun row => table_references parse_one row column)
            (rows_of query_log_data)).

(** The entry of a table in the performance metrics, or the entry a table
    starts with when it has none yet. *)
Definition entry_of (pm : gmap string PerfEntry) (table : string) : PerfEntry :=
  default (mkPerf 0 0 ∅) (pm !! table).

(** What the performance analysis takes from a log row: the time the cursor
    gives for it, and the table and column names of its text. [None] when
    the cursor raises, returns no row or a NULL, or the text does not
    parse. *)
Definition correlated (parse_one : string -> option Expression)
    (cursor : Cursor) (row : LogRow) : option (Z * list string * list string) :=
  match execution_time_ms cursor (query_id row) with
  | Row (Some t) =>
      match parse_one (query row) with
      | Some parsed =>
          Some (t, List.map name (find_all exp.Table parsed),
                List.map name (find_all exp.Column parsed))
      | None => None
      end
  | _ => None
  end.

(** The sums the loop accumulates for a table, over the rows of the log. *)
Definition table_time (parse_one : string -> option Expression)
    (cursor : Cursor) (rows : list LogRow) (table : string) : Z :=
  zsum (List.map
          (fun row =>
             match correlated parse_one cursor row with
             | Some (t, tables, _) => t * occurrences table tables
             | None => 0
             end) rows).

Definition table_queries (parse_one : string -> option Expression)
    (cursor : Cursor) (rows : list LogRow) (table : string) : Z :=
  zsum (List.map
          (fun row =>
             match correlated parse_one cursor row with
             | Some (_, tables, _) => occurrences table tables
             | None => 0
             end) rows).

Definition column_time (parse_one : string -> option Expression)
    (cursor : Cursor) (rows : list LogRow) (table column : string) : Z :=
  zsum (List.map
          (fun row =>
             match correlated parse_one cursor row with
             | Some (t, tables, columns) =>
                 t * occurrences table tables * occurrences column columns
             | None => 0
             end) rows).

(** [fq_view.split('.')] unpacks into [schema, table]: the name holds one
    dot. *)
Definition single_dot (fq_view : string) : bool :=
  (PyStr.count_char "." fq_view =? 1)%nat.

(** The statistics [produce_iceberg_partition_scripts] gathers for a column
    that [DESCRIBE] gives the type [type]. *)
Definition gathered_stats (cursor : Cursor)
    (cardinality_stats : gmap string (gmap string Z))
    (fq_view column type : string) : ColumnStats :=
  let stat :=
    mkStats (Some (default 0 (get2 fq_view column cardinality_stats))) None None in
  let stat :=
    if one_of type ["integer"; "bigint"; "double"] then
      match min_max cursor column fq_view with
      | Row (Some lo, Some hi) =>
          mkStats (cardinality stat) (Some (hi - lo)%Q) (date_granularity stat)
      | _ => stat
      end
    else stat in
  if one_of type ["date"; "timestamp"] then
    match date_counts cursor column fq_view with
    | Row counts =>
        mkStats (cardinality stat) (value_range stat) (Some (granularity_of counts))
    | _ => stat
    end
  else stat.

(** What gets recorded for a column of a view: its type and statistics when
    there is a cursor, the name of the view holds one dot and [DESCRIBE]
    returns a row; nothing otherwise. *)
Definition recorded (cursor : option Cursor)
    (cardinality_stats : gmap string (gmap string Z)) (fq_view column : string)
  : option (string * ColumnStats) :=
  match cursor with
  | Some cursor =>
      if single_dot fq_view then
        match describe cursor fq_view column with
        | Row type =>
            Some (type, gathered_stats cursor cardinality_stats fq_view column type)
        | ExecuteRaises | NoRow => None
        end
      else None
  | None => None
  end.

Definition recorded_type (cursor : option Cursor)
    (cardinality_stats : gmap string (gmap string Z)) (fq_view column : string)
  : string :=
  default "unknown" (fst <$> recorded cursor cardinality_stats fq_view column).

Definition recorded_stats (cursor : option Cursor)
    (cardinality_stats : gmap string (gmap string Z)) (fq_view column : string)
  : ColumnStats :=
  default no_stats (snd <$> recorded cursor cardinality_stats fq_view column).

(** The script of a view, from its selected columns and what is recorded
    for them. *)
Definition script_of (repr_scores : list (string * Q) -> string)
    (cursor : option Cursor) (cardinality_stats : gmap string (gmap string Z))
    (performance_metrics : gmap string PerfEntry)
    (global_stats : list (string * Z)) (top_n : Z) (v : View) : string :=
  match selected_columns cardinality_stats performance_metrics global_stats top_n v with
  | [] => advisory_script (fq_view v)
  | cols =>
      alter_script repr_scores (fq_view v)
        (take top_n
           (sorted_columns_of cardinality_stats performance_metrics global_stats v))
        (List.map
           (fun col =>
              generate_iceberg_partition_spec col
                (recorded_type cursor cardinality_stats (fq_view v) col)
                (recorded_stats cursor cardinality_stats (fq_view v) col))
           cols)
  end.

(** The types and statistics in the state agree with what is recorded for
    the column, or the column has not been met. *)
Definition settled (cursor : option Cursor)
    (cardinality_stats : gmap string (gmap string Z))
    (types_stats : gmap string (gmap string string)
                   * gmap string (gmap string ColumnStats))
    (fq_view column : string) : Prop :=
  get2 fq_view column (fst types_stats)
  = fst <$> recorded cursor cardinality_stats fq_view column
  /\ get2 fq_view column (snd types_stats)
     = snd <$> recorded cursor cardinality_stats fq_view column.

Definition settled_or_new (cursor : option Cursor)
    (cardinality_stats : gmap string (gmap string Z))
    (types_stats : gmap string (gmap string string)
                   * gmap string (gmap string ColumnStats)) : Prop :=
  forall fq_view column,
    (get2 fq_view column (fst types_stats) = None
     /\ get2 fq_view column (snd types_stats) = None)
    \/ settled cursor cardinality_stats types_stats fq_view column.

(** What the column loop does to the types and the statistics. *)
Definition gather_step (cursor : option Cursor)
    (cardinality_stats : gmap string (gmap string Z)) (fq_view : string)
    (types_stats : gmap string (gmap string string)
                   * gmap string (gmap string ColumnStats))
    (column : string) :=
  match cursor with
  | Some cursor => gather_column cursor cardinality_stats fq_view column types_stats
  | None => types_stats
  end.

(** Scoring [row] divides by zero: one of its four metrics is neither NULL
    nor 0 while the maximum of that metric over the batch is 0. *)
Definition zero_division (rows : list LogRow) (row : LogRow) : Prop :=
  exists i v,
    In i metric_indices /\ row_get row i = Some v /\ v <> 0
    /\ max_or_1 (present_values i rows) = 0.

(** The least magnitude that rounds out of the range of a float: halfway
    between the largest float, 2^1024 - 2^971, and 2^1024. *)
Definition overflow_threshold : Q := (2 ^ 1024 - 2 ^ 970)%Q.

(** Scoring [row] divides out of range: the quotient of one of its four
    metrics by the maximum of that metric over the batch, which is not 0,
    reaches the threshold in magnitude. *)
Definition division_overflow (rows : list LogRow) (row : LogRow) : Prop :=
  exists i v,
    In i metric_indices /\ row_get row i = Some v
    /\ max_or_1 (present_values i rows) <> 0
    /\ (2 ^ 1024 - 2 ^ 970) * Z.abs (max_or_1 (present_values i rows))
       <= Z.abs v.

(** The weight of a metric in the score. *)
Definition weight_of (i : Z) : Z :=
  if i =? 3 then 40 else if i =? 4 then 30 else 15.

(** The metric adds nothing to the score of the row: it is NULL or 0. *)
Definition contributes_nothing (row : LogRow) (i : Z) : Prop :=
  row_get row i = None \/ row_get row i = Some 0.

(** What the cursor gives [analyze_column_cardinality] for a column. *)
Definition counted (cursor : Cursor) (view column : string) : option Z :=
  match approx_distinct cursor column view with
  | Row result => Some result
  | NoRow | ExecuteRaises => None
  end.

(** What [analyze_data_distribution] keeps for a column it samples. *)
Definition sampled (cursor : Cursor) (view column : string) : option Distribution :=
  match column_distribution (distribution cursor column view) with
  | Returns (Some d) => Some d
  | Returns None | Raises _ => None
  end.

(** ** The cardinality score of the dashboard *)

(** The function [cardinality_score] nested in [show_column_statistics]. *)
Definition cardinality_score (card : Z) : Z :=
  if card <? 10 then 8
  else if card <? 100 then 10
  else if card <? 1000 then 7
  else if card <? 10000 then 5
  else 2.

(** Case analysis on a membership in [metric_indices]. *)
Ltac each_metric H :=
  simpl in H; destruct H as [<-|[<-|[<-|[<-|[]]]]].

(** * Properties *)

(** ** Strings *)

Lemma prefix_upper_matches m s :
  String.prefix m (PyStr.upper s) = matches_start m s.
Proof.
  revert s; induction m as [|a m IH]; intros [|b s]; simpl; try reflexivity.
  destruct (ascii_dec a (PyStr.upper_char b)) as [->|Hne].
  - rewrite Ascii.eqb_refl. apply IH.
  - apply Ascii.eqb_neq in Hne. now rewrite Hne.
Qed.

Lemma upper_drop n s : PyStr.upper (PyStr.drop n s) = PyStr.drop n (PyStr.upper s).
Proof.
  revert s; induction n as [|n IH]; intros [|c s]; simpl; auto.
Qed.

Lemma find_from_unfold sub s i :
  PyStr.find_from sub s i
  = if String.prefix sub s then i
    else match s with
         | EmptyString => -1
         | String _ s' => PyStr.find_from sub s' (i + 1)
         end.
Proof. destruct s; reflexivity. Qed.

Lemma find_from_first sub s j i :
  String.prefix sub (PyStr.drop j s) = true ->
  (forall k, (k < j)%nat -> String.prefix sub (PyStr.drop k s) = false) ->
  PyStr.find_from sub s i = i + Z.of_nat j.
Proof.
  revert s i; induction j as [|j IH]; intros s i Hj Hfirst.
  - rewrite find_from_unfold. change (PyStr.drop 0 s) with s in Hj.
    rewrite Hj. lia.
  - pose proof (Hfirst O ltac:(lia)) as H0. change (PyStr.drop 0 s) with s in H0.
    rewrite find_from_unfold, H0.
    destruct s as [|c s].
    + change (PyStr.drop (S j) "") with "" in Hj. congruence.
    + change (PyStr.drop (S j) (String c s)) with (PyStr.drop j s) in Hj.
      rewrite (IH s (i + 1) Hj); [lia|].
      intros k Hk. apply (Hfirst (S k)). lia.
Qed.

Lemma find_from_none sub s i :
  (forall k, String.prefix sub (PyStr.drop k s) = false) ->
  PyStr.find_from sub s i = -1.
Proof.
  revert i; induction s as [|c s IH]; intros i Hnone;
    pose proof (Hnone O) as H0; change (PyStr.drop 0 ?x) with x in H0;
    rewrite find_from_unfold, H0; [reflexivity|].
  apply IH. intros k. apply (Hnone (S k)).
Qed.

Lemma slice_from_nonneg s (n : nat) :
  PyStr.slice_from s (Z.of_nat n) = PyStr.drop n s.
Proof.
  unfold PyStr.slice_from.
  destruct (Z.ltb_spec (Z.of_nat n) 0); [lia|]. now rewrite Nat2Z.id.
Qed.

(** ** [extract_select_statement] *)

Lemma extract_found ddl j :
  marker_at ddl j = true ->
  (forall k, (k < j)%nat -> marker_at ddl k = false) ->
  extract_select_statement ddl
  = Some (PyStr.strip strip_chars (PyStr.drop (j + 4) ddl)).
Proof.
  unfold marker_at, extract_select_statement, PyStr.find. intros Hj Hfirst.
  rewrite (find_from_first marker (PyStr.upper ddl) j 0).
  - destruct (Z.eqb_spec (0 + Z.of_nat j) (-1)); [lia|]. simpl negb. cbv iota.
    replace (0 + Z.of_nat j + PyStr.len marker) with (Z.of_nat (j + 4))
      by (unfold PyStr.len; simpl; lia).
    now rewrite slice_from_nonneg.
  - now rewrite <- upper_drop, prefix_upper_matches.
  - intros k Hk. rewrite <- upper_drop, prefix_upper_matches. now apply Hfirst.
Qed.

Lemma extract_missing ddl :
  (forall k, marker_at ddl k = false) -> extract_select_statement ddl = None.
Proof.
  unfold marker_at, extract_select_statement, PyStr.find. intros Hnone.
  rewrite find_from_none; [reflexivity|].
  intros k. now rewrite <- upper_drop, prefix_upper_matches.
Qed.

Lemma all_chars_drop p n s :
  all_chars p s = true -> all_chars p (PyStr.drop n s) = true.
Proof.
  revert s; induction n as [|n IH]; intros [|c s]; simpl; auto.
  intros H. apply andb_true_iff in H as [_ H]. now apply IH.
Qed.

Lemma lstrip_agree chars1 chars2 s :
  all_chars (fun c => Bool.eqb (PyStr.mem c chars1) (PyStr.mem c chars2)) s = true ->
  PyStr.lstrip chars1 s = PyStr.lstrip chars2 s
  /\ all_chars (fun c => Bool.eqb (PyStr.mem c chars1) (PyStr.mem c chars2))
       (PyStr.lstrip chars1 s) = true.
Proof.
  induction s as [|c s IH]; simpl; [auto|]. intros H.
  apply andb_true_iff in H as [Hc Hs]. apply eqb_prop in Hc. rewrite <- Hc.
  destruct (PyStr.mem c chars1) eqn:E; [now apply IH|].
  split; [reflexivity|]. simpl. rewrite <- Hc, E. exact Hs.
Qed.

Lemma rstrip_agree chars1 chars2 s :
  all_chars (fun c => Bool.eqb (PyStr.mem c chars1) (PyStr.mem c chars2)) s = true ->
  PyStr.rstrip chars1 s = PyStr.rstrip chars2 s.
Proof.
  induction s as [|c s IH]; simpl; [auto|]. intros H.
  apply andb_true_iff in H as [Hc Hs]. apply eqb_prop in Hc.
  now rewrite <- (IH Hs), <- Hc.
Qed.

Lemma strip_agree chars1 chars2 s :
  all_chars (fun c => Bool.eqb (PyStr.mem c chars1) (PyStr.mem c chars2)) s = true ->
  PyStr.strip chars1 s = PyStr.strip chars2 s.
Proof.
  intros H. unfold PyStr.strip. destruct (lstrip_agree _ _ _ H) as [<- H'].
  now apply rstrip_agree.
Qed.

(** On a text whose whitespace is spaces and newlines, the characters the
    code strips are the whitespace characters and the semicolon. *)
Lemma plain_whitespace_strip s :
  plain_whitespace s = true ->
  PyStr.strip strip_chars s = PyStr.strip (py_whitespace ++ ";") s.
Proof.
  intros H. apply strip_agree. unfold plain_whitespace in H.
  induction s as [|c s IH]; [reflexivity|]. simpl in *.
  apply andb_true_iff in H as [Hc Hs]. rewrite (IH Hs), andb_true_r.
  clear IH Hs. revert Hc.
  destruct c as [[] [] [] [] [] [] [] []]; vm_compute; intros H;
    first [reflexivity | discriminate H].
Qed.

(** C8, as the code has it: on an ASCII DDL whose whitespace is spaces and
    newlines, when the token [" AS "] occurs (in any letter case) the result
    is the text after its first occurrence with every leading and trailing
    whitespace character and semicolon removed; when it does not occur, the
    result is [None]. *)
Theorem extract_select_statement_spec :
  (forall ddl j,
      ascii_text ddl = true -> plain_whitespace ddl = true ->
      marker_at ddl j = true ->
      (forall k, (k < j)%nat -> marker_at ddl k = false) ->
      extract_select_statement ddl
      = Some (PyStr.strip (py_whitespace ++ ";") (PyStr.drop (j + 4) ddl)))
  /\ (forall ddl,
         ascii_text ddl = true ->
         (forall k, marker_at ddl k = false) ->
         extract_select_statement ddl = None).
Proof.
  split.
  - intros ddl j _ Hplain Hj Hfirst.
    rewrite (extract_found ddl j Hj Hfirst). f_equal.
    apply plain_whitespace_strip. now apply all_chars_drop.
  - intros ddl _. apply extract_missing.
Qed.

Lemma marker_at_past_end ddl k :
  (String.length ddl <= k)%nat -> marker_at ddl k = false.
Proof.
  unfold marker_at. revert k; induction ddl as [|c ddl IH]; intros [|k] Hk;
    simpl in *; try reflexivity; try lia.
  apply IH. lia.
Qed.

Lemma extract_select_statement_spec_witness :
  extract_select_statement ("create view v as ;select 1 ;" ++ newline)
  = Some "select 1"
  /\ extract_select_statement "CREATE TABLE t (a int)" = None.
Proof.
  split.
  - apply (proj1 extract_select_statement_spec
             ("create view v as ;select 1 ;" ++ newline) 13%nat).
    + reflexivity.
    + reflexivity.
    + reflexivity.
    + intros k Hk. do 13 (destruct k as [|k]; [reflexivity|]). lia.
  - apply (proj2 extract_select_statement_spec "CREATE TABLE t (a int)").
    + reflexivity.
    + intros k. do 22 (destruct k as [|k]; [reflexivity|]).
      apply marker_at_past_end. simpl. lia.
Defined.

(** C8, as stated, fails on a statement that starts with a semicolon: the
    claim strips semicolons at the end only, the code strips them at both
    ends. *)
Lemma leading_semicolon_is_stripped :
  let ddl := "CREATE VIEW v AS ;SELECT 1" in
  ascii_text ddl = true /\ plain_whitespace ddl = true
  /\ marker_at ddl 13 = true
  /\ (forall k, (k < 13)%nat -> marker_at ddl k = false)
  /\ whitespace_semicolon_trim (PyStr.drop (13 + 4) ddl) = ";SELECT 1"
  /\ extract_select_statement ddl = Some "SELECT 1"
  /\ extract_select_statement ddl
     <> Some (whitespace_semicolon_trim (PyStr.drop (13 + 4) ddl)).
Proof.
  cbv zeta. repeat split; try reflexivity.
  - intros k Hk. do 13 (destruct k as [|k]; [reflexivity|]). lia.
  - vm_compute. discriminate.
Qed.

(** What the statement leaves out: a carriage return or a tab is not among
    the characters the code strips, so on a DDL that ends in a semicolon
    and a Windows line ending the semicolon and the carriage return stay. *)
Example carriage_return_ends_the_stripping :
  let ddl := "CREATE VIEW v AS SELECT 1;" ++ carriage_return ++ newline in
  plain_whitespace ddl = false
  /\ extract_select_statement ddl = Some ("SELECT 1;" ++ carriage_return).
Proof. split; reflexivity. Qed.

Example extract_sales :
  extract_select_statement
    "CREATE MATERIALIZED VIEW db.sales AS SELECT * FROM orders o JOIN regions r ON o.region=r.region WHERE o.amount > 100"
  = Some "SELECT * FROM orders o JOIN regions r ON o.region=r.region WHERE o.amount > 100".
Proof. reflexivity. Qed.

Example extract_strips_leading_semicolon :
  extract_select_statement "CREATE VIEW v AS ;SELECT 1" = Some "SELECT 1".
Proof. reflexivity. Qed.

Example extract_keeps_tab :
  extract_select_statement ("CREATE VIEW v AS SELECT 1" ++ tab)
  = Some ("SELECT 1" ++ tab).
Proof. reflexivity. Qed.

(** ** [generate_iceberg_partition_spec] *)

Lemma quot_500_clamp c :
  1000 < c -> Z.min (Z.max (Z.quot c 500) 4) 32 = clamp (c / 500) 4 32.
Proof.
  intros Hc. rewrite Z.quot_div_nonneg by lia. unfold clamp.
  destruct (Z.ltb_spec (c / 500) 4); [lia|].
  destruct (Z.ltb_spec 32 (c / 500)); lia.
Qed.

Lemma integer_spec column column_type stats :
  column_type = "integer" \/ column_type = "bigint" ->
  generate_iceberg_partition_spec column column_type stats
  = let cardinality := default 0 (cardinality stats) in
    if cardinality >? 1000
    then "bucket(" ++ PyStr.of_Z (clamp (cardinality / 500) 4 32) ++ ", " ++ column ++ ")"
    else if Qgt_bool (default 0%Q (value_range stats)) 10000
         then "truncate(" ++ column ++ ", 100)"
         else column.
Proof.
  intros [-> | ->]; unfold generate_iceberg_partition_spec; simpl one_of; cbv iota;
    cbv zeta; destruct (Z.gtb_spec (default 0 (cardinality stats)) 1000);
    try reflexivity; now rewrite quot_500_clamp.
Qed.

(** C6: the transform chosen for the three sample inputs, and the rule for
    integer and bigint columns: above cardinality 1000 a bucket transform
    whose count is cardinality/500 clamped to [4, 32]; otherwise truncation to
    hundreds when the value range exceeds 10000; otherwise the bare column. *)
Theorem generate_iceberg_partition_spec_spec :
  (forall col,
      generate_iceberg_partition_spec col "timestamp" (mkStats None None (Some "day"))
      = "day(" ++ col ++ ")")
  /\ (forall col,
         generate_iceberg_partition_spec col "varchar" (mkStats (Some 20000) None None)
         = "bucket(16, " ++ col ++ ")")
  /\ (forall col,
         generate_iceberg_partition_spec col "integer" (mkStats (Some 5000) None None)
         = "bucket(10, " ++ col ++ ")")
  /\ (forall column column_type stats,
         column_type = "integer" \/ column_type = "bigint" ->
         let c := default 0 (cardinality stats) in
         let r := default 0%Q (value_range stats) in
         (1000 < c ->
          generate_iceberg_partition_spec column column_type stats
          = "bucket(" ++ PyStr.of_Z (clamp (c / 500) 4 32) ++ ", "
              ++ column ++ ")")
         /\ (c <= 1000 -> (10000 < r)%Q ->
             generate_iceberg_partition_spec column column_type stats
             = "truncate(" ++ column ++ ", 100)")
         /\ (c <= 1000 -> (r <= 10000)%Q ->
             generate_iceberg_partition_spec column column_type stats = column)).
Proof.
  split; [reflexivity|]. split; [reflexivity|]. split; [reflexivity|].
  intros column column_type stats Hty c r.
  rewrite integer_spec by assumption. cbv zeta. fold c r.
  destruct (Z.gtb_spec c 1000) as [Hc|Hc].
  - split; [reflexivity|]. split; intros; lia.
  - unfold Qgt_bool. destruct (Qle_bool r 10000) eqn:E.
    + apply Qle_bool_iff in E. split; [lia|]. split; [intros; lra | reflexivity].
    + split; [lia|]. split; [reflexivity|]. intros _ Hr.
      apply Qle_bool_iff in Hr. congruence.
Qed.

Lemma generate_iceberg_partition_spec_spec_witness :
  generate_iceberg_partition_spec "id" "bigint" (mkStats (Some 2750) None None)
  = "bucket(5, id)"
  /\ generate_iceberg_partition_spec "id" "integer" (mkStats (Some 10) (Some 20000%Q) None)
     = "truncate(id, 100)"
  /\ generate_iceberg_partition_spec "id" "integer" (mkStats (Some 10) None None)
     = "id".
Proof.
  pose proof (proj2 (proj2 (proj2 generate_iceberg_partition_spec_spec))) as H.
  split; [|split].
  - apply (proj1 (H "id" "bigint" (mkStats (Some 2750) None None) (or_intror eq_refl))).
    simpl. lia.
  - apply (proj1 (proj2 (H "id" "integer" (mkStats (Some 10) (Some 20000%Q) None)
                           (or_introl eq_refl)))).
    + simpl. lia.
    + reflexivity.
  - apply (proj2 (proj2 (H "id" "integer" (mkStats (Some 10) None None)
                           (or_introl eq_refl)))).
    + simpl. lia.
    + simpl. discriminate.
Defined.

(** ** [calculate_partition_score] *)

Lemma score_decomposition column view cs pm gs :
  (calculate_partition_score column view cs pm gs
   == inject_Z (base_weight gs column) + cardinality_bonus (get2 view column cs)
      + performance_bonus pm view column)%Q.
Proof.
  unfold calculate_partition_score, performance_bonus, cardinality_bonus, get2.
  destruct (pm !! view) as [e|]; simpl;
    [destruct (pm_columns e !! column) as [w|]|]; simpl;
    (destruct (cs !! view) as [vs|]; simpl;
     [destruct (vs !! column) as [c|]|]; simpl;
     repeat match goal with |- context [if ?b then _ else _] => destruct b end;
     ring).
Qed.

(** C7: the score is the base weight plus the performance bonus plus a
    cardinality bonus of 5 below 10, 10 from 10 to below 100, 8 from 100 to
    below 1000, 5 from 1000 to below 10000, 1 from 10000 on, and 0 when the
    cardinality of the column is not known; so the bonus at 5, 50, 5000 and
    50000 is 5, 10, 5 and 1. *)
Theorem cardinality_bonus_bands column view cs pm gs :
  let rest :=
    (inject_Z (base_weight gs column) + performance_bonus pm view column)%Q in
  let score := calculate_partition_score column view cs pm gs in
  (get2 view column cs = None -> (score == rest + 0)%Q)
  /\ (forall c, get2 view column cs = Some c ->
        (c < 10 -> (score == rest + 5)%Q)
        /\ (10 <= c < 100 -> (score == rest + 10)%Q)
        /\ (100 <= c < 1000 -> (score == rest + 8)%Q)
        /\ (1000 <= c < 10000 -> (score == rest + 5)%Q)
        /\ (10000 <= c -> (score == rest + 1)%Q))
  /\ (get2 view column cs = Some 5 -> (score == rest + 5)%Q)
  /\ (get2 view column cs = Some 50 -> (score == rest + 10)%Q)
  /\ (get2 view column cs = Some 5000 -> (score == rest + 5)%Q)
  /\ (get2 view column cs = Some 50000 -> (score == rest + 1)%Q).
Proof.
  intros rest score. subst rest score.
  assert (forall c (b : Q),
             get2 view column cs = c -> cardinality_bonus c = b ->
             (calculate_partition_score column view cs pm gs
              == inject_Z (base_weight gs column)
                 + performance_bonus pm view column + b)%Q) as H.
  { intros c b <- <-. rewrite score_decomposition. ring. }
  split; [intros E; now apply (H None)|].
  split.
  - intros c E. unfold cardinality_bonus in H.
    repeat split; intros Hc; apply (H (Some c)); try assumption;
      repeat match goal with
             | |- context [?a <? ?b] => destruct (Z.ltb_spec a b); try lia
             end; reflexivity.
  - repeat split; intros E; now apply (H _ _ E).
Qed.

Lemma cardinality_bonus_bands_witness :
  let cs : gmap string (gmap string Z) := {[ "db.sales" := {[ "region" := 50 ]} ]} in
  (calculate_partition_score "region" "db.sales" cs ∅ [("region", 3%Z)] == 13)%Q
  /\ (calculate_partition_score "amount" "db.sales" cs ∅ [("region", 3%Z)] == 0)%Q.
Proof.
  intros cs. split.
  - eapply Qeq_trans.
    + apply (proj1 (proj2 (proj2 (proj2
        (cardinality_bonus_bands "region" "db.sales" cs ∅ [("region", 3)]))))).
      vm_compute. reflexivity.
    + vm_compute. reflexivity.
  - eapply Qeq_trans.
    + apply (proj1 (cardinality_bonus_bands "amount" "db.sales" cs ∅ [("region", 3)])).
      vm_compute. reflexivity.
    + vm_compute. reflexivity.
Defined.

(** ** [analyze_query_resource_metrics] *)

Lemma fold_max_ge l a : a <= fold_left Z.max l a.
Proof.
  revert a; induction l as [|x l IH]; intros a; simpl; [lia|].
  specialize (IH (Z.max a x)). lia.
Qed.

Lemma fold_max_upper l a w : In w l -> w <= fold_left Z.max l a.
Proof.
  revert a; induction l as [|x l IH]; intros a; simpl; [tauto|].
  intros [->|Hin]; [|now apply IH].
  pose proof (fold_max_ge l (Z.max a w)). lia.
Qed.

Lemma fold_max_in l a : fold_left Z.max l a = a \/ In (fold_left Z.max l a) l.
Proof.
  revert a; induction l as [|x l IH]; intros a; simpl; [now left|].
  destruct (IH (Z.max a x)) as [E|Hin]; [|now right; right].
  rewrite E. destruct (Z.max_spec a x) as [[_ ->]|[_ ->]]; auto.
Qed.

Lemma max_or_1_upper l w : In w l -> w <= max_or_1 l.
Proof.
  destruct l as [|v l]; simpl; [tauto|].
  intros [->|Hin]; [apply fold_max_ge | now apply fold_max_upper].
Qed.

Lemma max_or_1_in l : l <> [] -> In (max_or_1 l) l.
Proof.
  destruct l as [|v l]; [congruence|]. intros _. simpl.
  destruct (fold_max_in l v) as [->|Hin]; auto.
Qed.

Lemma present_values_in rows row i v :
  In row rows -> i < row_len row -> row_get row i = Some v ->
  In v (present_values i rows).
Proof.
  intros Hin Hlen Hget. unfold present_values. apply in_flat_map.
  exists row. split; [assumption|].
  destruct (Z.gtb_spec (row_len row) i); [|lia]. rewrite Hget. now left.
Qed.

(** In a batch of non-negative metrics, a field of a scored row lies between
    0 and the maximum used to normalise it. *)
Lemma field_bounds rows row i v :
  nonneg_metrics rows -> In i metric_indices -> In row rows ->
  8 <= row_len row -> row_get row i = Some v ->
  0 <= v <= max_or_1 (present_values i rows).
Proof.
  intros Hnn Hi Hin Hlen Hget.
  assert (i < row_len row) as Hi'
    by (each_metric Hi; lia).
  pose proof (present_values_in rows row i v Hin Hi' Hget) as Hv.
  split; [now apply (Hnn i) | now apply max_or_1_upper].
Qed.

Lemma holds_positive_max_iff rows row i v :
  In row rows -> i < row_len row -> row_get row i = Some v ->
  holds_positive_max rows row i
  <-> v = max_or_1 (present_values i rows) /\ 0 < v.
Proof.
  intros Hin Hlen Hget.
  pose proof (present_values_in rows row i v Hin Hlen Hget) as Hv.
  split.
  - intros (v' & Hget' & Hpos & Hmax). rewrite Hget in Hget'.
    injection Hget' as <-. split; [|assumption].
    pose proof (max_or_1_upper _ _ Hv).
    assert (present_values i rows <> []) as Hne by (intros E; now rewrite E in Hv).
    pose proof (Hmax _ (max_or_1_in _ Hne)). lia.
  - intros [E Hpos]. exists v. repeat split; try assumption.
    intros w Hw. rewrite E. now apply max_or_1_upper.
Qed.

(** ** Rounding to a float *)

Lemma round_half_even_floor q :
  Qfloor q <= Float.round_half_even q <= Qfloor q + 1.
Proof.
  unfold Float.round_half_even.
  destruct (q - inject_Z (Qfloor q) ?= 1 # 2)%Q; [destruct (Z.even _)| |]; lia.
Qed.

Lemma round_half_even_ge q n :
  (inject_Z n <= q)%Q -> n <= Float.round_half_even q.
Proof.
  intros H. apply Qfloor_resp_le in H. rewrite Qfloor_Z in H.
  pose proof (round_half_even_floor q). lia.
Qed.

Lemma round_half_even_le q n :
  (q <= inject_Z n)%Q -> Float.round_half_even q <= n.
Proof.
  intros H. pose proof (Qfloor_resp_le _ _ H) as Hf. rewrite Qfloor_Z in Hf.
  pose proof (round_half_even_floor q) as Hb.
  destruct (Z.eq_dec (Qfloor q) n) as [E|Hne]; [|lia].
  unfold Float.round_half_even.
  assert ((q - inject_Z (Qfloor q) ?= 1 # 2)%Q = Lt) as ->; [|lia].
  apply (proj1 (Qlt_alt _ _)). pose proof (Qfloor_le q) as Hq. rewrite E in *. lra.
Qed.

Lemma inject_Z_pred n : (inject_Z (n - 1) == inject_Z n - 1)%Q.
Proof. unfold Z.sub. rewrite inject_Z_plus. reflexivity. Qed.

Lemma inject_Z_succ n : (inject_Z (n + 1) == inject_Z n + 1)%Q.
Proof. rewrite inject_Z_plus. reflexivity. Qed.

Lemma floor_lt q n : (q < inject_Z n)%Q -> Qfloor q <= n - 1.
Proof.
  intros H. pose proof (Qfloor_le q) as Hq.
  assert (inject_Z (Qfloor q) < inject_Z n)%Q as Hlt by lra.
  rewrite <- Zlt_Qlt in Hlt. lia.
Qed.

(** Below the midpoint under [n], the rounding stays under [n]. *)
Lemma round_half_even_below q n :
  (q < inject_Z n - (1 # 2))%Q -> Float.round_half_even q <= n - 1.
Proof.
  intros H. assert (Qfloor q <= n - 1) as Hf by (apply floor_lt; lra).
  pose proof (round_half_even_floor q) as Hb.
  destruct (Z.eq_dec (Qfloor q) (n - 1)) as [E|Hne]; [|lia].
  unfold Float.round_half_even.
  assert ((q - inject_Z (Qfloor q) ?= 1 # 2)%Q = Lt) as ->; [|lia].
  apply (proj1 (Qlt_alt _ _)). rewrite E, inject_Z_pred. lra.
Qed.

(** From the midpoint under an even [n] on, the rounding reaches [n]. *)
Lemma round_half_even_above q n :
  (inject_Z n - (1 # 2) <= q)%Q -> Z.even n = true ->
  n <= Float.round_half_even q.
Proof.
  intros H Heven.
  destruct (Qlt_le_dec q (inject_Z n)) as [Hlt|Hge];
    [|now apply round_half_even_ge].
  assert (Qfloor q = n - 1) as E.
  { pose proof (floor_lt q n Hlt).
    assert (inject_Z (n - 1) <= q)%Q as Hle by (rewrite inject_Z_pred; lra).
    apply Qfloor_resp_le in Hle. rewrite Qfloor_Z in Hle. lia. }
  unfold Float.round_half_even. rewrite E.
  assert (Z.even (n - 1) = false) as ->.
  { rewrite Z.even_sub, Heven. reflexivity. }
  destruct (q - inject_Z (n - 1) ?= 1 # 2)%Q eqn:C; try lia.
  apply (proj2 (Qlt_alt _ _)) in C. rewrite inject_Z_pred in C. lra.
Qed.

(** *** Powers of two *)

Lemma two_nonzero : ~ (2 == 0)%Q.
Proof. discriminate. Qed.

Lemma pow2_pos e : (0 < 2 ^ e)%Q.
Proof. now apply Qpower_0_lt. Qed.

Lemma pow2_plus a b : (2 ^ (a + b) == 2 ^ a * 2 ^ b)%Q.
Proof. apply Qpower_plus, two_nonzero. Qed.

Lemma pow2_succ a : (2 ^ (a + 1) == 2 * 2 ^ a)%Q.
Proof. rewrite pow2_plus. change (2 ^ 1)%Q with 2%Q. ring. Qed.

Lemma pow2_le a b : a <= b -> (2 ^ a <= 2 ^ b)%Q.
Proof. intros H. apply Qpower_le_compat_l; [assumption | lra]. Qed.

Lemma pow2_inject n : 0 <= n -> (inject_Z (2 ^ n) == 2 ^ n)%Q.
Proof. intros H. now rewrite Zpower_Qpower. Qed.

(** [log2_floor] is the integer part of the binary logarithm. *)
Lemma log2_floor_spec q :
  (0 < q)%Q ->
  (2 ^ Float.log2_floor q <= q < 2 ^ (Float.log2_floor q + 1))%Q.
Proof.
  intros Hq. unfold Float.log2_floor.
  set (a := Z.log2 (Qnum q)). set (b := Z.log2 (Z.pos (Qden q))).
  assert (0 < Qnum q) as Hn.
  { destruct q as [n d]. unfold Qlt in Hq. simpl in *. lia. }
  destruct (Z.log2_spec (Qnum q) Hn) as [Ha1 Ha2]. fold a in Ha1, Ha2.
  destruct (Z.log2_spec (Z.pos (Qden q)) eq_refl) as [Hb1 Hb2].
  fold b in Hb1, Hb2.
  pose proof (Z.log2_nonneg (Qnum q)) as Ha0. fold a in Ha0.
  pose proof (Z.log2_nonneg (Z.pos (Qden q))) as Hb0. fold b in Hb0.
  rewrite Zle_Qle in Ha1, Hb1. rewrite Zlt_Qlt in Ha2, Hb2.
  rewrite pow2_inject in Ha1, Hb1 by assumption.
  replace (Z.succ a) with (a + 1) in Ha2 by lia.
  replace (Z.succ b) with (b + 1) in Hb2 by lia.
  rewrite pow2_inject, pow2_succ in Ha2, Hb2 by lia.
  assert (q * inject_Z (Z.pos (Qden q)) == inject_Z (Qnum q))%Q as Hqd.
  { destruct q as [n d]. unfold Qeq. simpl. lia. }
  assert (2 ^ (a - b) * 2 ^ b == 2 ^ a)%Q as Hk.
  { rewrite <- pow2_plus. now replace (a - b + b) with a by lia. }
  pose proof (pow2_pos (a - b)) as HK. pose proof (pow2_pos a) as HA.
  pose proof (pow2_pos b) as HB.
  set (K := (2 ^ (a - b))%Q) in *. set (A := (2 ^ a)%Q) in *.
  set (B := (2 ^ b)%Q) in *.
  set (n := inject_Z (Qnum q)) in *. set (d := inject_Z (Z.pos (Qden q))) in *.
  destruct (Qle_bool K q) eqn:E.
  - apply Qle_bool_iff in E. split; [assumption|].
    rewrite pow2_succ. fold K.
    destruct (Qlt_le_dec q (2 * K)) as [|Hge]; [assumption|]. exfalso.
    assert (2 * K * B <= q * d)%Q by nra. nra.
  - assert (q < K)%Q as Hlt.
    { destruct (Qlt_le_dec q K) as [|Hge]; [assumption|].
      apply Qle_bool_iff in Hge. congruence. }
    replace (a - b - 1 + 1) with (a - b) by lia. split; [|assumption].
    assert (2 * 2 ^ (a - b - 1) == K)%Q as Hhalf.
    { rewrite <- pow2_succ. now replace (a - b - 1 + 1) with (a - b) by lia. }
    pose proof (pow2_pos (a - b - 1)) as HH.
    set (H := (2 ^ (a - b - 1))%Q) in *.
    destruct (Qlt_le_dec q H) as [Hbad|]; [|assumption]. exfalso.
    assert (q * d < H * (2 * B))%Q by nra. nra.
Qed.

(** *** The exponent *)

Lemma exponent_upper q :
  (0 < q)%Q -> (q < 2 ^ 53 * 2 ^ Float.exponent q)%Q.
Proof.
  intros Hq. rewrite <- pow2_plus.
  destruct (log2_floor_spec q Hq) as [_ Hlt].
  eapply Qlt_le_trans; [exact Hlt|]. apply pow2_le.
  unfold Float.exponent. lia.
Qed.

Lemma exponent_lower q :
  (0 < q)%Q -> -1074 < Float.exponent q ->
  (2 ^ 52 * 2 ^ Float.exponent q <= q)%Q.
Proof.
  intros Hq He. rewrite <- pow2_plus.
  destruct (log2_floor_spec q Hq) as [Hle _].
  eapply Qle_trans; [|exact Hle]. apply pow2_le.
  unfold Float.exponent in *. lia.
Qed.

(** The exponent is the one of the binade [2^l <= q < 2^(l+1)]. *)
Lemma exponent_binade q l :
  (2 ^ l <= q < 2 ^ (l + 1))%Q -> Float.exponent q = Z.max (-1074) (l - 52).
Proof.
  intros [Hle Hlt].
  assert (0 < q)%Q as Hq by (pose proof (pow2_pos l); lra).
  destruct (log2_floor_spec q Hq) as [Hle' Hlt'].
  assert (Float.log2_floor q = l) as E; [|unfold Float.exponent; now rewrite E].
  assert (l < Float.log2_floor q + 1).
  { apply (Qpower_lt_compat_l_inv 2); [|lra]. lra. }
  assert (Float.log2_floor q < l + 1).
  { apply (Qpower_lt_compat_l_inv 2); [|lra]. lra. }
  lia.
Qed.

Lemma div_pow2 q e : (q / 2 ^ e * 2 ^ e == q)%Q.
Proof. field. apply Qpower_not_0, two_nonzero. Qed.

Lemma round_positive_nonneg q : (0 < q)%Q -> (0 <= Float.round_positive q)%Q.
Proof.
  intros Hq. unfold Float.round_positive.
  pose proof (pow2_pos (Float.exponent q)) as He.
  assert (0 <= Float.round_half_even (q / 2 ^ Float.exponent q)) as Hm.
  { apply round_half_even_ge. apply Qle_shift_div_l; [assumption|].
    change (inject_Z 0) with 0%Q. lra. }
  rewrite Zle_Qle in Hm. change (inject_Z 0) with 0%Q in Hm. nra.
Qed.

(** Rounding does not cross an integer below 2^53. *)
Lemma round_positive_le_int q c :
  (0 < q)%Q -> (q <= inject_Z c)%Q -> c < 2 ^ 53 ->
  (Float.round_positive q <= inject_Z c)%Q.
Proof.
  intros Hq Hc Hsmall. unfold Float.round_positive.
  set (e := Float.exponent q).
  assert (e <= 0) as He.
  { destruct (log2_floor_spec q Hq) as [Hle _].
    assert (Float.log2_floor q < 53).
    { apply (Qpower_lt_compat_l_inv 2); [|lra].
      eapply Qle_lt_trans; [exact Hle|]. eapply Qle_lt_trans; [exact Hc|].
      rewrite <- pow2_inject by lia. now rewrite <- Zlt_Qlt. }
    unfold e, Float.exponent. lia. }
  pose proof (pow2_pos e) as Hpe.
  assert (inject_Z (c * 2 ^ (- e)) * 2 ^ e == inject_Z c)%Q as Hscale.
  { rewrite inject_Z_mult, pow2_inject by lia.
    rewrite <- Qmult_assoc, <- pow2_plus.
    replace (- e + e) with 0 by lia. change (2 ^ 0)%Q with 1%Q. ring. }
  assert (Float.round_half_even (q / 2 ^ e) <= c * 2 ^ (- e)) as Hm.
  { apply round_half_even_le. apply Qle_shift_div_r; [assumption|].
    rewrite Hscale. assumption. }
  rewrite Zle_Qle in Hm. rewrite <- Hscale.
  apply Qmult_le_compat_r; [assumption | lra].
Qed.

(** *** Where rounding leaves the range *)

Lemma round_positive_overflow q :
  (0 < q)%Q ->
  (2 ^ 1024 <= Float.round_positive q)%Q <-> (overflow_threshold <= q)%Q.
Proof.
  intros Hq. unfold overflow_threshold.
  destruct (log2_floor_spec q Hq) as [Hlo Hhi].
  set (l := Float.log2_floor q) in *.
  pose proof (exponent_binade q l (conj Hlo Hhi)) as He.
  unfold Float.round_positive. rewrite He. clear He.
  assert (2 ^ 1024 == 2 ^ 53 * 2 ^ 971)%Q as E1024 by (now rewrite <- pow2_plus).
  assert (2 ^ 970 == (1 # 2) * 2 ^ 971)%Q as E970.
  { change 971 with (970 + 1). rewrite pow2_succ. ring. }
  assert (2 ^ 1023 == 2 ^ 52 * 2 ^ 971)%Q as E1023 by (now rewrite <- pow2_plus).
  pose proof (pow2_pos 971) as H971.
  destruct (Z.lt_trichotomy l 1023) as [Hl|[Hl|Hl]].
  - (* below the last binade: the result is at most 2^1023 *)
    set (e := Z.max (-1074) (l - 52)).
    assert (e <= 970) as He by (unfold e; lia).
    assert (l + 1 <= e + 53) as Hle by (unfold e; lia).
    pose proof (pow2_pos e) as Hpe.
    assert (q < 2 ^ 1023)%Q as Hq1023.
    { eapply Qlt_le_trans; [exact Hhi|]. apply pow2_le. lia. }
    assert (inject_Z (Float.round_half_even (q / 2 ^ e)) * 2 ^ e <= 2 ^ 1023)%Q
      as Hr.
    { assert (Float.round_half_even (q / 2 ^ e) <= 2 ^ 53) as Hm.
      { apply round_half_even_le. apply Qle_shift_div_r; [assumption|].
        rewrite pow2_inject, <- pow2_plus by lia.
        apply Qlt_le_weak. eapply Qlt_le_trans; [exact Hhi|].
        apply pow2_le. lia. }
      rewrite Zle_Qle, pow2_inject in Hm by lia.
      apply Qle_trans with (2 ^ 53 * 2 ^ e)%Q.
      - apply Qmult_le_compat_r; [assumption | lra].
      - rewrite <- pow2_plus. apply pow2_le. lia. }
    assert (2 ^ 1023 < 2 ^ 1024)%Q as Hlt by (apply Qpower_lt_compat_l; [lia|lra]).
    split; [lra|]. intros Hge. exfalso.
    assert (2 ^ 1023 <= 2 ^ 1024 - 2 ^ 970)%Q; [|lra].
    rewrite E1024, E970, E1023.
    assert ((2 ^ 52 + (1 # 2)) <= 2 ^ 53)%Q by (vm_compute; discriminate).
    nra.
  - (* the last binade *)
    subst l. rewrite Hl in *. change (Z.max (-1074) (1023 - 52)) with 971.
    assert (inject_Z (2 ^ 53) == 2 ^ 53)%Q as E53 by (now apply pow2_inject).
    split.
    + intros Hge. destruct (Qlt_le_dec q (2 ^ 1024 - 2 ^ 970)) as [Hlt|];
        [|assumption]. exfalso.
      assert (Float.round_half_even (q / 2 ^ 971) <= 2 ^ 53 - 1) as Hm.
      { apply round_half_even_below. apply Qlt_shift_div_r; [assumption|].
        rewrite E53. rewrite E1024, E970 in Hlt. nra. }
      rewrite Zle_Qle, inject_Z_pred, E53 in Hm.
      rewrite E1024 in Hge. nra.
    + intros Hge.
      assert (2 ^ 53 <= Float.round_half_even (q / 2 ^ 971)) as Hm.
      { apply round_half_even_above; [|reflexivity].
        apply Qle_shift_div_l; [assumption|].
        rewrite E53. rewrite E1024, E970 in Hge. nra. }
      rewrite Zle_Qle, E53 in Hm. rewrite E1024. nra.
  - (* beyond the range *)
    set (e := Z.max (-1074) (l - 52)).
    assert (e = l - 52) as Ee by (unfold e; lia).
    pose proof (pow2_pos e) as Hpe.
    assert (2 ^ 1024 <= q)%Q as Hbig.
    { eapply Qle_trans; [|exact Hlo]. apply pow2_le. lia. }
    pose proof (pow2_pos 970). split; [intros _; lra|]. intros _.
    assert (2 ^ 52 <= Float.round_half_even (q / 2 ^ e)) as Hm.
    { apply round_half_even_ge. apply Qle_shift_div_l; [assumption|].
      rewrite pow2_inject, <- pow2_plus by lia. rewrite Ee.
      now replace (52 + (l - 52)) with l by lia. }
    rewrite Zle_Qle, pow2_inject in Hm by lia.
    apply Qle_trans with (2 ^ 52 * 2 ^ e)%Q.
    + rewrite <- pow2_plus. apply pow2_le. lia.
    + apply Qmult_le_compat_r; [assumption | lra].
Qed.

(** *** Rounding a signed rational *)

Lemma round_compat q q' : (q == q')%Q -> Float.round q = Float.round q'.
Proof.
  intros E. unfold Float.round. now rewrite (Qred_complete _ _ E).
Qed.

Lemma num_sign q :
  match Qnum q with
  | 0 => (q == 0)%Q
  | Z.pos _ => (0 < q)%Q
  | Z.neg _ => (q < 0)%Q
  end.
Proof. destruct q as [[|n|n] d]; unfold Qeq, Qlt; simpl; lia. Qed.

Lemma round_cases q :
  ((q == 0)%Q /\ Float.round q = 0%Q)
  \/ ((0 < q)%Q /\ (Float.round q == Float.round_positive (Qred q))%Q)
  \/ ((q < 0)%Q /\ (Float.round q == - Float.round_positive (- Qred q))%Q).
Proof.
  unfold Float.round. pose proof (num_sign (Qred q)) as Hs.
  pose proof (Qred_correct q) as Hr.
  destruct (Qnum (Qred q)).
  - left. split; [lra | reflexivity].
  - right. left. split; [lra | apply Qred_correct].
  - right. right. split; [lra | apply Qred_correct].
Qed.

Lemma round_nonneg q : (0 <= q)%Q -> (0 <= Float.round q)%Q.
Proof.
  intros Hq. destruct (round_cases q) as [[_ ->]|[[Hpos ->]|[Hneg _]]];
    [lra | | lra].
  apply round_positive_nonneg. pose proof (Qred_correct q). lra.
Qed.

Lemma round_le_int q c :
  (0 <= q)%Q -> (q <= inject_Z c)%Q -> c < 2 ^ 53 ->
  (Float.round q <= inject_Z c)%Q.
Proof.
  intros Hq Hc Hsmall.
  destruct (round_cases q) as [[E ->]|[[Hpos ->]|[Hneg _]]]; [lra | | lra].
  pose proof (Qred_correct q).
  apply round_positive_le_int; [lra | lra | assumption].
Qed.

Lemma round_overflow q :
  (2 ^ 1024 <= Qabs (Float.round q))%Q <-> (overflow_threshold <= Qabs q)%Q.
Proof.
  assert (0 < overflow_threshold)%Q as Hthr by (vm_compute; reflexivity).
  pose proof (pow2_pos 1024) as Hlim. pose proof (Qred_correct q) as Hr.
  destruct (round_cases q) as [[E ->]|[[Hpos ->]|[Hneg ->]]].
  - rewrite E. change (Qabs 0) with 0%Q. split; intros; lra.
  - rewrite (Qabs_pos q) by lra.
    rewrite Qabs_pos by (apply round_positive_nonneg; lra).
    rewrite round_positive_overflow by lra. now rewrite Hr.
  - rewrite (Qabs_neg q) by lra. rewrite Qabs_opp.
    rewrite Qabs_pos by (apply round_positive_nonneg; lra).
    rewrite round_positive_overflow by lra. now rewrite Hr.
Qed.

(** *** Conversions and operations *)

Lemma of_Q_compat q q' : (q == q')%Q -> Float.of_Q q = Float.of_Q q'.
Proof.
  intros E. unfold Float.of_Q. rewrite (round_compat _ _ E).
  destruct (Qle_bool _ _); [|reflexivity]. f_equal.
  pose proof (num_sign q) as H. pose proof (num_sign q') as H'.
  destruct (Qnum q), (Qnum q'); try reflexivity; exfalso; lra.
Qed.

Lemma of_Q_infinite q :
  (exists negative, Float.of_Q q = Float.Infinity negative)
  <-> (overflow_threshold <= Qabs q)%Q.
Proof.
  rewrite <- round_overflow. unfold Float.of_Q, Float.limit.
  destruct (Qle_bool (2 ^ 1024) (Qabs (Float.round q))) eqn:E.
  - apply Qle_bool_iff in E. split; [intros _; assumption | eauto].
  - split; [intros [s [=]]|]. intros H. apply Qle_bool_iff in H. congruence.
Qed.

Lemma of_Q_bounded q c :
  (0 <= q)%Q -> (q <= inject_Z c)%Q -> c < 2 ^ 53 ->
  Float.of_Q q = Float.Finite (Float.round q)
  /\ (0 <= Float.round q <= inject_Z c)%Q.
Proof.
  intros Hq Hc Hsmall.
  pose proof (round_nonneg q Hq) as H0.
  pose proof (round_le_int q c Hq Hc Hsmall) as H1.
  split; [|now split]. unfold Float.of_Q, Float.limit.
  destruct (Qle_bool (2 ^ 1024) (Qabs (Float.round q))) eqn:E; [|reflexivity].
  exfalso. apply Qle_bool_iff in E. rewrite Qabs_pos in E by assumption.
  assert (inject_Z c < 2 ^ 1024)%Q; [|lra].
  apply Qlt_le_trans with (inject_Z (2 ^ 53)); [now rewrite <- Zlt_Qlt|].
  rewrite pow2_inject by lia. apply pow2_le. lia.
Qed.

(** The sum of two values between 0 and small integer bounds stays between
    0 and the sum of the bounds. *)
Lemma add_bounded a b A B :
  (0 <= a <= inject_Z A)%Q -> (0 <= b <= inject_Z B)%Q -> A + B < 2 ^ 53 ->
  exists c, Float.add (Float.Finite a) (Float.Finite b) = Float.Finite c
            /\ (0 <= c <= inject_Z (A + B))%Q.
Proof.
  intros Ha Hb Hsmall. simpl.
  destruct (of_Q_bounded (a + b) (A + B)) as [-> Hc];
    [lra | rewrite inject_Z_plus; lra | assumption | eauto].
Qed.

Lemma mul_bounded a w :
  (0 <= a <= 1)%Q -> 0 <= w < 2 ^ 53 ->
  exists c, Float.mul (Float.Finite a) (Float.Finite (inject_Z w)) = Float.Finite c
            /\ (0 <= c <= inject_Z w)%Q
            /\ ((a == 1)%Q -> c = Float.round (inject_Z w)).
Proof.
  intros Ha Hw. simpl.
  assert (0 <= inject_Z w)%Q as Hw0
    by (change 0%Q with (inject_Z 0); rewrite <- Zle_Qle; lia).
  destruct (of_Q_bounded (a * inject_Z w) w) as [-> Hc];
    [nra | nra | lia |].
  eexists. split; [reflexivity|]. split; [assumption|].
  intros E. apply round_compat. rewrite E. ring.
Qed.

(** ** The terms of the resource score *)

(** The quotient of a positive value by a maximum that is not below it is a
    float between 0 and 1, and 1 when the value is the maximum. *)
Lemma int_true_div_unit v mx :
  0 < v <= mx ->
  exists r, int_true_div v mx = Returns (Float.Finite r)
            /\ (0 <= r <= 1)%Q /\ (v = mx -> r = 1%Q).
Proof.
  intros [Hv Hmx]. unfold int_true_div.
  destruct (Z.eqb_spec mx 0) as [->|_]; [lia|].
  assert (0 < inject_Z v)%Q as Hv'
    by (change 0%Q with (inject_Z 0); rewrite <- Zlt_Qlt; lia).
  assert (inject_Z v <= inject_Z mx)%Q as Hle by (now rewrite <- Zle_Qle).
  destruct (of_Q_bounded (inject_Z v / inject_Z mx) 1) as [-> Hb].
  - apply Qle_shift_div_l; lra.
  - apply Qle_shift_div_r; [lra|]. change (inject_Z 1) with 1%Q. lra.
  - reflexivity.
  - eexists. split; [reflexivity|]. split; [exact Hb|]. intros ->.
    transitivity (Float.round 1); [|reflexivity].
    apply round_compat. field. lra.
Qed.

Lemma normalise_spec field mx w :
  0 < w < 2 ^ 53 -> Float.round (inject_Z w) = inject_Z w ->
  (forall v, field = Some v -> 0 <= v <= mx) ->
  exists q, normalise field mx w = Returns (Float.Finite q)
            /\ (0 <= q <= inject_Z w)%Q
            /\ ((exists v, field = Some v /\ v = mx /\ 0 < v) -> q = inject_Z w)
            /\ (field = None \/ field = Some 0 -> q = 0%Q).
Proof.
  intros Hw Hexact Hb.
  assert (0 <= inject_Z w)%Q as Hw0
    by (change 0%Q with (inject_Z 0); rewrite <- Zle_Qle; lia).
  unfold normalise. destruct field as [v|].
  - destruct (Hb v eq_refl) as [H0 Hmx]. destruct (Z.eqb_spec v 0) as [->|Hv].
    + exists 0%Q. split; [reflexivity|]. split; [lra|]. split; [|reflexivity].
      intros (v' & [= <-] & _ & Hlt). lia.
    + destruct (int_true_div_unit v mx) as (r & -> & Hr & Hone); [lia|].
      cbn [bind]. unfold Float.of_Z.
      destruct (of_Q_bounded (inject_Z w) w) as [-> _]; [lra | lra | lia|].
      rewrite Hexact.
      destruct (mul_bounded r w Hr) as (c & -> & Hc & Hmax); [lia|].
      exists c. split; [reflexivity|]. split; [assumption|]. split.
      * intros (v' & [= <-] & -> & _). rewrite Hmax, Hexact; [reflexivity|].
        now rewrite Hone.
      * intros [[=]|[= ->]]. now contradiction Hv.
  - exists 0%Q. split; [reflexivity|]. split; [lra|]. split; [|reflexivity].
    intros (v & [=] & _).
Qed.

Lemma normalise_row rows row i w :
  nonneg_metrics rows -> In i metric_indices -> In row rows ->
  8 <= row_len row -> 0 < w < 2 ^ 53 ->
  Float.round (inject_Z w) = inject_Z w ->
  exists q,
    normalise (row_get row i) (max_or_1 (present_values i rows)) w
    = Returns (Float.Finite q)
    /\ (0 <= q <= inject_Z w)%Q
    /\ (holds_positive_max rows row i -> q = inject_Z w)
    /\ (contributes_nothing row i -> q = 0%Q).
Proof.
  intros Hnn Hi Hin Hlen Hw Hexact.
  destruct (normalise_spec (row_get row i) (max_or_1 (present_values i rows))
              w Hw Hexact) as (q & Hq & Hb & Hmax & Hzero).
  { intros v Hget. now apply (field_bounds rows row i v). }
  exists q. split; [assumption|]. split; [assumption|]. split; [|exact Hzero].
  assert (i < row_len row) as Hi' by (each_metric Hi; lia).
  intros (v & Hget & Hpos & Hall). apply Hmax. exists v. split; [assumption|].
  apply (holds_positive_max_iff rows row i v); auto.
  exists v. auto.
Qed.

(** The sum of the four terms, each between 0 and a small integer bound. *)
Lemma sum_bounded q3 q4 q6 q7 A3 A4 A6 A7 :
  (0 <= q3 <= inject_Z A3)%Q -> (0 <= q4 <= inject_Z A4)%Q ->
  (0 <= q6 <= inject_Z A6)%Q -> (0 <= q7 <= inject_Z A7)%Q ->
  A3 + A4 + A6 + A7 < 2 ^ 53 ->
  exists q,
    Float.add
      (Float.add (Float.add (Float.Finite q3) (Float.Finite q4)) (Float.Finite q6))
      (Float.Finite q7)
    = Float.Finite q
    /\ (0 <= q <= inject_Z (A3 + A4 + A6 + A7))%Q.
Proof.
  intros H3 H4 H6 H7 Hsmall.
  assert (0 <= A3 /\ 0 <= A4 /\ 0 <= A6 /\ 0 <= A7) as (P3 & P4 & P6 & P7).
  { repeat split; rewrite Zle_Qle; change (inject_Z 0) with 0%Q; lra. }
  destruct (add_bounded q3 q4 A3 A4 H3 H4) as (a & -> & Ha); [lia|].
  destruct (add_bounded a q6 (A3 + A4) A6 Ha H6) as (b & -> & Hb); [lia|].
  destruct (add_bounded b q7 (A3 + A4 + A6) A7 Hb H7) as (c & -> & Hc); [lia|].
  eauto.
Qed.

Lemma resource_score_spec rows row :
  nonneg_metrics rows -> In row rows -> 8 <= row_len row ->
  exists q,
    resource_score (max_values rows) row = Returns (Float.Finite q)
    /\ (0 <= q <= 100)%Q
    /\ ((forall i, In i metric_indices -> holds_positive_max rows row i) ->
        (q == 100)%Q)
    /\ (forall i, In i metric_indices -> contributes_nothing row i ->
          (q <= 100 - inject_Z (weight_of i))%Q).
Proof.
  intros Hnn Hin Hlen. unfold resource_score, max_values. simpl.
  destruct (normalise_row rows row 3 40 Hnn) as (q3 & -> & B3 & M3 & Z3);
    [simpl; tauto | assumption | assumption | lia | reflexivity |].
  destruct (normalise_row rows row 4 30 Hnn) as (q4 & -> & B4 & M4 & Z4);
    [simpl; tauto | assumption | assumption | lia | reflexivity |].
  destruct (normalise_row rows row 6 15 Hnn) as (q6 & -> & B6 & M6 & Z6);
    [simpl; tauto | assumption | assumption | lia | reflexivity |].
  destruct (normalise_row rows row 7 15 Hnn) as (q7 & -> & B7 & M7 & Z7);
    [simpl; tauto | assumption | assumption | lia | reflexivity |].
  cbn [bind].
  destruct (sum_bounded q3 q4 q6 q7 40 30 15 15 B3 B4 B6 B7) as (q & Hq & Hb);
    [lia|].
  exists q. split; [now rewrite Hq|]. split; [exact Hb|]. split.
  - intros Hall.
    rewrite M3, M4, M6, M7 in Hq by (apply Hall; simpl; tauto).
    vm_compute in Hq. injection Hq as <-. reflexivity.
  - intros i Hi Hnothing.
    assert (forall A3 A4 A6 A7,
               (0 <= q3 <= inject_Z A3)%Q -> (0 <= q4 <= inject_Z A4)%Q ->
               (0 <= q6 <= inject_Z A6)%Q -> (0 <= q7 <= inject_Z A7)%Q ->
               A3 + A4 + A6 + A7 < 2 ^ 53 ->
               (q <= inject_Z (A3 + A4 + A6 + A7))%Q) as Hsum.
    { intros A3 A4 A6 A7 H3 H4 H6 H7 Hsmall.
      destruct (sum_bounded q3 q4 q6 q7 A3 A4 A6 A7 H3 H4 H6 H7 Hsmall)
        as (q' & Hq' & Hb').
      rewrite Hq in Hq'. injection Hq' as <-. apply Hb'. }
    each_metric Hi.
    + rewrite (Z3 Hnothing) in *.
      apply (Hsum 0 30 15 15); try assumption; [split; apply Qle_refl | lia].
    + rewrite (Z4 Hnothing) in *.
      apply (Hsum 40 0 15 15); try assumption; [split; apply Qle_refl | lia].
    + rewrite (Z6 Hnothing) in *.
      apply (Hsum 40 30 0 15); try assumption; [split; apply Qle_refl | lia].
    + rewrite (Z7 Hnothing) in *.
      apply (Hsum 40 30 15 0); try assumption; [split; apply Qle_refl | lia].
Qed.

Lemma fold_score_row_raises mv rows e :
  fold_left (score_row mv) rows (Raises e) = Raises e.
Proof. induction rows as [|row rows IH]; simpl; auto. Qed.

(** Every entry of the score map is the initial one or the score of a row of
    at least 8 fields. *)
Lemma fold_score_row_lookup mv rows (m0 m : gmap string Float.float) :
  fold_left (score_row mv) rows (Returns m0) = Returns m ->
  forall qid s, m !! qid = Some s ->
    m0 !! qid = Some s
    \/ exists row, In row rows /\ query_id row = qid /\ 8 <= row_len row
                   /\ resource_score mv row = Returns s.
Proof.
  revert m0; induction rows as [|row rows IH]; intros m0 Hfold qid s Hs.
  - simpl in Hfold. injection Hfold as <-. now left.
  - simpl in Hfold. destruct (Z.ltb_spec (row_len row) 8) as [Hshort|Hlong].
    + destruct (IH _ Hfold qid s Hs) as [H0|(r & Hin & Hr)]; [now left|].
      right. exists r. split; [now right | assumption].
    + destruct (resource_score mv row) as [sc|e] eqn:Hsc; simpl in Hfold.
      * destruct (IH _ Hfold qid s Hs) as [H0|(r & Hin & Hr)].
        -- destruct (decide (query_id row = qid)) as [E|Hne].
           ++ rewrite E, lookup_insert_eq in H0. injection H0 as <-.
              right. exists row. repeat split; auto. now left.
           ++ rewrite lookup_insert_ne in H0 by assumption. now left.
        -- right. exists r. split; [now right | assumption].
      * rewrite fold_score_row_raises in Hfold. discriminate.
Qed.

(** When every row of at least 8 fields can be scored, the loop completes,
    and the identifier of each such row is in the map. *)
Lemma fold_score_row_total mv rows (m0 : gmap string Float.float) :
  (forall row, In row rows -> 8 <= row_len row ->
               exists s, resource_score mv row = Returns s) ->
  exists m, fold_left (score_row mv) rows (Returns m0) = Returns m
            /\ (forall k, is_Some (m0 !! k) -> is_Some (m !! k))
            /\ (forall row, In row rows -> 8 <= row_len row ->
                            is_Some (m !! query_id row)).
Proof.
  revert m0; induction rows as [|row rows IH]; intros m0 Hall.
  - exists m0. simpl. repeat split; auto. intros row [].
  - simpl. destruct (Z.ltb_spec (row_len row) 8) as [Hshort|Hlong].
    + destruct (IH m0) as (m & Hm & Hkeep & Hrows);
        [intros r Hr; apply Hall; now right|].
      exists m. repeat split; auto.
      intros r [<-|Hr] Hlen; [lia | now apply Hrows].
    + destruct (Hall row (or_introl eq_refl) Hlong) as (s & ->). simpl.
      destruct (IH (<[query_id row := s]> m0)) as (m & Hm & Hkeep & Hrows);
        [intros r Hr; apply Hall; now right|].
      exists m. split; [assumption|]. split.
      * intros k Hk. apply Hkeep.
        destruct (decide (query_id row = k)) as [<-|Hne];
          [rewrite lookup_insert_eq; eauto | now rewrite lookup_insert_ne].
      * intros r [<-|Hr] Hlen; [|now apply Hrows].
        apply Hkeep. rewrite lookup_insert_eq. eauto.
Qed.

Lemma analyze_query_resource_metrics_fold rows :
  analyze_query_resource_metrics (Some rows)
  = fold_left (score_row (max_values rows)) rows (Returns ∅).
Proof. destruct rows; reflexivity. Qed.


(** C4, as the code has it: with non-negative metrics every emitted score is
    the score of a row of the batch, a finite float in [0, 100]; a row
    scores exactly 100 when it holds, on each of the four metrics, a batch
    maximum that is not 0; and a row one of whose metrics is NULL or 0
    scores at most 100 less the weight of that metric. *)
Theorem resource_scores_bounded rows :
  nonneg_metrics rows ->
  exists scores,
    analyze_query_resource_metrics (Some rows) = Returns scores
    /\ (forall qid s, scores !! qid = Some s ->
          exists q,
            s = Float.Finite q /\ (0 <= q <= 100)%Q
            /\ exists row, In row rows /\ query_id row = qid /\ 8 <= row_len row
                           /\ resource_score (max_values rows) row = Returns s)
    /\ (forall row, In row rows -> 8 <= row_len row ->
          exists q,
            resource_score (max_values rows) row = Returns (Float.Finite q)
            /\ ((forall i, In i metric_indices -> holds_positive_max rows row i) ->
                (q == 100)%Q)
            /\ (forall i, In i metric_indices -> contributes_nothing row i ->
                  (q <= 100 - inject_Z (weight_of i))%Q)).
Proof.
  intros Hnn. rewrite analyze_query_resource_metrics_fold.
  destruct (fold_score_row_total (max_values rows) rows ∅) as (m & Hm & _ & _).
  { intros row Hin Hlen.
    destruct (resource_score_spec rows row Hnn Hin Hlen) as (s & Hs & _). eauto. }
  exists m. split; [assumption|]. split.
  - intros qid s Hs.
    destruct (fold_score_row_lookup _ _ _ _ Hm qid s Hs)
      as [H0|(row & Hin & Hid & Hlen & Hsc)].
    { rewrite lookup_empty in H0. discriminate. }
    destruct (resource_score_spec rows row Hnn Hin Hlen) as (q & Hq & Hb & _).
    rewrite Hsc in Hq. injection Hq as ->. exists q.
    split; [reflexivity|]. split; [assumption|]. exists row. auto.
  - intros row Hin Hlen.
    destruct (resource_score_spec rows row Hnn Hin Hlen)
      as (q & Hq & _ & Hmax & Hzero).
    exists q. auto.
Qed.

Lemma zero_input_batch_nonneg : nonneg_metrics zero_input_batch.
Proof.
  intros i v Hi Hv.
  each_metric Hi; simpl in Hv; destruct Hv as [<-|[<-|[]]]; lia.
Qed.


Example negative_metric_raises :
  analyze_query_resource_metrics
    (Some [mkRow "q1" "SELECT 1" "2024-01-01 00:00:00"
             [Some (-5); Some 1; Some 1; Some 1; Some 1; Some 1];
           mkRow "q2" "SELECT 2" "2024-01-01 00:00:01"
             [Some 0; Some 1; Some 1; Some 1; Some 1; Some 1]])
  = Raises ZeroDivisionError.
Proof. vm_compute. reflexivity. Qed.

Example short_row_with_metrics_is_skipped :
  analyze_query_resource_metrics
    (Some [mkRow "q1" "SELECT 1" "2024-01-01 00:00:00" [Some 10; Some 5]])
  = Returns ∅.
Proof. reflexivity. Qed.


Lemma resource_scores_bounded_witness :
  exists scores,
    analyze_query_resource_metrics (Some zero_input_batch) = Returns scores
    /\ forall qid s, scores !! qid = Some s ->
         exists q, s = Float.Finite q /\ (0 <= q <= 100)%Q.
Proof.
  destruct (resource_scores_bounded zero_input_batch zero_input_batch_nonneg)
    as (scores & Hres & Hemitted & _).
  exists scores. split; [assumption|].
  intros qid s Hs. destruct (Hemitted qid s Hs) as (q & Hq & Hb & _). eauto.
Defined.

(** When the batch maximum of a metric is 0, the row that holds the maximum
    of all four metrics does not score 100: the first row of the batch
    scores 85. *)
Lemma max_on_all_metrics_scores_85 :
  (forall i, In i metric_indices -> holds_max zero_input_batch heavy_row i)
  /\ exists scores s,
       analyze_query_resource_metrics (Some zero_input_batch) = Returns scores
       /\ scores !! "q1" = Some (Float.Finite s)
       /\ (s == 85)%Q /\ ~ (s == 100)%Q.
Proof.
  split.
  - intros i [<-|[<-|[<-|[<-|[]]]]]; eexists; (split; [reflexivity|]);
      simpl; intros w [<-|[<-|[]]]; lia.
  - eexists. eexists. split; [vm_compute; reflexivity|].
    split; [vm_compute; reflexivity|]. split; [reflexivity|].
    intros E. vm_compute in E. discriminate.
Qed.

(** A row just under the maxima is not strictly below 100: the scores are
    floats, and the quotient of 2^60 - 1 by 2^60 rounds to 1, so a row that
    holds no maximum scores exactly 100. *)
Example near_maximal_row_scores_100 :
  let top := 2 ^ 60 in
  let rows :=
    [mkRow "q1" "SELECT 1" "2024-01-01 00:00:00"
       [Some top; Some top; None; Some top; Some top];
     mkRow "q2" "SELECT 2" "2024-01-01 00:00:01"
       [Some (top - 1); Some (top - 1); None; Some (top - 1); Some (top - 1)]] in
  (forall i, In i metric_indices ->
      ~ holds_max rows
          (mkRow "q2" "SELECT 2" "2024-01-01 00:00:01"
             [Some (top - 1); Some (top - 1); None; Some (top - 1);
              Some (top - 1)]) i)
  /\ exists scores,
       analyze_query_resource_metrics (Some rows) = Returns scores
       /\ scores !! "q2" = Some (Float.Finite 100).
Proof.
  intros top rows. split.
  - intros i Hi (v & Hget & Hmax).
    each_metric Hi; simpl in Hget; injection Hget as <-;
      specialize (Hmax top (or_introl eq_refl)); unfold top in Hmax; lia.
  - eexists. split; vm_compute; reflexivity.
Qed.

(** C4, as stated, fails both ways: a row that holds the maximum of all four
    metrics scores 85 when one of the maxima is 0, and a row that holds none
    of the maxima scores exactly 100 when it is close enough to them. *)
Lemma score_100_claim_fails_both_ways :
  ((forall i, In i metric_indices -> holds_max zero_input_batch heavy_row i)
   /\ exists scores s,
        analyze_query_resource_metrics (Some zero_input_batch) = Returns scores
        /\ scores !! "q1" = Some (Float.Finite s)
        /\ (s == 85)%Q /\ ~ (s == 100)%Q)
  /\ (let top := 2 ^ 60 in
      let rows :=
        [mkRow "q1" "SELECT 1" "2024-01-01 00:00:00"
           [Some top; Some top; None; Some top; Some top];
         mkRow "q2" "SELECT 2" "2024-01-01 00:00:01"
           [Some (top - 1); Some (top - 1); None; Some (top - 1); Some (top - 1)]] in
      (forall i, In i metric_indices ->
          ~ holds_max rows
              (mkRow "q2" "SELECT 2" "2024-01-01 00:00:01"
                 [Some (top - 1); Some (top - 1); None; Some (top - 1);
                  Some (top - 1)]) i)
      /\ exists scores,
           analyze_query_resource_metrics (Some rows) = Returns scores
           /\ scores !! "q2" = Some (Float.Finite 100)).
Proof.
  split; [exact max_on_all_metrics_scores_85 | exact near_maximal_row_scores_100].
Qed.

(** ** [analyze_query_performance] and the performance bonus *)

Section PerformanceKeys.
Variable parse_one : string -> option Expression.
Variable cursor : Cursor.
Variable view : string.

Lemma ensure_table_other table (pm : gmap string PerfEntry) :
  table <> view -> ensure_table table pm !! view = pm !! view.
Proof.
  intros Hne. unfold ensure_table.
  destruct (pm !! table); [reflexivity | now rewrite lookup_insert_ne].
Qed.

Lemma ensure_table_no_column_time table pm :
  no_column_time view pm -> no_column_time view (ensure_table table pm).
Proof.
  intros Hpm e. unfold ensure_table. destruct (pm !! table) eqn:E; [apply Hpm|].
  destruct (decide (table = view)) as [->|Hne].
  - rewrite lookup_insert_eq. now intros [= <-].
  - rewrite lookup_insert_ne by assumption. apply Hpm.
Qed.

Lemma fold_alter_other table columns t (pm : gmap string PerfEntry) :
  table <> view ->
  fold_left (fun pm col => alter (add_column_time col t) table pm) columns pm !! view
  = pm !! view.
Proof.
  intros Hne. revert pm; induction columns as [|col columns IH]; intros pm;
    simpl; [reflexivity|].
  now rewrite IH, lookup_alter_ne.
Qed.

(** A query that does not name [view] leaves the entry of [view] alone. *)
Lemma correlate_other tables columns t pm :
  ~ In view tables ->
  correlate tables columns (Some t) pm !! view = pm !! view.
Proof.
  revert pm; induction tables as [|table tables IH]; intros pm Hnot; simpl;
    [reflexivity|].
  assert (table <> view) as Hne by (intros ->; apply Hnot; now left).
  rewrite IH by (intros Hin; apply Hnot; now right).
  rewrite fold_alter_other, !lookup_alter_ne, ensure_table_other by assumption.
  reflexivity.
Qed.

Lemma correlate_null tables columns pm :
  no_column_time view pm -> no_column_time view (correlate tables columns None pm).
Proof.
  destruct tables as [|table tables]; simpl; [auto|].
  apply ensure_table_no_column_time.
Qed.

Lemma correlate_row_no_column_time pm row :
  (forall t parsed,
      execution_time_ms cursor (query_id row) = Row (Some t) ->
      parse_one (query row) = Some parsed ->
      ~ In view (List.map name (find_all exp.Table parsed))) ->
  no_column_time view pm -> no_column_time view (correlate_row parse_one cursor pm row).
Proof.
  intros Hrow Hpm. unfold correlate_row.
  destruct (execution_time_ms cursor (query_id row)) as [| |[t|]]; try assumption;
    destruct (parse_one (query row)) as [parsed|]; try assumption.
  - intros e. rewrite correlate_other by (now apply (Hrow t parsed)). apply Hpm.
  - now apply correlate_null.
Qed.

Lemma fold_correlate_row_no_column_time rows pm :
  (forall row t parsed,
      In row rows ->
      execution_time_ms cursor (query_id row) = Row (Some t) ->
      parse_one (query row) = Some parsed ->
      ~ In view (List.map name (find_all exp.Table parsed))) ->
  no_column_time view pm ->
  no_column_time view (fold_left (correlate_row parse_one cursor) rows pm).
Proof.
  revert pm; induction rows as [|row rows IH]; intros pm Hrows Hpm; simpl;
    [assumption|].
  apply IH.
  - intros r t parsed Hin. apply Hrows. now right.
  - apply correlate_row_no_column_time; [|assumption].
    intros t parsed. apply Hrows. now left.
Qed.

Lemma no_column_time_bonus pm column :
  no_column_time view pm -> performance_bonus pm view column = 0%Q.
Proof.
  intros Hpm. unfold performance_bonus.
  destruct (pm !! view) as [e|] eqn:E; [|reflexivity].
  now rewrite (Hpm e E), lookup_empty.
Qed.
Lemma alter_keys (f : PerfEntry -> PerfEntry) table (pm : gmap string PerfEntry) k :
  is_Some (alter f table pm !! k) -> is_Some (pm !! k).
Proof.
  destruct (decide (table = k)) as [->|Hne].
  - rewrite lookup_alter_eq. intros [e He].
    destruct (pm !! k); [eauto | discriminate].
  - now rewrite lookup_alter_ne.
Qed.

Lemma ensure_table_keys table (pm : gmap string PerfEntry) k :
  is_Some (ensure_table table pm !! k) -> k = table \/ is_Some (pm !! k).
Proof.
  unfold ensure_table. destruct (pm !! table); [now right|].
  destruct (decide (table = k)) as [->|Hne]; [now left|].
  rewrite lookup_insert_ne by assumption. now right.
Qed.

Lemma fold_alter_keys table columns t (pm : gmap string PerfEntry) k :
  is_Some
    (fold_left (fun pm col => alter (add_column_time col t) table pm) columns pm
       !! k) ->
  is_Some (pm !! k).
Proof.
  revert pm; induction columns as [|col columns IH]; intros pm; simpl; [auto|].
  intros H. apply IH in H. now apply alter_keys in H.
Qed.

(** The keys [correlate] adds are among the table names of the query. *)
Lemma correlate_keys tables columns result0 pm k :
  is_Some (correlate tables columns result0 pm !! k) ->
  In k tables \/ is_Some (pm !! k).
Proof.
  revert pm; induction tables as [|table tables IH]; intros pm; simpl;
    [now right|].
  destruct result0 as [t|].
  - intros H. destruct (IH _ H) as [Hin|Hk]; [left; now right|].
    apply fold_alter_keys, alter_keys, alter_keys, ensure_table_keys in Hk.
    destruct Hk as [->|Hk]; [left; now left | now right].
  - intros H. apply ensure_table_keys in H.
    destruct H as [->|Hk]; [left; now left | now right].
Qed.

(** Every key of the performance metrics is a table name parsed from the
    text of a log row for which the cursor returned a row. *)
Lemma fold_correlate_row_keys rows pm k :
  is_Some (fold_left (correlate_row parse_one cursor) rows pm !! k) ->
  is_Some (pm !! k)
  \/ exists row result0 parsed,
       In row rows
       /\ execution_time_ms cursor (query_id row) = Row result0
       /\ parse_one (query row) = Some parsed
       /\ In k (List.map name (find_all exp.Table parsed)).
Proof.
  revert pm; induction rows as [|row rows IH]; intros pm; simpl; [now left|].
  intros H. destruct (IH _ H) as [Hk|(r & r0 & parsed & Hin & Hr)].
  - unfold correlate_row in Hk.
    destruct (execution_time_ms cursor (query_id row)) as [| |result0] eqn:Hfetch;
      try (now left).
    destruct (parse_one (query row)) as [parsed|] eqn:Hparse; [|now left].
    apply correlate_keys in Hk. destruct Hk as [Hin|Hk]; [|now left].
    right. exists row, result0, parsed. repeat split; auto; now left.
  - right. exists r, r0, parsed. split; [now right | assumption].
Qed.
End PerformanceKeys.

(** C3: the performance metrics are keyed by the table names parsed from the
    logged queries, and the score looks them up under the name of the view.
    For a view whose name is not a parsed table name of any log row that was
    fetched and parsed, the performance bonus is 0 and the score is the base
    weight plus the cardinality bonus. *)
Theorem performance_bonus_needs_matching_table_name
    parse_one cursor view_data query_log_data view column cs gs :
  let performance_metrics :=
    analyze_query_performance parse_one cursor view_data query_log_data in
  (forall table,
      is_Some (performance_metrics !! table) ->
      exists rows row result0 parsed,
        query_log_data = Some rows /\ In row rows
        /\ execution_time_ms cursor (query_id row) = Row result0
        /\ parse_one (query row) = Some parsed
        /\ In table (List.map name (find_all exp.Table parsed)))
  /\ ((forall rows row t parsed,
          query_log_data = Some rows -> In row rows ->
          execution_time_ms cursor (query_id row) = Row (Some t) ->
          parse_one (query row) = Some parsed ->
          ~ In view (List.map name (find_all exp.Table parsed))) ->
      performance_bonus performance_metrics view column = 0%Q
      /\ (calculate_partition_score column view cs performance_metrics gs
          == inject_Z (base_weight gs column)
             + cardinality_bonus (get2 view column cs))%Q).
Proof.
  intros pm. split.
  - intros table Hk. subst pm. unfold analyze_query_performance in Hk.
    destruct query_log_data as [[|row rows]|];
      try (rewrite lookup_empty in Hk; destruct Hk; discriminate).
    apply fold_correlate_row_keys in Hk.
    destruct Hk as [Hk|(r & r0 & parsed & Hr)];
      [rewrite lookup_empty in Hk; destruct Hk; discriminate|].
    exists (row :: rows), r, r0, parsed. split; [reflexivity | exact Hr].
  - intros Hrows.
    assert (performance_bonus pm view column = 0%Q) as Hbonus.
    { apply no_column_time_bonus. subst pm. unfold analyze_query_performance.
      destruct query_log_data as [[|row rows]|];
        try (intros e; rewrite lookup_empty; discriminate).
      apply fold_correlate_row_no_column_time.
      - intros r t parsed. now apply Hrows.
      - intros e. rewrite lookup_empty. discriminate. }
    split; [assumption|].
    rewrite score_decomposition, Hbonus. ring.
Qed.

Lemma performance_bonus_needs_matching_table_name_witness :
  let performance_metrics :=
    analyze_query_performance sample_parse_one sample_cursor [sales_view]
      (Some [heavy_row]) in
  performance_bonus performance_metrics "db.sales" "region" = 0%Q
  /\ (calculate_partition_score "region" "db.sales" ∅ performance_metrics
        [("region", 3%Z)]
      == inject_Z (base_weight [("region", 3%Z)] "region")
         + cardinality_bonus (get2 "db.sales" "region" (∅ : gmap string (gmap string Z))))%Q.
Proof.
  apply (proj2 (performance_bonus_needs_matching_table_name sample_parse_one
                  sample_cursor [sales_view] (Some [heavy_row]) "db.sales"
                  "region" ∅ [("region", 3)])).
  intros rows row t parsed [= <-] [<-|[]] _ Hparse.
  vm_compute in Hparse. injection Hparse as <-.
  vm_compute. intros [H|[]]. discriminate.
Defined.

Example performance_keyed_by_table_name :
  let performance_metrics :=
    analyze_query_performance sample_parse_one sample_cursor [sales_view]
      (Some [heavy_row]) in
  pm_execution_time <$> performance_metrics !! "orders" = Some 2000
  /\ performance_metrics !! "db.sales" = None.
Proof. split; reflexivity. Qed.

(** ** The walk over an expression tree *)

Lemma depth_child c e : In c (List.map snd (args e)) -> (depth c < depth e)%nat.
Proof.
  destruct e as [k n a]. simpl. intros Hin.
  apply in_map_iff in Hin as (kv & <- & Hin).
  assert (depth (snd kv) <= list_max (List.map (fun kv => depth (snd kv)) a))%nat;
    [|lia].
  induction a as [|kv' a IH]; simpl in *; [tauto|].
  destruct Hin as [->|Hin]; [lia | specialize (IH Hin); lia].
Qed.

(** The fuel is enough: the walk reaches every node of the tree. *)
Lemma bfs_complete fuel level e s :
  In e level -> (depth e <= fuel)%nat -> subexpr s e -> In s (bfs fuel level).
Proof.
  intros Hin Hfuel Hsub. revert fuel level Hin Hfuel.
  induction Hsub as [e|s c e Hc Hsub IH]; intros fuel level Hin Hfuel.
  - destruct fuel as [|fuel]; [destruct e; simpl in Hfuel; lia|].
    destruct level as [|e0 level]; [destruct Hin|].
    cbn [bfs]. apply in_or_app. now left.
  - pose proof (depth_child c e Hc) as Hlt.
    destruct fuel as [|fuel]; [lia|].
    destruct level as [|e0 level]; [destruct Hin|].
    cbn [bfs]. apply in_or_app. right. apply IH; [|lia].
    apply in_flat_map. exists e. split; assumption.
Qed.

Lemma walk_complete e s : subexpr s e -> In s (walk e).
Proof. intros Hsub. apply (bfs_complete (depth e) [e] e s); [now left | lia | assumption]. Qed.

Lemma find_all_complete c e s :
  subexpr s e -> cls s = c -> In s (find_all c e).
Proof.
  intros Hsub <-. apply filter_In. split; [now apply walk_complete|].
  destruct (cls s); reflexivity.
Qed.

(** ** [parse_underlying_query] *)

(** What the function returns once the SELECT text is extracted and parsed. *)
Lemma parse_underlying_query_parsed parse_one ddl query_text parsed :
  extract_select_statement ddl = Some query_text -> query_text <> "" ->
  parse_one query_text = Some parsed ->
  parse_underlying_query parse_one ddl
  = Some (mkUsage
            (List.map table_label (find_all exp.Table parsed))
            (fold_left
               (fun c join =>
                  match args_get "on" join with
                  | Some on => count_columns on c
                  | None => c
                  end)
               (find_all exp.Join parsed) [])
            match args_get "where" parsed with
            | Some where_ => count_columns where_ []
            | None => []
            end).
Proof.
  intros Hextract Hne Hparse. unfold parse_underlying_query. rewrite Hextract.
  destruct query_text as [|c q]; [congruence|]. now rewrite Hparse.
Qed.

(** A parse error is logged and gives [None]. *)
Lemma parse_failure_is_none parse_one ddl query_text :
  extract_select_statement ddl = Some query_text ->
  parse_one query_text = None ->
  parse_underlying_query parse_one ddl = None.
Proof.
  intros Hextract Hparse. unfold parse_underlying_query. rewrite Hextract.
  destruct query_text; [reflexivity | now rewrite Hparse].
Qed.

(** ** Sorting *)

Section SortDescFacts.
Context {A : Type} (geb : A -> A -> bool).

Lemma insert_desc_perm x l : Permutation (insert_desc geb x l) (x :: l).
Proof.
  induction l as [|y l IH]; simpl; [reflexivity|].
  destruct (geb x y); [reflexivity|].
  rewrite IH. apply perm_swap.
Qed.

Lemma sort_desc_perm l : Permutation (sort_desc geb l) l.
Proof.
  induction l as [|x l IH]; simpl; [reflexivity|].
  rewrite insert_desc_perm. now constructor.
Qed.

Hypothesis geb_total : forall x y, geb x y = false -> geb y x = true.
Hypothesis geb_trans :
  forall x y z, geb x y = true -> geb y z = true -> geb x z = true.

Lemma insert_desc_sorted x l :
  StronglySorted (fun a b => geb a b = true) l ->
  StronglySorted (fun a b => geb a b = true) (insert_desc geb x l).
Proof.
  induction 1 as [|y l Hsorted IH Hy]; simpl.
  - repeat constructor.
  - destruct (geb x y) eqn:E.
    + constructor; [now constructor|].
      constructor; [assumption|].
      eapply List.Forall_impl; [|exact Hy]. intros z Hz. now apply (geb_trans x y z).
    + constructor; [assumption|].
      assert (Forall (fun b => geb y b = true) (x :: l)) as Hxl
        by (constructor; [now apply geb_total | assumption]).
      apply List.Forall_forall. intros z Hz.
      apply (Permutation_in z (insert_desc_perm x l)) in Hz.
      revert z Hz. now apply List.Forall_forall.
Qed.

Lemma sort_desc_sorted l :
  StronglySorted (fun a b => geb a b = true) (sort_desc geb l).
Proof.
  induction l as [|x l IH]; simpl; [constructor | now apply insert_desc_sorted].
Qed.
End SortDescFacts.

Lemma sort_values_perm df : Permutation (sort_values df) df.
Proof. apply sort_desc_perm. Qed.

Lemma sort_values_descending df : descending (sort_values df).
Proof.
  unfold descending, sort_values.
  assert (StronglySorted (fun a b : string * Z => (snd b <=? snd a) = true)
            (sort_desc (fun a b : string * Z => snd b <=? snd a) df)) as H.
  { apply sort_desc_sorted.
    - intros x y H. apply Z.leb_gt in H. apply Z.leb_le. lia.
    - intros x y z Hxy Hyz. apply Z.leb_le in Hxy, Hyz. apply Z.leb_le. lia. }
  induction H as [|a l Hl IH Ha]; constructor; [assumption|].
  eapply List.Forall_impl; [|exact Ha]. intros b Hb. now apply Z.leb_le.
Qed.

(** ** [Counter] *)

Lemma counter_add_keys k n c k' :
  In k' (List.map fst (counter_add k n c)) <-> k' = k \/ In k' (List.map fst c).
Proof.
  induction c as [|[k0 m] c IH]; simpl.
  - intuition.
  - destruct (String.eqb_spec k k0) as [->|Hne]; simpl; [intuition|].
    rewrite IH. intuition.
Qed.

Lemma counter_add_nodup k n c :
  List.NoDup (List.map fst c) -> List.NoDup (List.map fst (counter_add k n c)).
Proof.
  induction c as [|[k0 m] c IH]; simpl; intros Hnd.
  - repeat constructor. intros [].
  - inversion Hnd as [|? ? Hnotin Hnd']; subst.
    destruct (String.eqb_spec k k0) as [->|Hne]; simpl; [now constructor|].
    constructor; [|now apply IH].
    rewrite counter_add_keys. intros [->|Hin]; congruence.
Qed.

Lemma counter_get_add k n c k' :
  counter_get k' (counter_add k n c)
  = counter_get k' c + (if String.eqb k' k then n else 0).
Proof.
  induction c as [|[k0 m] c IH]; simpl.
  - destruct (String.eqb k' k); lia.
  - destruct (String.eqb_spec k k0) as [->|Hne]; simpl.
    + destruct (String.eqb_spec k' k0); lia.
    + destruct (String.eqb_spec k' k0) as [->|Hne'].
      * destruct (String.eqb_spec k0 k); [congruence | lia].
      * apply IH.
Qed.

Lemma counter_get_in k n c :
  List.NoDup (List.map fst c) -> In (k, n) c -> counter_get k c = n.
Proof.
  induction c as [|[k0 m] c IH]; simpl; [tauto|].
  intros Hnd [[= -> ->]|Hin]; [now rewrite String.eqb_refl|].
  inversion Hnd as [|? ? Hnotin Hnd']; subst.
  destruct (String.eqb_spec k k0) as [->|Hne]; [|now apply IH].
  exfalso. apply Hnotin. apply (in_map fst) in Hin. exact Hin.
Qed.

Lemma counter_get_key k c :
  In k (List.map fst c) -> In (k, counter_get k c) c.
Proof.
  induction c as [|[k0 m] c IH]; simpl; [tauto|].
  destruct (String.eqb_spec k k0) as [->|Hne]; [now left|].
  intros [E|Hin]; [congruence | right; now apply IH].
Qed.

Lemma fold_counter_keys l c k :
  In k (List.map fst (fold_left count_one l c)) <-> In k (List.map fst c) \/ In k l.
Proof.
  revert c; induction l as [|x l IH]; intros c; simpl; [tauto|].
  rewrite IH. unfold count_one. rewrite counter_add_keys. intuition.
Qed.

Lemma fold_counter_nodup l c :
  List.NoDup (List.map fst c) -> List.NoDup (List.map fst (fold_left count_one l c)).
Proof.
  revert c; induction l as [|x l IH]; intros c Hnd; simpl; [assumption|].
  apply IH. now apply counter_add_nodup.
Qed.

Lemma fold_counter_get l c k :
  counter_get k (fold_left count_one l c)
  = counter_get k c + Z.of_nat (count_occ string_dec l k).
Proof.
  revert c; induction l as [|x l IH]; intros c; simpl; [lia|].
  rewrite IH. unfold count_one. rewrite counter_get_add.
  destruct (string_dec x k) as [->|Hne].
  - rewrite String.eqb_refl. lia.
  - destruct (String.eqb_spec k x); [congruence | lia].
Qed.
Lemma Counter_of_nodup l : List.NoDup (List.map fst (Counter_of l)).
Proof. apply fold_counter_nodup. constructor. Qed.

(** The rows of [Counter(l)]: each element of [l] with its number of
    occurrences. *)
Lemma Counter_of_rows l k n :
  In (k, n) (Counter_of l)
  <-> In k l /\ n = Z.of_nat (count_occ string_dec l k).
Proof.
  split.
  - intros Hin.
    assert (In k (List.map fst (Counter_of l))) as Hk by (apply (in_map fst) in Hin; exact Hin).
    apply fold_counter_keys in Hk. destruct Hk as [[]|Hk]. split; [assumption|].
    rewrite <- (counter_get_in k n (Counter_of l) (Counter_of_nodup l) Hin).
    unfold Counter_of. now rewrite fold_counter_get.
  - intros [Hk ->].
    assert (In k (List.map fst (Counter_of l))) as Hk'
      by (apply fold_counter_keys; now right).
    apply counter_get_key in Hk'. unfold Counter_of in Hk' at 1.
    now rewrite fold_counter_get in Hk'.
Qed.

Lemma Counter_of_perm l1 l2 :
  Permutation l1 l2 -> Permutation (Counter_of l1) (Counter_of l2).
Proof.
  intros Hperm. apply Permutation.NoDup_Permutation.
  - eapply List.NoDup_map_inv, Counter_of_nodup.
  - eapply List.NoDup_map_inv, Counter_of_nodup.
  - intros [k n]. rewrite !Counter_of_rows.
    rewrite (Permutation_count_occ string_dec l1 l2) in Hperm. rewrite (Hperm k).
    split; intros [Hin ->]; (split; [|reflexivity]).
    + apply (proj2 (count_occ_In string_dec l2 k)).
      rewrite <- (Hperm k). now apply count_occ_In.
    + apply (proj2 (count_occ_In string_dec l1 k)).
      rewrite (Hperm k). now apply count_occ_In.
Qed.

(** The frequency of a column does not depend on the order of the rows. *)
Lemma counter_get_perm c1 c2 k :
  List.NoDup (List.map fst c1) -> Permutation c1 c2 ->
  counter_get k c1 = counter_get k c2.
Proof.
  intros Hnd Hperm.
  assert (List.NoDup (List.map fst c2)) as Hnd2
    by (eapply Permutation.Permutation_NoDup; [apply Permutation_map, Hperm | assumption]).
  destruct (in_dec string_dec k (List.map fst c1)) as [Hin|Hnot].
  - apply counter_get_key in Hin. symmetry.
    apply counter_get_in; [assumption|]. eapply Permutation_in; eassumption.
  - assert (~ In k (List.map fst c2)) as Hnot2.
    { intros Hin. apply Hnot. eapply Permutation_in; [|exact Hin].
      symmetry. now apply Permutation_map. }
    clear Hnd Hnd2 Hperm. revert Hnot Hnot2.
    assert (forall c, ~ In k (List.map fst c) -> counter_get k c = 0) as Hzero.
    { induction c as [|[k0 m] c IH]; simpl; [reflexivity|]. intros Hn.
      destruct (String.eqb_spec k k0) as [->|Hne]; [tauto|]. apply IH. tauto. }
    intros H1 H2. now rewrite (Hzero c1), (Hzero c2).
Qed.

(** ** [aggregate_column_usage] *)

Lemma fold_left_extend {A : Type} (f : A -> list string) l acc :
  fold_left (fun w x => (w ++ f x)%list) l acc = (acc ++ flat_map f l)%list.
Proof.
  revert acc; induction l as [|x l IH]; intros acc; simpl.
  - now rewrite app_nil_r.
  - now rewrite IH, <- app_assoc.
Qed.

Lemma fold_left_join_columns (jc : Counter) acc :
  fold_left (fun w '(col, cnt) => (w ++ list_mul [col] cnt)%list) jc acc
  = (acc ++ flat_map (fun '(col, cnt) => list_mul [col] cnt) jc)%list.
Proof.
  revert acc; induction jc as [|[col cnt] jc IH]; intros acc; simpl.
  - now rewrite app_nil_r.
  - now rewrite IH, <- app_assoc.
Qed.

Section Aggregation.
Variable parse_one : string -> option Expression.

Lemma extend_with_view_app acc v :
  extend_with_view parse_one acc v = (acc ++ view_emissions parse_one v)%list.
Proof.
  unfold view_emissions, extend_with_view.
  destruct (ddl v) as [[|c d]|]; try reflexivity.
  destruct (parse_underlying_query parse_one (String c d)) as [stats|];
    [|reflexivity].
  rewrite !fold_left_join_columns. simpl. now rewrite app_assoc.
Qed.

Lemma extend_with_view_parsed acc v d stats :
  ddl v = Some d -> d <> "" ->
  parse_underlying_query parse_one d = Some stats ->
  extend_with_view parse_one acc v
  = (acc ++ list_mul (columns v) (query_count v)
         ++ flat_map (fun '(col, cnt) => list_mul [col] cnt) (join_columns stats))%list.
Proof.
  intros Hd Hne Hstats. unfold extend_with_view. rewrite Hd.
  destruct d as [|c d]; [congruence|]. rewrite Hstats.
  now rewrite fold_left_join_columns, app_assoc.
Qed.

Lemma extend_with_log_app acc row :
  extend_with_log parse_one acc row = (acc ++ log_emissions parse_one row)%list.
Proof.
  unfold log_emissions, extend_with_log.
  destruct (parse_one (query row)) as [parsed|]; [|now rewrite app_nil_r].
  now rewrite !(fold_left_extend (fun node => [name node])).
Qed.

Lemma fold_extend_with_view vd acc :
  fold_left (extend_with_view parse_one) vd acc
  = (acc ++ flat_map (view_emissions parse_one) vd)%list.
Proof.
  revert acc; induction vd as [|v vd IH]; intros acc; simpl.
  - now rewrite app_nil_r.
  - now rewrite IH, extend_with_view_app, <- app_assoc.
Qed.

Lemma fold_extend_with_log rows acc :
  fold_left (extend_with_log parse_one) rows acc
  = (acc ++ flat_map (log_emissions parse_one) rows)%list.
Proof.
  revert acc; induction rows as [|row rows IH]; intros acc; simpl.
  - now rewrite app_nil_r.
  - now rewrite IH, extend_with_log_app, <- app_assoc.
Qed.

(** The weighted columns are the emissions of the views followed by the
    emissions of the log rows. *)
Lemma weighted_columns_emissions vd logs :
  weighted_columns_of parse_one vd logs
  = (flat_map (view_emissions parse_one) vd
     ++ flat_map (log_emissions parse_one) (rows_of logs))%list.
Proof.
  unfold weighted_columns_of. rewrite fold_extend_with_view.
  destruct logs as [[|row rows]|]; simpl rows_of;
    try (simpl; now rewrite app_nil_r).
  now rewrite fold_extend_with_log.
Qed.

Lemma weighted_columns_perm vd1 vd2 logs1 logs2 :
  Permutation vd1 vd2 -> Permutation (rows_of logs1) (rows_of logs2) ->
  Permutation (weighted_columns_of parse_one vd1 logs1)
              (weighted_columns_of parse_one vd2 logs2).
Proof.
  intros Hvd Hlogs. rewrite !weighted_columns_emissions.
  apply Permutation_app; now apply Permutation_flat_map.
Qed.
End Aggregation.

(** C5, as the code has it: on inputs that are permutations of each other
    the two frequency tables hold the same rows (every column has the same
    frequency in both, and one row in each), each in descending order of
    frequency; rows of equal frequency may come in a different order. On
    identical inputs the tables are identical. *)
Theorem aggregate_column_usage_permutation parse_one vd1 vd2 logs1 logs2 :
  Permutation vd1 vd2 -> Permutation (rows_of logs1) (rows_of logs2) ->
  let t1 := aggregate_column_usage parse_one vd1 logs1 in
  let t2 := aggregate_column_usage parse_one vd2 logs2 in
  Permutation t1 t2
  /\ (forall column, counter_get column t1 = counter_get column t2)
  /\ List.NoDup (List.map fst t1) /\ List.NoDup (List.map fst t2)
  /\ descending t1 /\ descending t2
  /\ (vd1 = vd2 -> logs1 = logs2 -> t1 = t2).
Proof.
  intros Hvd Hlogs t1 t2.
  assert (Permutation t1 t2) as Hperm.
  { subst t1 t2. unfold aggregate_column_usage. rewrite !sort_values_perm.
    apply Counter_of_perm. now apply weighted_columns_perm. }
  assert (forall vd logs,
             List.NoDup (List.map fst (aggregate_column_usage parse_one vd logs)))
    as Hnodup.
  { intros vd logs. unfold aggregate_column_usage.
    eapply Permutation.Permutation_NoDup;
      [apply Permutation_map; symmetry; apply sort_values_perm|].
    apply Counter_of_nodup. }
  split; [assumption|]. split.
  - intros column. apply counter_get_perm; [apply Hnodup | assumption].
  - split; [apply Hnodup|]. split; [apply Hnodup|].
    split; [apply sort_values_descending|].
    split; [apply sort_values_descending|].
    intros -> ->. reflexivity.
Qed.

Lemma aggregate_column_usage_permutation_witness :
  Permutation (aggregate_column_usage sample_parse_one two_views None)
              (aggregate_column_usage sample_parse_one (rev two_views) (Some []))
  /\ forall column,
       counter_get column (aggregate_column_usage sample_parse_one two_views None)
       = counter_get column
           (aggregate_column_usage sample_parse_one (rev two_views) (Some [])).
Proof.
  pose proof (aggregate_column_usage_permutation sample_parse_one two_views
                (rev two_views) None (Some []) (Permutation_rev two_views)
                (Permutation_refl [])) as H.
  split; [exact (proj1 H) | exact (proj1 (proj2 H))].
Defined.

(** C5, as stated, fails: two views in one order and in the other give
    tables whose rows, of equal frequency, come in different orders. *)
Lemma tied_rows_follow_input_order :
  Permutation two_views (rev two_views)
  /\ aggregate_column_usage sample_parse_one two_views None = [("x", 1); ("y", 1)]
  /\ aggregate_column_usage sample_parse_one (rev two_views) None
     = [("y", 1); ("x", 1)]
  /\ aggregate_column_usage sample_parse_one two_views None
     <> aggregate_column_usage sample_parse_one (rev two_views) None.
Proof.
  split; [apply Permutation_rev|]. split; [reflexivity|]. split; [reflexivity|].
  vm_compute. discriminate.
Qed.

(** The order of tied rows does not hinge on how the sort breaks ties: any
    reordering that looks at the frequencies alone sends the two tables of
    the example to different tables. *)
Remark tied_rows_under_any_value_sort (argsort : list Z -> list nat) :
  Permutation (argsort [1; 1]) [0%nat; 1%nat] ->
  let reorder (df : DataFrame) :=
    List.map (fun i => nth i df ("", 0)) (argsort (List.map snd df)) in
  reorder [("x", 1); ("y", 1)] <> reorder [("y", 1); ("x", 1)].
Proof.
  intros Hperm reorder. subst reorder. cbv beta.
  change (List.map snd [("x", 1); ("y", 1)]) with [1; 1].
  change (List.map snd [("y", 1); ("x", 1)]) with [1; 1].
  apply Permutation_sym, Permutation_length_2_inv in Hperm.
  destruct Hperm as [-> | ->]; discriminate.
Qed.

(** ** The end-to-end example *)

Lemma extract_sales_select : extract_select_statement sales_ddl = Some sales_select.
Proof. reflexivity. Qed.

Lemma sales_parse parse_one :
  parse_one sales_select = Some sales_tree ->
  parse_underlying_query parse_one sales_ddl
  = Some (mkUsage ["orders AS o"; "regions AS r"] [("region", 2)] [("amount", 1)]).
Proof.
  intros Hparse.
  rewrite (parse_underlying_query_parsed parse_one sales_ddl sales_select sales_tree
             extract_sales_select ltac:(discriminate) Hparse).
  reflexivity.
Qed.

(** C1, as the code has it: for the view [db.sales] with columns
    order_date, region and amount, query_count 1 and the sample DDL, and no
    query log, [parse_underlying_query] returns join_columns = {region: 2}
    (both [o.region] and [r.region] of the ON condition are counted) and
    where_columns = {amount: 1}; the frequency table has region 3 (1 from the
    view and 2 from the join), order_date 1 and amount 1, the WHERE clause
    adding nothing. *)
Theorem sales_usage parse_one :
  parse_one sales_select = Some sales_tree ->
  parse_underlying_query parse_one sales_ddl
  = Some (mkUsage ["orders AS o"; "regions AS r"] [("region", 2)] [("amount", 1)])
  /\ aggregate_column_usage parse_one [sales_view] None
     = [("region", 3); ("order_date", 1); ("amount", 1)].
Proof.
  intros Hparse. split; [now apply sales_parse|].
  unfold aggregate_column_usage. rewrite weighted_columns_emissions.
  simpl flat_map. unfold view_emissions.
  rewrite (extend_with_view_parsed parse_one [] sales_view sales_ddl _ eq_refl
             ltac:(discriminate) (sales_parse parse_one Hparse)).
  reflexivity.
Qed.

Lemma sales_usage_witness :
  parse_underlying_query sample_parse_one sales_ddl
  = Some (mkUsage ["orders AS o"; "regions AS r"] [("region", 2)] [("amount", 1)])
  /\ aggregate_column_usage sample_parse_one [sales_view] None
     = [("region", 3); ("order_date", 1); ("amount", 1)].
Proof. apply (sales_usage sample_parse_one). reflexivity. Defined.

(** C1, as stated, fails: the ON condition [o.region=r.region] holds two
    column references named region, so join_columns is not {region: 1} and
    the frequency of region is not 2. *)
Lemma sales_region_counted_twice :
  ~ (exists u,
        parse_underlying_query sample_parse_one sales_ddl = Some u
        /\ join_columns u = [("region", 1)]
        /\ where_columns u = [("amount", 1)]
        /\ counter_get "order_date"
             (aggregate_column_usage sample_parse_one [sales_view] None) = 1
        /\ counter_get "region"
             (aggregate_column_usage sample_parse_one [sales_view] None) = 2).
Proof.
  intros (u & Hu & Hjoin & _). vm_compute in Hu. injection Hu as <-.
  discriminate Hjoin.
Qed.

(** ** [analyze_data_distribution] *)

Lemma true_div_nonzero a b : ~ (b == 0)%Q -> true_div a b = Returns (a / b)%Q.
Proof.
  intros Hb. unfold true_div. destruct (Qeq_bool b 0) eqn:E; [|reflexivity].
  apply Qeq_bool_iff in E. contradiction.
Qed.

Lemma inject_Z_positive_nonzero z : 0 < z -> ~ (inject_Z z == 0)%Q.
Proof.
  intros Hz E. change 0%Q with (inject_Z 0) in E.
  pose proof (proj1 (inject_Z_injective z 0) E). lia.
Qed.

(** What the body computes on a fetched row with a first percentile. *)
Lemma column_distribution_row p10 rest distinct total :
  column_distribution (Row (Some (p10 :: rest), distinct, total))
  = match nth_error rest 1 with
    | None => Raises IndexError
    | Some p90 =>
        Returns
          (Some
             (mkDist (p10 :: rest)
                (if negb (Qeq_bool p10 p90) && negb (Qeq_bool p10 0)
                 then p90 / p10 else 1)%Q
                (if total >? 0 then inject_Z distinct / inject_Z total else 0)%Q
                distinct))
    end.
Proof.
  unfold column_distribution, index.
  change (nth_error (p10 :: rest) 0) with (Some p10).
  change (nth_error (p10 :: rest) 2) with (nth_error rest 1).
  destruct (nth_error rest 1) as [p90|]; [|reflexivity]. cbn [bind].
  assert ((if negb (Qeq_bool p10 p90) && negb (Qeq_bool p10 0)
           then true_div p90 p10 else Returns 1%Q)
          = Returns (if negb (Qeq_bool p10 p90) && negb (Qeq_bool p10 0)
                     then p90 / p10 else 1)%Q) as ->.
  { destruct (Qeq_bool p10 p90); simpl; [reflexivity|].
    destruct (Qeq_bool p10 0) eqn:E; simpl; [reflexivity|].
    apply true_div_nonzero. intros E0. apply Qeq_bool_iff in E0. congruence. }
  cbn [bind].
  destruct (Z.gtb_spec total 0) as [Hpos|Hle]; [|reflexivity].
  rewrite true_div_nonzero by (apply inject_Z_positive_nonzero; lia).
  reflexivity.
Qed.

Lemma column_distribution_no_zero_division result :
  column_distribution result <> Raises ZeroDivisionError.
Proof.
  destruct result as [| |[[[[|p10 rest]|] distinct] total]]; try discriminate.
  rewrite column_distribution_row. destruct (nth_error rest 1); discriminate.
Qed.

Lemma column_distribution_some result d :
  column_distribution result = Returns (Some d) ->
  exists p10 p90 total,
    result = Row (Some (percentiles d), distinct_count d, total)
    /\ nth_error (percentiles d) 0 = Some p10
    /\ nth_error (percentiles d) 2 = Some p90
    /\ (~ (p10 == p90)%Q /\ ~ (p10 == 0)%Q -> skew_ratio d = (p90 / p10)%Q)
    /\ ((p10 == p90)%Q \/ (p10 == 0)%Q -> skew_ratio d = 1%Q)
    /\ (0 < total ->
        density d = (inject_Z (distinct_count d) / inject_Z total)%Q)
    /\ (total <= 0 -> density d = 0%Q).
Proof.
  destruct result as [| |[[[[|p10 rest]|] distinct] total]]; try discriminate.
  rewrite column_distribution_row.
  destruct (nth_error rest 1) as [p90|] eqn:E90; [|discriminate].
  intros [= <-]. exists p10, p90, total. simpl.
  split; [reflexivity|]. split; [reflexivity|]. split; [assumption|].
  repeat split.
  - intros [Hne H0].
    destruct (Qeq_bool p10 p90) eqn:E1; [apply Qeq_bool_iff in E1; tauto|].
    destruct (Qeq_bool p10 0) eqn:E2; [apply Qeq_bool_iff in E2; tauto|].
    reflexivity.
  - intros [He|He]; apply Qeq_bool_iff in He; rewrite He; simpl; [reflexivity|].
    now rewrite andb_false_r.
  - intros Hpos. destruct (Z.gtb_spec total 0); [reflexivity | lia].
  - intros Hle. destruct (Z.gtb_spec total 0); [lia | reflexivity].
Qed.

Section DistributionLoop.
Variable cursor : Cursor.

Lemma sampled_column_lookup view columns (m0 : gmap string Distribution) column d :
  fold_left (sample_column cursor view) columns m0 !! column = Some d ->
  m0 !! column = Some d
  \/ (In column columns
      /\ column_distribution (distribution cursor column view) = Returns (Some d)).
Proof.
  revert m0; induction columns as [|c columns IH]; intros m0; simpl; [now left|].
  intros H. destruct (IH _ H) as [H0|[Hin Hd]]; [|right; split; [now right | assumption]].
  unfold sample_column in H0.
  destruct (column_distribution (distribution cursor c view)) as [[d'|]|e] eqn:E;
    try (now left).
  destruct (decide (c = column)) as [->|Hne].
  - rewrite lookup_insert_eq in H0. injection H0 as ->. right. split; [now left | assumption].
  - rewrite lookup_insert_ne in H0 by assumption. now left.
Qed.

Lemma sampled_view_lookup view_data (m0 : gmap string (gmap string Distribution))
    view stats :
  fold_left
    (fun distribution_stats v =>
       <[fq_view v :=
           fold_left (sample_column cursor (fq_view v))
             (firstn (Nat.min 5 (length (columns v))) (columns v)) ∅]>
         distribution_stats)
    view_data m0 !! view = Some stats ->
  m0 !! view = Some stats
  \/ exists v, In v view_data /\ fq_view v = view
               /\ stats = fold_left (sample_column cursor view)
                            (firstn (Nat.min 5 (length (columns v))) (columns v)) ∅.
Proof.
  revert m0; induction view_data as [|v view_data IH]; intros m0; simpl;
    [now left|].
  intros H. destruct (IH _ H) as [H0|(v' & Hin & Hv')];
    [|right; exists v'; split; [now right | assumption]].
  destruct (decide (fq_view v = view)) as [<-|Hne].
  - rewrite lookup_insert_eq in H0. injection H0 as <-.
    right. exists v. split; [now left|]. split; reflexivity.
  - rewrite lookup_insert_ne in H0 by assumption. now left.
Qed.

(** Every entry of the result comes from one of the first five columns of a
    view, through the body of the loop. *)
Lemma analyze_data_distribution_lookup view_data view stats column d :
  analyze_data_distribution cursor view_data !! view = Some stats ->
  stats !! column = Some d ->
  exists v, In v view_data /\ fq_view v = view
            /\ In column (firstn 5 (columns v))
            /\ column_distribution (distribution cursor column view)
               = Returns (Some d).
Proof.
  intros Hview Hcol.
  destruct (sampled_view_lookup view_data ∅ view stats Hview)
    as [H0|(v & Hin & Hv & ->)]; [rewrite lookup_empty in H0; discriminate|].
  destruct (sampled_column_lookup _ _ _ _ _ Hcol) as [H0|[Hc Hd]];
    [rewrite lookup_empty in H0; discriminate|].
  exists v. repeat split; try assumption.
  destruct (Nat.min_spec 5 (length (columns v))) as [[_ E]|[Hle E]];
    rewrite E in Hc; [assumption|].
  rewrite firstn_all in Hc. rewrite firstn_all2 by lia. assumption.
Qed.
End DistributionLoop.

(** C10: for every sampled (view, column), skew_ratio is p90/p10 when p10
    differs from p90 and from 0, and 1 otherwise; density is
    distinct_count/total_count when total_count is positive and 0 otherwise;
    the body of the loop never raises ZeroDivisionError. *)
Theorem skew_and_density_guarded cursor view_data :
  (forall view column,
      column_distribution (distribution cursor column view)
      <> Raises ZeroDivisionError)
  /\ (forall view stats column d,
         analyze_data_distribution cursor view_data !! view = Some stats ->
         stats !! column = Some d ->
         exists p10 p90 total,
           distribution cursor column view
           = Row (Some (percentiles d), distinct_count d, total)
           /\ nth_error (percentiles d) 0 = Some p10
           /\ nth_error (percentiles d) 2 = Some p90
           /\ (~ (p10 == p90)%Q /\ ~ (p10 == 0)%Q ->
               skew_ratio d = (p90 / p10)%Q)
           /\ ((p10 == p90)%Q \/ (p10 == 0)%Q -> skew_ratio d = 1%Q)
           /\ (0 < total ->
               density d = (inject_Z (distinct_count d) / inject_Z total)%Q)
           /\ (total <= 0 -> density d = 0%Q)).
Proof.
  split.
  - intros view column. apply column_distribution_no_zero_division.
  - intros view stats column d Hview Hcol.
    destruct (analyze_data_distribution_lookup cursor view_data view stats column d
                Hview Hcol) as (v & _ & _ & _ & Hd).
    now apply column_distribution_some.
Qed.

Lemma skew_and_density_guarded_witness :
  exists d,
    analyze_data_distribution sample_cursor [sales_view] !! "db.sales"
      ≫= (fun stats => stats !! "region") = Some d
    /\ skew_ratio d = (9 / 1)%Q
    /\ density d = (inject_Z 40 / inject_Z 100)%Q.
Proof.
  pose (d := mkDist [1%Q; 5%Q; 9%Q] (9 / 1)%Q (inject_Z 40 / inject_Z 100)%Q 40).
  exists d. split; [vm_compute; reflexivity|].
  destruct (proj2 (skew_and_density_guarded sample_cursor [sales_view])
              "db.sales" {[ "order_date" := d; "region" := d; "amount" := d ]}
              "region" d)
    as (p10 & p90 & total & Hrow & H10 & H90 & Hskew & _ & Hdensity & _).
  - vm_compute. reflexivity.
  - vm_compute. reflexivity.
  - injection Hrow as <-. injection H10 as <-. injection H90 as <-. split.
    + apply Hskew. split; intros E; vm_compute in E; discriminate.
    + apply Hdensity. lia.
Defined.

(** ** [produce_iceberg_partition_scripts] *)





Lemma dict_set_in {V : Type} k (v : V) d k' v' :
  In (k', v') (dict_set k v d) -> (k' = k /\ v' = v) \/ In (k', v') d.
Proof.
  induction d as [|[k0 v0] d IH]; simpl.
  - intros [[= <- <-]|[]]. now left.
  - destruct (String.eqb_spec k k0) as [->|Hne]; simpl.
    + intros [[= <- <-]|Hin]; [now left | right; now right].
    + intros [E|Hin]; [right; now left|].
      destruct (IH Hin) as [H|H]; [now left | right; now right].
Qed.

Lemma take_subset {A : Type} n (l : list A) x : In x (take n l) -> In x l.
Proof.
  assert (forall k, In x (firstn k l) -> In x l) as H.
  { intros k. revert l; induction k as [|k IH]; intros [|y l]; simpl; try tauto.
    intros [->|Hin]; [now left | right; now apply IH]. }
  unfold take. destruct (n <? 0); apply H.
Qed.

Lemma filter_none {A : Type} (f : A -> bool) l :
  (forall x, In x l -> f x = false) -> List.filter f l = [].
Proof.
  induction l as [|x l IH]; intros Hall; simpl; [reflexivity|].
  rewrite (Hall x (or_introl eq_refl)). apply IH. intros y Hy. apply Hall. now right.
Qed.

Section ScriptFacts.
Variable repr_scores : list (string * Q) -> string.
Variable cursor : option Cursor.
Variable cs : gmap string (gmap string Z).
Variable pm : gmap string PerfEntry.
Variable gs : list (string * Z).
Variable top_n : Z.

(** Every item of [view_scores] is a column of the view with its score. *)
Lemma view_scores_entries v c s :
  In (c, s) (view_scores_of cs pm gs v) ->
  In c (columns v) /\ s = calculate_partition_score c (fq_view v) cs pm gs.
Proof.
  unfold view_scores_of.
  assert (forall cols acc,
             In (c, s)
                (fold_left
                   (fun view_scores column =>
                      dict_set column
                        (calculate_partition_score column (fq_view v) cs pm gs)
                        view_scores) cols acc) ->
             In (c, s) acc
             \/ (In c cols /\ s = calculate_partition_score c (fq_view v) cs pm gs))
    as H.
  { induction cols as [|col cols IH]; intros acc; simpl; [now left|].
    intros Hin. destruct (IH _ Hin) as [Hacc|[Hc Hs]]; [|right; split; [now right | assumption]].
    destruct (dict_set_in _ _ _ _ _ Hacc) as [[-> ->]|H']; [right; split; [now left | reflexivity] | now left]. }
  intros Hin. destruct (H _ _ Hin) as [[]|Hc]. exact Hc.
Qed.

Lemma score_columns_scores v ts :
  fst (score_columns cursor cs pm gs v ts) = view_scores_of cs pm gs v.
Proof.
  unfold score_columns, view_scores_of.
  generalize (@nil (string * Q)). revert ts.
  induction (columns v) as [|col cols IH]; intros ts acc; simpl; [reflexivity|].
  destruct cursor as [c|]; apply IH.
Qed.

(** The selected columns are columns of the view with a positive score. *)
Lemma selected_columns_positive v c :
  In c (selected_columns cs pm gs top_n v) ->
  In c (columns v)
  /\ (0 < calculate_partition_score c (fq_view v) cs pm gs)%Q.
Proof.
  unfold selected_columns, top_columns_of. intros Hin.
  apply in_map_iff in Hin as ([c' s] & [= ->] & Hin).
  apply filter_In in Hin as [Hin Hpos]. apply take_subset in Hin.
  unfold sorted_columns_of in Hin.
  apply (Permutation_in _ (sort_desc_perm _ _)) in Hin.
  apply view_scores_entries in Hin as [Hc ->]. split; [assumption|].
  unfold Qgt_bool in Hpos. simpl in Hpos. apply negb_true_iff in Hpos.
  destruct (Qlt_le_dec 0 (calculate_partition_score c (fq_view v) cs pm gs))
    as [Hlt|Hle]; [assumption|].
  apply Qle_bool_iff in Hle. congruence.
Qed.


(** The script a view gets: the advisory text when no column is selected,
    the ALTER TABLE text over the selected columns otherwise. *)
Lemma script_view_script st v :
  exists column_types column_stats,
    partition_scripts (script_view repr_scores cursor cs pm gs top_n st v)
    = <[fq_view v :=
          match selected_columns cs pm gs top_n v with
          | [] => advisory_script (fq_view v)
          | cols =>
              alter_script repr_scores (fq_view v)
                (take top_n (sorted_columns_of cs pm gs v))
                (List.map
                   (fun col =>
                      generate_iceberg_partition_spec col
                        (default "unknown" (get2 (fq_view v) col column_types))
                        (default no_stats (get2 (fq_view v) col column_stats)))
                   cols)
          end]> (partition_scripts st).
Proof.
  unfold script_view.
  pose proof (score_columns_scores v (column_types st, column_stats st)) as Hfst.
  destruct (score_columns cursor cs pm gs v (column_types st, column_stats st))
    as [view_scores [ct cst]].
  simpl in Hfst. subst view_scores. exists ct, cst. simpl.
  unfold selected_columns, sorted_columns_of.
  destruct (top_columns_of _ top_n); reflexivity.
Qed.

Lemma fold_script_view_other views st k :
  ~ In k (List.map fq_view views) ->
  partition_scripts
    (fold_left (script_view repr_scores cursor cs pm gs top_n) views st) !! k
  = partition_scripts st !! k.
Proof.
  revert st; induction views as [|v views IH]; intros st Hnot; simpl;
    [reflexivity|].
  rewrite IH by (intros Hin; apply Hnot; now right).
  destruct (script_view_script st v) as (ct & cst & ->).
  apply lookup_insert_ne. intros E. apply Hnot. now left.
Qed.

End ScriptFacts.

Lemma last_tuple_named view_data name :
  In name (List.map fq_view view_data) ->
  exists before v after,
    view_data = (before ++ v :: after)%list /\ fq_view v = name
    /\ ~ In name (List.map fq_view after).
Proof.
  induction view_data as [|x view_data IH]; simpl; [tauto|]. intros Hin.
  destruct (in_dec string_dec name (List.map fq_view view_data)) as [Hin'|Hnot].
  - destruct (IH Hin') as (before & v & after & -> & Hv & Hafter).
    exists (x :: before), v, after. auto.
  - destruct Hin as [E|Hin']; [|contradiction]. exists [], x, view_data. auto.
Qed.







Example sales_script :
  produce_iceberg_partition_scripts sample_parse_one sample_repr
    [sales_view; idle_view] [("region", 3)] None 3 None !! "db.sales"
  = Some ("-- Iceberg Partitioning script for db.sales" ++ newline
          ++ "-- Column scores: [region, order_date, amount]" ++ newline
          ++ "ALTER TABLE db.sales REPLACE PARTITION SPEC (" ++ newline
          ++ "    region" ++ newline ++ ");" ++ newline).
Proof. vm_compute. reflexivity. Qed.

(** * Further properties *)

(** ** [analyze_query_types] *)

Lemma contains_unfold sub s :
  PyStr.contains sub s
  = String.prefix sub s
    || match s with
       | EmptyString => false
       | String _ s' => PyStr.contains sub s'
       end.
Proof. destruct s; reflexivity. Qed.

Lemma contains_iff sub s :
  PyStr.contains sub s = true
  <-> exists i, String.prefix sub (PyStr.drop i s) = true.
Proof.
  split.
  - induction s as [|c s IH]; rewrite contains_unfold; intros H;
      apply orb_true_iff in H as [H|H]; try (now exists O); try discriminate.
    destruct (IH H) as [i Hi]. now exists (S i).
  - intros [i Hi]. revert s Hi. induction i as [|i IH]; intros s Hi;
      rewrite contains_unfold.
    + change (PyStr.drop 0 s) with s in Hi. now rewrite Hi.
    + destruct s as [|c s].
      * change (PyStr.drop (S i) "") with "" in Hi. now rewrite Hi.
      * change (PyStr.drop (S i) (String c s)) with (PyStr.drop i s) in Hi.
        rewrite (IH s Hi). apply orb_true_r.
Qed.

Lemma contains_upper_occurs m s :
  PyStr.contains m (PyStr.upper s) = true <-> occurs_ignoring_case m s.
Proof.
  rewrite contains_iff. unfold occurs_ignoring_case.
  split; intros [i Hi]; exists i.
  - now rewrite <- upper_drop, prefix_upper_matches in Hi.
  - now rewrite <- upper_drop, prefix_upper_matches.
Qed.

(** What makes a query interactive, and the priority that follows. *)
Lemma classify_query_spec row :
  (is_interactive (classify_query row) = true
   <-> occurs_ignoring_case "LIMIT" (query row)
       \/ exists t, 3 < row_len row /\ row_get row 3 = Some t /\ t < 10000)
  /\ partition_priority (classify_query row)
     = (if is_interactive (classify_query row) then 2 else 1)%Q.
Proof.
  unfold classify_query. cbv zeta. split; [|reflexivity]. cbn [is_interactive].
  rewrite <- contains_upper_occurs.
  destruct (PyStr.contains "LIMIT" (PyStr.upper (query row))) eqn:Elimit.
  - split; [now left|]. intros _.
    destruct (row_len row >? 3); [|reflexivity].
    destruct (row_get row 3) as [t|]; [|reflexivity].
    destruct (t <? 10000); reflexivity.
  - destruct (Z.gtb_spec (row_len row) 3) as [Hlen|Hlen].
    + destruct (row_get row 3) as [t|] eqn:Eget.
      * destruct (Z.ltb_spec t 10000) as [Ht|Ht].
        -- split; [|reflexivity]. intros _. right. exists t. auto with zarith.
        -- split; [discriminate|].
           intros [H|(t' & _ & [= <-] & Ht')]; [discriminate | lia].
      * split; [discriminate|]. intros [H|(t' & _ & H & _)]; discriminate.
    + split; [discriminate|]. intros [H|(t' & H & _)]; [discriminate | lia].
Qed.

Lemma find_append {A : Type} (f : A -> bool) l1 l2 :
  List.find f (l1 ++ l2)%list
  = match List.find f l1 with
    | Some x => Some x
    | None => List.find f l2
    end.
Proof.
  induction l1 as [|x l1 IH]; simpl; [reflexivity|]. now destruct (f x).
Qed.

Lemma fold_classify_lookup rows (m0 : gmap string QueryType) id :
  fold_left (fun stats row => <[query_id row := classify_query row]> stats) rows m0
    !! id
  = match List.find (fun row => String.eqb (query_id row) id) (rev rows) with
    | Some row => Some (classify_query row)
    | None => m0 !! id
    end.
Proof.
  revert m0; induction rows as [|row rows IH]; intros m0; simpl; [reflexivity|].
  rewrite IH, find_append.
  destruct (List.find (fun row => String.eqb (query_id row) id) (rev rows));
    [reflexivity|].
  simpl. destruct (String.eqb_spec (query_id row) id) as [->|Hne].
  - apply lookup_insert_eq.
  - now apply lookup_insert_ne.
Qed.

(** X1: on a log whose query texts are ASCII, every logged query gets an
    entry; an entry belongs to a row of the log, the last one with that
    query_id; the query is interactive exactly when its text holds LIMIT (in
    any letter case) or its execution time is present and under 10000 ms,
    and its priority is 2 then and 1 otherwise. *)
Theorem analyze_query_types_spec rows :
  (forall row, In row rows -> ascii_text (query row) = true) ->
  let stats := analyze_query_types (Some rows) in
  (forall row, In row rows -> is_Some (stats !! query_id row))
  /\ (forall id qt,
         stats !! id = Some qt ->
         exists row,
           In row rows /\ query_id row = id /\ qt = classify_query row
           /\ (is_interactive qt = true
               <-> occurs_ignoring_case "LIMIT" (query row)
                   \/ exists t, 3 < row_len row /\ row_get row 3 = Some t
                                /\ t < 10000)
           /\ partition_priority qt = (if is_interactive qt then 2 else 1)%Q)
  /\ (forall before row after,
         rows = (before ++ row :: after)%list ->
         ~ In (query_id row) (List.map query_id after) ->
         stats !! query_id row = Some (classify_query row)).
Proof.
  intros _ stats.
  assert (forall id,
             stats !! id
             = match List.find (fun row => String.eqb (query_id row) id) (rev rows) with
               | Some row => Some (classify_query row)
               | None => None
               end) as Hlookup.
  { intros id. subst stats. destruct rows as [|row rows]; [reflexivity|].
    unfold analyze_query_types. rewrite fold_classify_lookup.
    now rewrite lookup_empty. }
  split; [|split].
  - intros row Hin. rewrite Hlookup.
    destruct (List.find _ (rev rows)) as [r|] eqn:E; [eauto|].
    exfalso. apply in_rev in Hin. pose proof (find_none _ _ E row Hin) as Hnone.
    simpl in Hnone. now rewrite String.eqb_refl in Hnone.
  - intros id qt. rewrite Hlookup.
    destruct (List.find _ (rev rows)) as [r|] eqn:E; [|discriminate].
    intros [= <-]. apply find_some in E as [Hin Hid].
    apply String.eqb_eq in Hid. apply in_rev in Hin.
    exists r. repeat split; try assumption; apply classify_query_spec.
  - intros before row after -> Hafter. rewrite Hlookup.
    rewrite rev_app_distr. simpl rev. rewrite <- app_assoc, find_append.
    destruct (List.find _ (rev after)) as [r|] eqn:E.
    + apply find_some in E as [Hin Hid]. apply String.eqb_eq in Hid.
      exfalso. apply Hafter. rewrite <- Hid. apply in_map. now apply in_rev.
    + simpl. now rewrite String.eqb_refl.
Qed.

Lemma analyze_query_types_spec_witness :
  is_interactive <$> analyze_query_types (Some zero_input_batch) !! "q3" = Some false
  /\ is_interactive <$> analyze_query_types (Some zero_input_batch) !! "q1" = Some true.
Proof.
  assert (forall row, In row zero_input_batch -> ascii_text (query row) = true)
    as Hascii by (intros row [<-|[<-|[<-|[]]]]; reflexivity).
  pose proof (proj2 (proj2 (analyze_query_types_spec zero_input_batch Hascii)))
    as H.
  cbv zeta in H. split.
  - change "q3" with (query_id short_row).
    rewrite (H [heavy_row; light_row] short_row [] eq_refl); [reflexivity|].
    simpl. tauto.
  - change "q1" with (query_id heavy_row).
    rewrite (H [] heavy_row [light_row; short_row] eq_refl); [reflexivity|].
    simpl. intros [E|[E|[]]]; discriminate.
Defined.

Example limit_inside_a_word_counts :
  is_interactive
    (classify_query (mkRow "q" "SELECT unlimited FROM plans" "2024-01-01" []))
  = true.
Proof. reflexivity. Qed.

(** ** The text [extract_select_statement] returns *)

Lemma append_cons c a b : String c a ++ b = String c (a ++ b).
Proof. reflexivity. Qed.

Lemma drop_part n s : exists a, s = a ++ PyStr.drop n s.
Proof.
  revert s; induction n as [|n IH]; intros s; [now exists ""|].
  destruct s as [|c s]; [now exists ""|].
  destruct (IH s) as [a Ha]. exists (String c a).
  rewrite append_cons. simpl PyStr.drop. f_equal. exact Ha.
Qed.

Lemma lstrip_part chars s : exists a, s = a ++ PyStr.lstrip chars s.
Proof.
  induction s as [|c s IH]; [now exists ""|]. simpl.
  destruct (PyStr.mem c chars); [|now exists ""].
  destruct IH as [a Ha]. exists (String c a). rewrite append_cons. f_equal. exact Ha.
Qed.

Lemma rstrip_part chars s : exists b, s = PyStr.rstrip chars s ++ b.
Proof.
  induction s as [|c s IH]; [now exists ""|]. simpl.
  destruct IH as [b Hb].
  destruct (PyStr.rstrip chars s) as [|d r] eqn:E.
  - destruct (PyStr.mem c chars).
    + exists (String c s). reflexivity.
    + exists b. rewrite append_cons. f_equal. exact Hb.
  - exists b. rewrite append_cons. f_equal. exact Hb.
Qed.

Lemma lstrip_first chars s c :
  first_char (PyStr.lstrip chars s) = Some c -> PyStr.mem c chars = false.
Proof.
  induction s as [|d s IH]; simpl; [discriminate|].
  destruct (PyStr.mem d chars) eqn:E; [assumption|]. simpl. now intros [= <-].
Qed.

Lemma rstrip_first chars s c :
  first_char (PyStr.rstrip chars s) = Some c -> first_char s = Some c.
Proof.
  destruct s as [|d s]; simpl; [discriminate|].
  destruct (PyStr.rstrip chars s); [destruct (PyStr.mem d chars)|]; simpl;
    congruence.
Qed.

Lemma rstrip_last chars s c :
  last_char (PyStr.rstrip chars s) = Some c -> PyStr.mem c chars = false.
Proof.
  induction s as [|d s IH]; simpl; [discriminate|].
  destruct (PyStr.rstrip chars s) as [|e r] eqn:E.
  - destruct (PyStr.mem d chars) eqn:Ed; simpl; [discriminate|]. now intros [= <-].
  - intros H. apply IH. exact H.
Qed.

Lemma not_stripped c :
  PyStr.mem c strip_chars = false ->
  c <> " "%char /\ c <> ascii_of_nat 10 /\ c <> ";"%char.
Proof.
  unfold strip_chars. simpl. intros H.
  repeat split; intros ->; simpl in H; discriminate.
Qed.

(** X2: the text returned is a contiguous part of the DDL, in its own
    letter case, and neither its first nor its last character is a space, a
    newline or a semicolon. *)
Theorem extracted_statement_is_trimmed_part ddl q :
  extract_select_statement ddl = Some q ->
  (exists before after, ddl = before ++ q ++ after)
  /\ (forall c, first_char q = Some c ->
                c <> " "%char /\ c <> ascii_of_nat 10 /\ c <> ";"%char)
  /\ (forall c, last_char q = Some c ->
                c <> " "%char /\ c <> ascii_of_nat 10 /\ c <> ";"%char).
Proof.
  unfold extract_select_statement.
  destruct (negb (PyStr.find (PyStr.upper ddl) marker =? -1)); [|discriminate].
  intros [= <-]. unfold PyStr.strip.
  set (suffix := PyStr.slice_from ddl _).
  split; [|split].
  - assert (exists a, ddl = a ++ suffix) as [a Ha].
    { subst suffix. unfold PyStr.slice_from. destruct (_ <? 0); apply drop_part. }
    destruct (lstrip_part strip_chars suffix) as [a' Ha'].
    destruct (rstrip_part strip_chars (PyStr.lstrip strip_chars suffix)) as [b Hb].
    exists (a ++ a'), b. rewrite Ha at 1. rewrite Ha' at 1. rewrite Hb at 1.
    generalize (PyStr.rstrip strip_chars (PyStr.lstrip strip_chars suffix) ++ b).
    clear. intros x. induction a as [|c a IH]; [reflexivity|].
    rewrite !append_cons. now rewrite IH.
  - intros c Hc. apply not_stripped.
    apply rstrip_first in Hc. now apply lstrip_first in Hc.
  - intros c Hc. apply not_stripped. now apply rstrip_last in Hc.
Qed.

Lemma extracted_statement_is_trimmed_part_witness :
  exists before after,
    sales_ddl = before ++ sales_select ++ after.
Proof.
  exact (proj1 (extracted_statement_is_trimmed_part sales_ddl sales_select
                  eq_refl)).
Defined.

Example only_separators_after_marker :
  extract_select_statement ("CREATE VIEW v AS ; ;" ++ newline) = Some "".
Proof. reflexivity. Qed.

(** ** [parse_underlying_query]: what is counted *)

Lemma count_columns_names e c :
  count_columns e c
  = fold_left count_one (List.map name (find_all exp.Column e)) c.
Proof.
  unfold count_columns. generalize (find_all exp.Column e). intros l.
  revert c; induction l as [|x l IH]; intros c; simpl; [reflexivity | apply IH].
Qed.

Lemma join_columns_names joins c :
  fold_left
    (fun c join =>
       match args_get "on" join with
       | Some on => count_columns on c
       | None => c
       end) joins c
  = fold_left count_one
      (flat_map
         (fun join =>
            match args_get "on" join with
            | Some on => List.map name (find_all exp.Column on)
            | None => []
            end) joins) c.
Proof.
  revert c; induction joins as [|join joins IH]; intros c; simpl; [reflexivity|].
  rewrite fold_left_app, IH.
  destruct (args_get "on" join); [now rewrite count_columns_names | reflexivity].
Qed.

(** X3: the function returns [None] exactly when the marker is missing, the
    text after it is empty, or the parser rejects it. Otherwise
    join_columns counts, per name, the column references under the ON
    conditions of the joins, and where_columns those under the WHERE clause;
    a name is a key only if it is referenced, and a join without ON adds
    nothing. *)
Theorem parse_underlying_query_counts parse_one ddl :
  (parse_underlying_query parse_one ddl = None
   <-> extract_select_statement ddl = None
       \/ extract_select_statement ddl = Some ""
       \/ exists q, extract_select_statement ddl = Some q /\ parse_one q = None)
  /\ (forall u,
         parse_underlying_query parse_one ddl = Some u ->
         exists q parsed,
           extract_select_statement ddl = Some q /\ parse_one q = Some parsed
           /\ tables u = List.map table_label (find_all exp.Table parsed)
           /\ join_columns u = Counter_of (on_column_names parsed)
           /\ where_columns u = Counter_of (where_column_names parsed)
           /\ (forall c,
                  counter_get c (join_columns u)
                  = Z.of_nat (count_occ string_dec (on_column_names parsed) c))
           /\ (forall c,
                  counter_get c (where_columns u)
                  = Z.of_nat (count_occ string_dec (where_column_names parsed) c))
           /\ (forall c,
                  In c (List.map fst (join_columns u))
                  <-> In c (on_column_names parsed))).
Proof.
  unfold parse_underlying_query.
  destruct (extract_select_statement ddl) as [[|a q]|] eqn:Hextract.
  - split; [|discriminate]. split; auto.
  - destruct (parse_one (String a q)) as [parsed|] eqn:Hparse.
    + split.
      * split; [discriminate|].
        intros [H|[H|(q' & [= <-] & H)]]; congruence.
      * intros u [= <-]. exists (String a q), parsed. cbn [tables join_columns where_columns].
        assert (fold_left
                  (fun c join =>
                     match args_get "on" join with
                     | Some on => count_columns on c
                     | None => c
                     end) (find_all exp.Join parsed) []
                = Counter_of (on_column_names parsed)) as Hjoin
          by apply join_columns_names.
        assert (match args_get "where" parsed with
                | Some where_ => count_columns where_ []
                | None => []
                end = Counter_of (where_column_names parsed)) as Hwhere.
        { unfold where_column_names.
          destruct (args_get "where" parsed); [apply count_columns_names | reflexivity]. }
        rewrite Hjoin, Hwhere.
        split; [reflexivity|]. split; [exact Hparse|].
        do 3 (split; [reflexivity|]).
        split; [|split]; intros c; unfold Counter_of.
        -- now rewrite fold_counter_get.
        -- now rewrite fold_counter_get.
        -- rewrite fold_counter_keys. simpl. tauto.
    + split; [|discriminate]. split; [|reflexivity]. intros _.
      right. right. exists (String a q). auto.
  - split; [|discriminate]. split; auto.
Qed.

Lemma parse_underlying_query_counts_witness :
  exists u,
    parse_underlying_query sample_parse_one sales_ddl = Some u
    /\ counter_get "region" (join_columns u) = 2
    /\ counter_get "amount" (join_columns u) = 0.
Proof.
  eexists. split; [reflexivity|].
  destruct (proj2 (parse_underlying_query_counts sample_parse_one sales_ddl) _ eq_refl)
    as (q & parsed & Hq & Hparse & _ & _ & _ & Hjoin & _).
  vm_compute in Hq. injection Hq as <-.
  vm_compute in Hparse. injection Hparse as <-.
  split; rewrite Hjoin; reflexivity.
Defined.

(** ** The frequencies [aggregate_column_usage] computes *)

Lemma count_occ_flat_map {A : Type} (f : A -> list string) l x :
  occurrences x (flat_map f l) = zsum (List.map (fun a => occurrences x (f a)) l).
Proof.
  unfold occurrences. induction l as [|a l IH]; simpl; [reflexivity|].
  rewrite count_occ_app, Nat2Z.inj_add, IH. reflexivity.
Qed.

Lemma occurrences_app x l1 l2 :
  occurrences x (l1 ++ l2)%list = occurrences x l1 + occurrences x l2.
Proof. unfold occurrences. rewrite count_occ_app. lia. Qed.

Lemma occurrences_list_mul x l n :
  occurrences x (list_mul l n) = occurrences x l * Z.max 0 n.
Proof.
  unfold list_mul.
  assert (forall k, occurrences x (List.concat (repeat l k))
                    = occurrences x l * Z.of_nat k) as H.
  { induction k as [|k IH]; simpl; [unfold occurrences; simpl; lia|].
    rewrite occurrences_app, IH. lia. }
  rewrite H. lia.
Qed.

Lemma occurrences_join_emissions x (c : Counter) :
  List.NoDup (List.map fst c) ->
  occurrences x (flat_map (fun '(col, cnt) => list_mul [col] cnt) c)
  = Z.max 0 (counter_get x c).
Proof.
  induction c as [|[k n] c IH]; simpl; intros Hnd; [reflexivity|].
  inversion Hnd as [|? ? Hk Hnd']; subst.
  rewrite occurrences_app, occurrences_list_mul.
  destruct (String.eqb_spec x k) as [->|Hne].
  - assert (occurrences k (flat_map (fun '(col, cnt) => list_mul [col] cnt) c) = 0)
      as ->.
    { unfold occurrences.
      rewrite (proj1 (count_occ_not_In string_dec _ k)); [reflexivity|].
      intros Hin. apply in_flat_map in Hin as ([k' n'] & Hin & Hk').
      unfold list_mul in Hk'. apply in_concat in Hk' as (l & Hl & Hkl).
      apply repeat_spec in Hl. subst l. destruct Hkl as [->|[]].
      apply Hk. apply (in_map fst) in Hin. exact Hin. }
    unfold occurrences. simpl. destruct (string_dec k k); [lia | congruence].
  - rewrite IH by assumption. unfold occurrences. simpl.
    destruct (string_dec k x); [congruence | lia].
Qed.

Lemma parsed_join_columns_counter parse_one d stats :
  parse_underlying_query parse_one d = Some stats ->
  exists l, join_columns stats = Counter_of l.
Proof.
  unfold parse_underlying_query.
  destruct (extract_select_statement d) as [[|a q]|]; try discriminate.
  destruct (parse_one (String a q)) as [parsed|]; [|discriminate].
  intros [= <-]. exists (on_column_names parsed). apply join_columns_names.
Qed.

Lemma view_emissions_occurrences parse_one v x :
  occurrences x (view_emissions parse_one v)
  = occurrences x (columns v) * Z.max 0 (query_count v) + join_count parse_one v x.
Proof.
  unfold view_emissions, extend_with_view, join_count.
  destruct (ddl v) as [[|a d]|];
    try (simpl; rewrite occurrences_list_mul; lia).
  destruct (parse_underlying_query parse_one (String a d)) as [stats|] eqn:E;
    [|simpl; rewrite occurrences_list_mul; lia].
  rewrite fold_left_join_columns. simpl app.
  rewrite occurrences_app, occurrences_list_mul.
  destruct (parsed_join_columns_counter _ _ _ E) as [l Hl].
  rewrite occurrences_join_emissions by (rewrite Hl; apply Counter_of_nodup).
  rewrite Hl. unfold Counter_of. rewrite fold_counter_get. simpl. lia.
Qed.

Lemma log_emissions_occurrences parse_one row x :
  occurrences x (log_emissions parse_one row) = table_references parse_one row x.
Proof.
  unfold log_emissions, extend_with_log, table_references.
  destruct (parse_one (query row)) as [parsed|]; [|reflexivity].
  rewrite (fold_left_extend (fun node => [name node])). simpl app.
  assert (forall l : list Expression,
             flat_map (fun node => [name node]) l = List.map name l) as ->;
    [|reflexivity].
  induction l as [|n l IH]; simpl; [reflexivity | now rewrite IH].
Qed.

Lemma base_weight_counter_get df column :
  base_weight df column = counter_get column df.
Proof.
  unfold base_weight. induction df as [|[k n] df IH]; simpl; [reflexivity|].
  rewrite String.eqb_sym. destruct (String.eqb column k); [reflexivity | exact IH].
Qed.

Lemma aggregate_counter_get parse_one vd logs column :
  counter_get column (aggregate_column_usage parse_one vd logs)
  = occurrences column (weighted_columns_of parse_one vd logs).
Proof.
  unfold aggregate_column_usage.
  rewrite <- (counter_get_perm (Counter_of (weighted_columns_of parse_one vd logs))
                (sort_values (Counter_of (weighted_columns_of parse_one vd logs))));
    [|apply Counter_of_nodup | symmetry; apply sort_values_perm].
  unfold Counter_of. rewrite fold_counter_get. reflexivity.
Qed.

(** X4: the frequency of a column in the returned table, which is also the
    base weight the scorer reads for it, is the sum over the views of its
    occurrences among the view's columns times the query_count (a negative
    one counting as 0) plus its count among the join columns of the view's
    DDL, plus the number of table references of that name in the log. Names
    are not scoped: views and log tables add to the same entry. *)
Theorem weighted_frequency_formula parse_one view_data query_log_data column :
  counter_get column (aggregate_column_usage parse_one view_data query_log_data)
  = weighted_frequency parse_one view_data query_log_data column
  /\ base_weight (aggregate_column_usage parse_one view_data query_log_data) column
     = weighted_frequency parse_one view_data query_log_data column.
Proof.
  assert (counter_get column
            (aggregate_column_usage parse_one view_data query_log_data)
          = weighted_frequency parse_one view_data query_log_data column) as H.
  { rewrite aggregate_counter_get, weighted_columns_emissions, occurrences_app,
      !count_occ_flat_map.
    unfold weighted_frequency. f_equal.
    - f_equal. apply map_ext. intros v. apply view_emissions_occurrences.
    - f_equal. apply map_ext. intros row. apply log_emissions_occurrences. }
  split; [exact H|]. now rewrite base_weight_counter_get.
Qed.

Example sales_frequency_of_region :
  weighted_frequency sample_parse_one [sales_view] (Some [heavy_row]) "region" = 3
  /\ weighted_frequency sample_parse_one [sales_view] (Some [heavy_row]) "orders" = 1.
Proof. split; reflexivity. Qed.

(** X5: the table has one row per emitted name and none else; every
    frequency in it is at least 1. *)
Theorem frequency_rows_are_positive parse_one view_data query_log_data :
  let table := aggregate_column_usage parse_one view_data query_log_data in
  (forall column n, In (column, n) table -> 1 <= n)
  /\ (forall column,
         In column (List.map fst table)
         <-> In column (weighted_columns_of parse_one view_data query_log_data))
  /\ (table = []
      <-> weighted_columns_of parse_one view_data query_log_data = []).
Proof.
  intros table.
  set (w := weighted_columns_of parse_one view_data query_log_data).
  assert (forall column n,
             In (column, n) table
             <-> In column w /\ n = Z.of_nat (count_occ string_dec w column))
    as Hrows.
  { intros column n. subst table. unfold aggregate_column_usage. fold w.
    rewrite <- Counter_of_rows. split; apply Permutation_in;
      [apply sort_values_perm | symmetry; apply sort_values_perm]. }
  split; [|split].
  - intros column n Hin. apply Hrows in Hin as [Hin ->].
    apply (count_occ_In string_dec) in Hin. lia.
  - intros column. split.
    + intros Hin. apply in_map_iff in Hin as ([c n] & <- & Hin).
      now apply Hrows in Hin.
    + intros Hin. apply in_map_iff. exists (column, Z.of_nat (count_occ string_dec w column)).
      split; [reflexivity|]. now apply Hrows.
  - split.
    + intros Hnil. destruct w as [|x w'] eqn:Ew; [reflexivity|]. exfalso.
      assert (In (x, Z.of_nat (count_occ string_dec (x :: w') x)) table) as Hin
        by (apply Hrows; split; [now left | reflexivity]).
      rewrite Hnil in Hin. destruct Hin.
    + intros Hnil. destruct table as [|[c n] t] eqn:Et; [reflexivity|]. exfalso.
      assert (In (c, n) ((c, n) :: t)) as Hin by now left.
      apply Hrows in Hin as [Hin _]. rewrite Hnil in Hin. destruct Hin.
Qed.

Lemma frequency_rows_are_positive_witness :
  In "region" (List.map fst (aggregate_column_usage sample_parse_one [sales_view] None)).
Proof.
  apply (proj1 (proj2 (frequency_rows_are_positive sample_parse_one [sales_view] None))).
  vm_compute. tauto.
Defined.

(** ** Bounds on the score *)

Lemma cardinality_bonus_range c : (0 <= cardinality_bonus c <= 10)%Q.
Proof.
  unfold cardinality_bonus. destruct c as [c|]; [|split; discriminate].
  repeat match goal with |- context [if ?b then _ else _] => destruct b end;
    split; discriminate.
Qed.

Lemma performance_bonus_cap pm view column :
  (performance_bonus pm view column <= 50)%Q.
Proof.
  unfold performance_bonus. destruct (pm !! view) as [e|]; [|discriminate].
  destruct (pm_columns e !! column) as [w|]; [|discriminate].
  apply Q.le_min_r.
Qed.

(** X6: the score is the base weight plus a cardinality term between 0 and
    10 and a performance term of at most 50, whatever the accumulated time;
    so it exceeds the base weight by at most 60. When the time accumulated
    for the column is not negative, the performance term is not negative
    and the score is at least the base weight. *)
Theorem partition_score_bounds column view cs pm gs :
  (calculate_partition_score column view cs pm gs
   == inject_Z (base_weight gs column) + cardinality_bonus (get2 view column cs)
      + performance_bonus pm view column)%Q
  /\ (0 <= cardinality_bonus (get2 view column cs) <= 10)%Q
  /\ (performance_bonus pm view column <= 50)%Q
  /\ (calculate_partition_score column view cs pm gs
      <= inject_Z (base_weight gs column) + 60)%Q
  /\ ((forall e w,
          pm !! view = Some e -> pm_columns e !! column = Some w -> 0 <= w) ->
      (0 <= performance_bonus pm view column)%Q
      /\ (inject_Z (base_weight gs column)
          <= calculate_partition_score column view cs pm gs)%Q).
Proof.
  pose proof (score_decomposition column view cs pm gs) as Hscore.
  pose proof (cardinality_bonus_range (get2 view column cs)) as Hcard.
  pose proof (performance_bonus_cap pm view column) as Hperf.
  split; [assumption|]. split; [assumption|]. split; [assumption|].
  split; [lra|]. intros Hnonneg.
  assert (0 <= performance_bonus pm view column)%Q; [|split; [assumption | lra]].
  unfold performance_bonus. destruct (pm !! view) as [e|] eqn:Ee; [|discriminate].
  destruct (pm_columns e !! column) as [w|] eqn:Ew; [|discriminate].
  apply Q.min_glb; [|discriminate].
  specialize (Hnonneg e w eq_refl Ew).
  apply Qle_shift_div_l; [reflexivity|].
  rewrite Qmult_0_l. change 0%Q with (inject_Z 0). now rewrite <- Zle_Qle.
Qed.

(** A view with a recorded cardinality of 50 for the column and 2000 ms
    accumulated on it: the score is 3 + 10 + 2. *)
Lemma partition_score_bounds_witness :
  let cs : gmap string (gmap string Z) := {[ "db.sales" := {[ "region" := 50 ]} ]} in
  let pm : gmap string PerfEntry :=
    {[ "db.sales" := mkPerf 2000 1 {[ "region" := 2000 ]} ]} in
  (0 <= performance_bonus pm "db.sales" "region")%Q
  /\ (inject_Z (base_weight [("region", 3%Z)] "region")
      <= calculate_partition_score "region" "db.sales" cs pm [("region", 3%Z)])%Q.
Proof.
  intros cs pm.
  apply (proj2 (proj2 (proj2 (proj2
           (partition_score_bounds "region" "db.sales" cs pm [("region", 3)]))))).
  intros e w He Hw. vm_compute in He. injection He as <-.
  vm_compute in Hw. injection Hw as <-. lia.
Defined.

Example partition_score_of_region :
  (calculate_partition_score "region" "db.sales"
     {[ "db.sales" := {[ "region" := 50%Z ]} ]}
     {[ "db.sales" := mkPerf 2000%Z 1%Z {[ "region" := 2000%Z ]} ]}
     [("region", 3%Z)] == 15)%Q.
Proof. vm_compute. reflexivity. Qed.

(** ** [generate_iceberg_partition_spec]: the other branches *)

(** X7: a date or timestamp column is transformed by its granularity, day,
    month or year, and by month when the granularity is absent or is any
    other text; a varchar, string or char column is bucketed by 16 above
    cardinality 10000 and left as it is otherwise; a column of any type
    outside the seven names is left as it is. Type names are compared as
    written: an upper-case name falls in the last case. *)
Theorem date_string_and_default_transforms column column_type stats :
  (column_type = "date" \/ column_type = "timestamp" ->
   generate_iceberg_partition_spec column column_type stats
   = match date_granularity stats with
     | Some "day" => "day(" ++ column ++ ")"
     | Some "year" => "year(" ++ column ++ ")"
     | _ => "month(" ++ column ++ ")"
     end)
  /\ (column_type = "varchar" \/ column_type = "string" \/ column_type = "char" ->
      generate_iceberg_partition_spec column column_type stats
      = if default 0 (cardinality stats) >? 10000
        then "bucket(16, " ++ column ++ ")" else column)
  /\ (~ In column_type
        ["date"; "timestamp"; "varchar"; "string"; "char"; "integer"; "bigint"] ->
      generate_iceberg_partition_spec column column_type stats = column).
Proof.
  split; [|split].
  - intros [-> | ->]; unfold generate_iceberg_partition_spec; simpl one_of; cbv iota;
      destruct (date_granularity stats) as [g|]; try reflexivity;
      destruct (String.eqb_spec g "day") as [->|Hday]; try reflexivity;
      destruct (String.eqb_spec g "month") as [->|Hmonth]; try reflexivity;
      destruct (String.eqb_spec g "year") as [->|Hyear]; try reflexivity;
      repeat (destruct g as [|[[] [] [] [] [] [] [] []] g]; try reflexivity;
              try congruence).
  - intros [-> | [-> | ->]]; reflexivity.
  - intros Hnot. unfold generate_iceberg_partition_spec, one_of. simpl existsb.
    repeat match goal with
           | |- context [String.eqb column_type ?t] =>
               destruct (String.eqb_spec column_type t) as [->|?];
               [exfalso; apply Hnot; simpl; tauto|]
           end.
    reflexivity.
Qed.

Lemma date_string_and_default_transforms_witness :
  generate_iceberg_partition_spec "ts" "date" (mkStats None None (Some "weekly"))
  = "month(ts)"
  /\ generate_iceberg_partition_spec "name" "char" (mkStats (Some 10000) None None)
     = "name"
  /\ generate_iceberg_partition_spec "id" "INTEGER" (mkStats (Some 5000) None None)
     = "id".
Proof.
  split; [|split].
  - apply (proj1 (date_string_and_default_transforms "ts" "date"
                    (mkStats None None (Some "weekly")))). now left.
  - apply (proj1 (proj2 (date_string_and_default_transforms "name" "char"
                           (mkStats (Some 10000) None None)))). auto.
  - apply (proj2 (proj2 (date_string_and_default_transforms "id" "INTEGER"
                           (mkStats (Some 5000) None None)))).
    simpl. intros [H|[H|[H|[H|[H|[H|[H|[]]]]]]]]; discriminate.
Defined.

(** X8: whatever the type and the statistics, the result is the column
    itself or one of six transforms of it: day, month, year, a bucket of 16,
    a bucket whose count lies between 4 and 32, or a truncation to 100. *)
Theorem transform_shapes column column_type stats :
  let spec := generate_iceberg_partition_spec column column_type stats in
  spec = column
  \/ spec = "day(" ++ column ++ ")"
  \/ spec = "month(" ++ column ++ ")"
  \/ spec = "year(" ++ column ++ ")"
  \/ spec = "bucket(16, " ++ column ++ ")"
  \/ (exists n, 4 <= n <= 32
                /\ spec = "bucket(" ++ PyStr.of_Z n ++ ", " ++ column ++ ")")
  \/ spec = "truncate(" ++ column ++ ", 100)".
Proof.
  unfold generate_iceberg_partition_spec.
  destruct (one_of column_type ["date"; "timestamp"]).
  - destruct (date_granularity stats) as [g|]; [|tauto].
    destruct (String.eqb g "day"); [tauto|].
    destruct (String.eqb g "month"); [tauto|].
    destruct (String.eqb g "year"); tauto.
  - destruct (one_of column_type ["varchar"; "string"; "char"]).
    + cbv zeta. destruct (_ >? 10000); tauto.
    + destruct (one_of column_type ["integer"; "bigint"]); [|tauto].
      cbv zeta. destruct (_ >? 1000).
      * do 5 right. left. eexists. split; [|reflexivity]. lia.
      * destruct (Qgt_bool _ _); tauto.
Qed.

(** ** The sums [analyze_query_performance] accumulates *)

Lemma zsum_nonneg l : (forall z, In z l -> 0 <= z) -> 0 <= zsum l.
Proof.
  induction l as [|z l IH]; simpl; intros H; [lia|].
  specialize (H z (or_introl eq_refl)) as Hz.
  assert (0 <= zsum l) by (apply IH; intros y Hy; apply H; now right). lia.
Qed.

Lemma entry_of_ensure_table tb (pm : gmap string PerfEntry) x :
  entry_of (ensure_table tb pm) x = entry_of pm x.
Proof.
  unfold entry_of, ensure_table. destruct (pm !! tb) eqn:E; [reflexivity|].
  destruct (decide (tb = x)) as [<-|Hne].
  - now rewrite lookup_insert_eq, E.
  - now rewrite lookup_insert_ne.
Qed.

Lemma ensure_table_present tb (pm : gmap string PerfEntry) :
  is_Some (ensure_table tb pm !! tb).
Proof.
  unfold ensure_table. destruct (pm !! tb) eqn:E; [rewrite E; eauto|].
  rewrite lookup_insert_eq. eauto.
Qed.

Lemma entry_of_alter (f : PerfEntry -> PerfEntry) tb (pm : gmap string PerfEntry) x :
  is_Some (pm !! tb) ->
  entry_of (alter f tb pm) x
  = if decide (tb = x) then f (entry_of pm x) else entry_of pm x.
Proof.
  intros [e He]. unfold entry_of. destruct (decide (tb = x)) as [<-|Hne].
  - now rewrite lookup_alter_eq, He.
  - now rewrite lookup_alter_ne.
Qed.

Lemma alter_present (f : PerfEntry -> PerfEntry) tb (pm : gmap string PerfEntry) :
  is_Some (pm !! tb) -> is_Some (alter f tb pm !! tb).
Proof. intros [e He]. rewrite lookup_alter_eq, He. simpl. eauto. Qed.

Lemma fold_alter_present tb columns t (pm : gmap string PerfEntry) :
  is_Some (pm !! tb) ->
  is_Some (fold_left (fun pm col => alter (add_column_time col t) tb pm) columns pm
             !! tb).
Proof.
  revert pm; induction columns as [|col columns IH]; intros pm H; simpl;
    [assumption|].
  apply IH. now apply alter_present.
Qed.

Lemma entry_of_fold_alter tb columns t (pm : gmap string PerfEntry) x :
  is_Some (pm !! tb) ->
  entry_of (fold_left (fun pm col => alter (add_column_time col t) tb pm) columns pm) x
  = if decide (tb = x)
    then fold_left (fun e col => add_column_time col t e) columns (entry_of pm x)
    else entry_of pm x.
Proof.
  revert pm; induction columns as [|col columns IH]; intros pm H; simpl.
  - now destruct (decide (tb = x)).
  - rewrite IH by now apply alter_present.
    rewrite entry_of_alter by assumption.
    now destruct (decide (tb = x)).
Qed.

Lemma add_column_times columns t e :
  let e' := fold_left (fun e col => add_column_time col t e) columns e in
  pm_execution_time e' = pm_execution_time e
  /\ pm_query_count e' = pm_query_count e
  /\ forall col, default 0 (pm_columns e' !! col)
                 = default 0 (pm_columns e !! col) + t * occurrences col columns.
Proof.
  revert e; induction columns as [|c columns IH]; intros e; simpl.
  - repeat split; intros; unfold occurrences; simpl; lia.
  - destruct (IH (add_column_time c t e)) as (He & Hq & Hc). simpl in He, Hq.
    split; [exact He|]. split; [exact Hq|]. intros col. rewrite Hc.
    unfold add_column_time at 1. cbn [pm_columns]. unfold occurrences. simpl.
    destruct (string_dec c col) as [->|Hne].
    + rewrite lookup_insert_eq. simpl. lia.
    + rewrite lookup_insert_ne by assumption. lia.
Qed.

(** One query: every occurrence of a table name in it adds the time, one
    query, and the time once per occurrence of each column name. *)
Lemma correlate_sums tables columns t pm x :
  let e := entry_of pm x in
  let e' := entry_of (correlate tables columns (Some t) pm) x in
  pm_execution_time e' = pm_execution_time e + t * occurrences x tables
  /\ pm_query_count e' = pm_query_count e + occurrences x tables
  /\ forall col,
       default 0 (pm_columns e' !! col)
       = default 0 (pm_columns e !! col)
         + t * occurrences x tables * occurrences col columns.
Proof.
  revert pm; induction tables as [|tb tables IH]; intros pm; cbn zeta.
  - simpl. unfold occurrences. simpl. repeat split; intros; lia.
  - cbn [correlate].
    set (pm1 := ensure_table tb pm).
    set (pm2 := alter (add_execution_time t) tb pm1).
    set (pm3 := alter add_query_count tb pm2).
    set (pm4 := fold_left
                  (fun pm col => alter (add_column_time col t) tb pm) columns pm3).
    assert (is_Some (pm1 !! tb)) as H1 by apply ensure_table_present.
    assert (is_Some (pm2 !! tb)) as H2 by now apply alter_present.
    assert (is_Some (pm3 !! tb)) as H3 by now apply alter_present.
    destruct (IH pm4) as (He & Hq & Hc). cbn zeta in He, Hq, Hc.
    assert (entry_of pm4 x
            = if decide (tb = x)
              then fold_left (fun e col => add_column_time col t e) columns
                     (add_query_count (add_execution_time t (entry_of pm x)))
              else entry_of pm x) as H4.
    { subst pm4. rewrite entry_of_fold_alter by assumption.
      subst pm3. rewrite entry_of_alter by assumption.
      subst pm2. rewrite entry_of_alter by assumption.
      subst pm1. rewrite entry_of_ensure_table.
      now destruct (decide (tb = x)). }
    rewrite He, Hq. setoid_rewrite Hc. rewrite H4.
    unfold occurrences. simpl count_occ.
    destruct (decide (tb = x)) as [->|Hne].
    + destruct (string_dec x x) as [_|]; [|congruence].
      destruct (add_column_times columns t
                  (add_query_count (add_execution_time t (entry_of pm x))))
        as (He' & Hq' & Hc').
      cbn zeta in He', Hq', Hc'. rewrite He', Hq'. setoid_rewrite Hc'.
      unfold occurrences. simpl. repeat split; intros; lia.
    + destruct (string_dec tb x) as [|_]; [congruence|].
      repeat split; intros; lia.
Qed.

Lemma correlate_row_sums parse_one cursor pm row x :
  let e := entry_of pm x in
  let e' := entry_of (correlate_row parse_one cursor pm row) x in
  match correlated parse_one cursor row with
  | Some (t, tables, columns) =>
      pm_execution_time e' = pm_execution_time e + t * occurrences x tables
      /\ pm_query_count e' = pm_query_count e + occurrences x tables
      /\ forall col,
           default 0 (pm_columns e' !! col)
           = default 0 (pm_columns e !! col)
             + t * occurrences x tables * occurrences col columns
  | None => e' = e
  end.
Proof.
  cbn zeta. unfold correlated, correlate_row.
  destruct (execution_time_ms cursor (query_id row)) as [| |[t|]]; try reflexivity;
    destruct (parse_one (query row)) as [parsed|]; try reflexivity.
  - apply correlate_sums.
  - destruct (List.map name (find_all exp.Table parsed)) as [|tb tables];
      [reflexivity|]. simpl. apply entry_of_ensure_table.
Qed.

Lemma fold_correlate_row_sums parse_one cursor rows pm x :
  let e := entry_of pm x in
  let e' := entry_of (fold_left (correlate_row parse_one cursor) rows pm) x in
  pm_execution_time e' = pm_execution_time e + table_time parse_one cursor rows x
  /\ pm_query_count e' = pm_query_count e + table_queries parse_one cursor rows x
  /\ forall col,
       default 0 (pm_columns e' !! col)
       = default 0 (pm_columns e !! col) + column_time parse_one cursor rows x col.
Proof.
  revert pm; induction rows as [|row rows IH]; intros pm; cbn zeta.
  - unfold table_time, table_queries, column_time. simpl.
    repeat split; intros; lia.
  - simpl fold_left. destruct (IH (correlate_row parse_one cursor pm row))
      as (He & Hq & Hc). cbn zeta in He, Hq, Hc.
    rewrite He, Hq. setoid_rewrite Hc.
    pose proof (correlate_row_sums parse_one cursor pm row x) as Hrow.
    cbn zeta in Hrow. unfold table_time, table_queries, column_time. simpl List.map.
    destruct (correlated parse_one cursor row) as [[[t tables] columns]|].
    + destruct Hrow as (He' & Hq' & Hc'). rewrite He', Hq'. setoid_rewrite Hc'.
      simpl zsum. repeat split; intros; lia.
    + rewrite Hrow. simpl zsum. repeat split; intros; lia.
Qed.

(** X9: for every table, the entry the analysis returns holds the sum, over
    the log rows whose time the cursor gives and whose text parses, of the
    time multiplied by the number of times the table is named in the text
    (execution_time), of that number (query_count), and of the time
    multiplied by that number and by the occurrences of a column name
    (columns): a table or a column named twice in a query counts twice.
    A table without entry has sums 0, and times that are not negative give
    sums that are not negative. *)
Theorem performance_metrics_are_sums parse_one cursor view_data rows table :
  let pm := analyze_query_performance parse_one cursor view_data (Some rows) in
  (forall e,
      pm !! table = Some e ->
      pm_execution_time e = table_time parse_one cursor rows table
      /\ pm_query_count e = table_queries parse_one cursor rows table
      /\ forall column,
           default 0 (pm_columns e !! column)
           = column_time parse_one cursor rows table column)
  /\ (pm !! table = None -> table_queries parse_one cursor rows table = 0)
  /\ ((forall row t tables columns,
          In row rows ->
          correlated parse_one cursor row = Some (t, tables, columns) -> 0 <= t) ->
      forall column, 0 <= column_time parse_one cursor rows table column).
Proof.
  intros pm.
  assert (pm = fold_left (correlate_row parse_one cursor) rows ∅) as Hpm
    by (subst pm; destruct rows; reflexivity).
  pose proof (fold_correlate_row_sums parse_one cursor rows ∅ table) as Hsums.
  cbn zeta in Hsums. rewrite <- Hpm in Hsums.
  unfold entry_of in Hsums at 2 4 6. rewrite lookup_empty in Hsums.
  simpl in Hsums. destruct Hsums as (He & Hq & Hc).
  split; [|split].
  - intros e Hlookup. unfold entry_of in He, Hq, Hc. rewrite Hlookup in He, Hq, Hc.
    simpl in He, Hq, Hc. repeat split; [lia | lia |]. intros column.
    rewrite Hc. rewrite lookup_empty. simpl. lia.
  - intros Hnone. unfold entry_of in Hq. rewrite Hnone in Hq. simpl in Hq. lia.
  - intros Hnonneg column. unfold column_time. apply zsum_nonneg.
    intros z Hz. apply in_map_iff in Hz as (row & <- & Hin).
    destruct (correlated parse_one cursor row) as [[[t tables] columns]|] eqn:E;
      [|lia].
    specialize (Hnonneg row t tables columns Hin E).
    unfold occurrences. nia.
Qed.

Lemma performance_metrics_are_sums_witness :
  exists e,
    analyze_query_performance sample_parse_one sample_cursor [sales_view]
      (Some [heavy_row; light_row]) !! "orders" = Some e
    /\ pm_execution_time e = 2000 /\ pm_query_count e = 1.
Proof.
  eexists. split; [vm_compute; reflexivity|].
  destruct (proj1 (performance_metrics_are_sums sample_parse_one sample_cursor
                     [sales_view] [heavy_row; light_row] "orders") _ eq_refl)
    as (He & Hq & _).
  split; [etransitivity; [exact He|] | etransitivity; [exact Hq|]]; reflexivity.
Defined.

(** ** The types and statistics behind a script *)

Lemma get2_set2 {V : Type} k1 k2 (v : V) d k1' k2' :
  get2 k1' k2' (set2 k1 k2 v d)
  = if decide (k1 = k1' /\ k2 = k2') then Some v else get2 k1' k2' d.
Proof.
  unfold get2, set2. destruct (decide (k1 = k1')) as [<-|Hne1].
  - rewrite lookup_insert_eq. simpl.
    destruct (decide (k2 = k2')) as [<-|Hne2].
    + rewrite lookup_insert_eq. now destruct (decide _) as [|[]].
    + rewrite lookup_insert_ne by assumption.
      destruct (decide _) as [[_ ?]|_]; [contradiction|].
      now destruct (d !! k1).
  - rewrite lookup_insert_ne by assumption.
    now destruct (decide _) as [[? _]|_].
Qed.

Section Gathering.
Variable cursor : option Cursor.
Variable cs : gmap string (gmap string Z).

Lemma gather_step_recorded fq_view column ts :
  gather_step cursor cs fq_view ts column
  = match recorded cursor cs fq_view column with
    | Some (type, stat) =>
        (set2 fq_view column type (fst ts), set2 fq_view column stat (snd ts))
    | None => ts
    end.
Proof.
  unfold gather_step, recorded, gather_column, single_dot, gathered_stats.
  destruct ts as [ct cst]. destruct cursor as [cur|]; [|reflexivity].
  destruct (PyStr.count_char "." fq_view =? 1)%nat; [|reflexivity]. simpl negb.
  cbv iota. destruct (describe cur fq_view column) as [| |type]; reflexivity.
Qed.

Lemma gather_step_settles fq_view column ts :
  settled_or_new cursor cs ts ->
  settled cursor cs (gather_step cursor cs fq_view ts column) fq_view column.
Proof.
  intros Hinv. rewrite gather_step_recorded. unfold settled.
  destruct (recorded cursor cs fq_view column) as [[type stat]|] eqn:E.
  - simpl. rewrite !get2_set2.
    destruct (decide _) as [_|[]]; [now split | now split].
  - destruct (Hinv fq_view column) as [[H1 H2]|H]; [|unfold settled in H; now rewrite E in H].
    now rewrite H1, H2.
Qed.

Lemma gather_step_keeps_settled fq_view column ts n c :
  settled cursor cs ts n c ->
  settled cursor cs (gather_step cursor cs fq_view ts column) n c.
Proof.
  intros [H1 H2]. rewrite gather_step_recorded. unfold settled.
  destruct (recorded cursor cs fq_view column) as [[type stat]|] eqn:E;
    [|now split].
  simpl. rewrite !get2_set2.
  destruct (decide (fq_view = n /\ column = c)) as [[<- <-]|_]; [|now split].
  now rewrite E.
Qed.

Lemma gather_step_invariant fq_view column ts :
  settled_or_new cursor cs ts ->
  settled_or_new cursor cs (gather_step cursor cs fq_view ts column).
Proof.
  intros Hinv n c.
  destruct (decide (fq_view = n /\ column = c)) as [[<- <-]|Hne].
  - right. now apply gather_step_settles.
  - destruct (Hinv n c) as [[H1 H2]|H]; [|right; now apply gather_step_keeps_settled].
    left. rewrite gather_step_recorded.
    destruct (recorded cursor cs fq_view column) as [[type stat]|]; [|now split].
    simpl. rewrite !get2_set2.
    destruct (decide (fq_view = n /\ column = c)); [contradiction | now split].
Qed.

Lemma fold_gather_step fq_view columns ts :
  settled_or_new cursor cs ts ->
  let ts' := fold_left (gather_step cursor cs fq_view) columns ts in
  settled_or_new cursor cs ts'
  /\ forall column, In column columns -> settled cursor cs ts' fq_view column.
Proof.
  revert ts; induction columns as [|col columns IH]; intros ts Hinv; cbn zeta;
    simpl fold_left.
  - split; [assumption | intros column []].
  - destruct (IH (gather_step cursor cs fq_view ts col)) as [Hinv' Hcols];
      [now apply gather_step_invariant|].
    split; [assumption|]. intros column [<-|Hin]; [|now apply Hcols].
    clear IH Hcols Hinv'.
    assert (settled cursor cs (gather_step cursor cs fq_view ts col) fq_view col)
      as Hs by now apply gather_step_settles.
    revert Hs. generalize (gather_step cursor cs fq_view ts col).
    induction columns as [|c columns IH]; intros ts' Hs; simpl; [assumption|].
    apply IH. now apply gather_step_keeps_settled.
Qed.
End Gathering.

Section ScriptClosedForm.
Variable repr_scores : list (string * Q) -> string.
Variable cursor : option Cursor.
Variable cs : gmap string (gmap string Z).
Variable pm : gmap string PerfEntry.
Variable gs : list (string * Z).
Variable top_n : Z.

Lemma score_columns_state v ts :
  snd (score_columns cursor cs pm gs v ts)
  = fold_left (gather_step cursor cs (fq_view v)) (columns v) ts.
Proof.
  unfold score_columns. generalize (@nil (string * Q)). revert ts.
  induction (columns v) as [|col cols IH]; intros ts acc; simpl; [reflexivity|].
  unfold gather_step at 2. destruct cursor as [c|]; apply IH.
Qed.

Lemma script_view_closed st v :
  settled_or_new cursor cs (column_types st, column_stats st) ->
  let st' := script_view repr_scores cursor cs pm gs top_n st v in
  settled_or_new cursor cs (column_types st', column_stats st')
  /\ partition_scripts st'
     = <[fq_view v := script_of repr_scores cursor cs pm gs top_n v]>
         (partition_scripts st).
Proof.
  intros Hinv. cbv zeta. unfold script_view.
  pose proof (score_columns_scores cursor cs pm gs v (column_types st, column_stats st))
    as Hfst.
  pose proof (score_columns_state v (column_types st, column_stats st)) as Hsnd.
  destruct (score_columns cursor cs pm gs v (column_types st, column_stats st))
    as [view_scores [ct cst]].
  simpl in Hfst, Hsnd. subst view_scores.
  destruct (fold_gather_step cursor cs (fq_view v) (columns v) _ Hinv)
    as [Hinv' Hcols].
  rewrite <- Hsnd in Hinv', Hcols. simpl. split; [exact Hinv'|].
  f_equal. unfold script_of.
  pose proof (selected_columns_positive cs pm gs top_n v) as Hsel.
  unfold selected_columns, sorted_columns_of in *.
  destruct (top_columns_of _ top_n) as [|c cols]; [reflexivity|].
  f_equal. apply map_ext_in. intros col Hcol.
  destruct (Hcols col (proj1 (Hsel col Hcol))) as [Ht Hs]. simpl in Ht, Hs.
  unfold recorded_type, recorded_stats. now rewrite Ht, Hs.
Qed.

Lemma fold_script_view_closed views st :
  settled_or_new cursor cs (column_types st, column_stats st) ->
  let st' := fold_left (script_view repr_scores cursor cs pm gs top_n) views st in
  settled_or_new cursor cs (column_types st', column_stats st').
Proof.
  revert st; induction views as [|v views IH]; intros st Hinv; cbn zeta;
    simpl fold_left; [assumption|].
  apply IH. now apply script_view_closed.
Qed.

Lemma fold_script_view_lookup before v after :
  ~ In (fq_view v) (List.map fq_view after) ->
  partition_scripts
    (fold_left (script_view repr_scores cursor cs pm gs top_n)
       (before ++ v :: after)%list (mkState ∅ ∅ ∅)) !! fq_view v
  = Some (script_of repr_scores cursor cs pm gs top_n v).
Proof.
  intros Hnot. rewrite fold_left_app. simpl fold_left.
  rewrite fold_script_view_other by assumption.
  destruct (script_view_closed
              (fold_left (script_view repr_scores cursor cs pm gs top_n) before
                 (mkState ∅ ∅ ∅)) v) as [_ ->]; [|apply lookup_insert_eq].
  apply fold_script_view_closed. intros n c. left. now split.
Qed.
End ScriptClosedForm.

(** The script of every name that occurs in [view_data] is that of the last
    tuple with the name; other names have none. *)
Lemma produced_scripts parse_one repr_scores view_data global_stats cursor top_n
    query_log_data name :
  let cs := cardinality_stats_of cursor view_data in
  let pm := performance_metrics_of parse_one cursor view_data query_log_data in
  let scripts :=
    produce_iceberg_partition_scripts parse_one repr_scores view_data
      global_stats cursor top_n query_log_data in
  (~ In name (List.map fq_view view_data) -> scripts !! name = None)
  /\ (forall before v after,
         view_data = (before ++ v :: after)%list -> fq_view v = name ->
         ~ In name (List.map fq_view after) ->
         scripts !! name
         = Some (script_of repr_scores cursor cs pm global_stats top_n v)).
Proof.
  intros cs pm scripts. subst scripts.
  unfold produce_iceberg_partition_scripts. cbv zeta. fold cs pm. split.
  - intros Hnot. now rewrite fold_script_view_other.
  - intros before v after -> <- Hnot. now apply fold_script_view_lookup.
Qed.





(** ** Scripts are comments to the execution test *)

Lemma rstrip_keep chars c s :
  PyStr.mem c chars = false ->
  PyStr.rstrip chars (String c s) = String c (PyStr.rstrip chars s).
Proof.
  intros H. simpl. destruct (PyStr.rstrip chars s); [now rewrite H | reflexivity].
Qed.

Lemma comment_is_not_executed rest :
  PyStr.startswith ("-- " ++ rest) "--" = true
  /\ should_execute ("-- " ++ rest) = false.
Proof.
  split; [reflexivity|]. unfold should_execute, PyStr.strip.
  change ("-- " ++ rest) with (String "-" (String "-" (String " " rest))).
  change (PyStr.lstrip py_whitespace (String "-" (String "-" (String " " rest))))
    with (String "-" (String "-" (String " " rest))).
  rewrite !rstrip_keep by reflexivity.
  now destruct (PyStr.rstrip py_whitespace (String " " rest)).
Qed.

Lemma script_of_comment repr_scores cursor cs pm gs top_n v :
  exists rest, script_of repr_scores cursor cs pm gs top_n v = "-- " ++ rest.
Proof.
  unfold script_of, advisory_script, alter_script.
  destruct (selected_columns cs pm gs top_n v); eexists; reflexivity.
Qed.

(** X12: every script that [produce_iceberg_partition_scripts] returns
    starts with the comment marker "--", the ALTER TABLE scripts included
    (their first line is a comment); so the test
    [not script.strip().startswith("--")] under which [cli.main] sends a
    script to the cursor fails for each of them. *)
Theorem produced_scripts_start_with_comment parse_one repr_scores view_data
    global_stats cursor top_n query_log_data name script :
  produce_iceberg_partition_scripts parse_one repr_scores view_data
    global_stats cursor top_n query_log_data !! name = Some script ->
  PyStr.startswith script "--" = true /\ should_execute script = false.
Proof.
  intros Hscript.
  destruct (in_dec string_dec name (List.map fq_view view_data)) as [Hin|Hnot].
  - destruct (last_tuple_named view_data name Hin)
      as (before & v & after & Hvd & Hname & Hafter).
    rewrite (proj2 (produced_scripts parse_one repr_scores view_data global_stats
                      cursor top_n query_log_data name)
               before v after Hvd Hname Hafter) in Hscript.
    injection Hscript as <-.
    destruct (script_of_comment repr_scores cursor
                (cardinality_stats_of cursor view_data)
                (performance_metrics_of parse_one cursor view_data query_log_data)
                global_stats top_n v) as [rest ->].
    apply comment_is_not_executed.
  - rewrite (proj1 (produced_scripts parse_one repr_scores view_data global_stats
                      cursor top_n query_log_data name) Hnot) in Hscript.
    discriminate.
Qed.

Lemma produced_scripts_start_with_comment_witness :
  should_execute
    (alter_script sample_repr "hive.db.sales" [("region", 5 # 1)%Q] ["region"])
  = false.
Proof.
  apply (produced_scripts_start_with_comment sample_parse_one sample_repr
           [mkView "hive.db.sales" ["region"] 1 None] [("region", 5)]
           (Some sample_cursor) 3 None "hive.db.sales").
  vm_compute. reflexivity.
Defined.

(** ** The columns a script partitions by *)

Lemma dict_set_keys {V : Type} k (v : V) d :
  List.map fst (dict_set k v d)
  = if in_dec string_dec k (List.map fst d) then List.map fst d
    else (List.map fst d ++ [k])%list.
Proof.
  induction d as [|[k0 v0] d IH]; simpl; [reflexivity|].
  destruct (String.eqb_spec k k0) as [->|Hne]; simpl.
  - destruct (string_dec k0 k0) as [E|[]]; reflexivity.
  - rewrite IH. destruct (string_dec k0 k) as [E|Hne']; [now symmetry in E|].
    now destruct (in_dec string_dec k (List.map fst d)).
Qed.

Lemma dict_set_nodup {V : Type} k (v : V) d :
  List.NoDup (List.map fst d) -> List.NoDup (List.map fst (dict_set k v d)).
Proof.
  intros Hd. rewrite dict_set_keys.
  destruct (in_dec string_dec k (List.map fst d)) as [Hin|Hnot]; [assumption|].
  apply Permutation.Permutation_NoDup with (k :: List.map fst d).
  - rewrite Permutation_app_comm. reflexivity.
  - now constructor.
Qed.

Lemma dict_set_key_in {V : Type} k (v : V) d x :
  In x (List.map fst (dict_set k v d)) <-> x = k \/ In x (List.map fst d).
Proof.
  rewrite dict_set_keys.
  destruct (in_dec string_dec k (List.map fst d)) as [Hin|Hnot].
  - split; [now right | intros [->|H]; assumption].
  - rewrite in_app_iff. simpl. split; [intros [H|[<-|[]]] | intros [->|H]]; auto.
Qed.

Lemma firstn_keys_nodup {V : Type} k (l : list (string * V)) :
  List.NoDup (List.map fst l) -> List.NoDup (List.map fst (firstn k l)).
Proof.
  intros Hl. rewrite <- (firstn_skipn k l), List.map_app in Hl.
  now apply List.NoDup_app_remove_r in Hl.
Qed.

Lemma filter_keys_nodup {V : Type} (f : string * V -> bool) l :
  List.NoDup (List.map fst l) -> List.NoDup (List.map fst (List.filter f l)).
Proof.
  induction l as [|x l IH]; simpl; intros Hl; [constructor|].
  inversion Hl as [|? ? Hx Hl']; subst.
  destruct (f x); [|now apply IH]. simpl. constructor; [|now apply IH].
  intros Hin. apply Hx. apply in_map_iff in Hin as (y & Hy & Hin).
  apply filter_In in Hin as [Hin _]. apply in_map_iff. now exists y.
Qed.

Lemma firstn_sorted {A : Type} (R : A -> A -> Prop) k l :
  StronglySorted R l -> StronglySorted R (firstn k l).
Proof.
  intros Hl. revert k; induction Hl as [|x l Hl IH Hx]; intros [|k]; simpl;
    try constructor; [apply IH|].
  apply List.Forall_forall. intros y Hy.
  assert (In y l) as Hin.
  { rewrite <- (firstn_skipn k l). apply in_or_app. now left. }
  clear Hy. revert y Hin. now apply List.Forall_forall.
Qed.

Lemma filter_sorted {A : Type} (R : A -> A -> Prop) (f : A -> bool) l :
  StronglySorted R l -> StronglySorted R (List.filter f l).
Proof.
  induction 1 as [|x l Hl IH Hx]; simpl; [constructor|].
  destruct (f x); [|assumption]. constructor; [assumption|].
  apply List.Forall_forall. intros y Hy. apply filter_In in Hy as [Hy _].
  revert y Hy. now apply List.Forall_forall.
Qed.

Lemma sorted_app_order {A : Type} (R : A -> A -> Prop) l1 l2 x y :
  StronglySorted R (l1 ++ l2)%list -> In x l1 -> In y l2 -> R x y.
Proof.
  induction l1 as [|a l1 IH]; simpl; intros Hs Hx Hy; [contradiction|].
  inversion Hs as [|? ? Hs' Ha]; subst. destruct Hx as [->|Hx]; [|now apply IH].
  assert (In y (l1 ++ l2)%list) as Hin by (apply in_or_app; now right).
  exact (proj1 (List.Forall_forall _ _) Ha y Hin).
Qed.

Lemma map_fst_sorted {A B : Type} (R : A * B -> A * B -> Prop)
    (R' : A -> A -> Prop) (l : list (A * B)) :
  (forall x y, In x l -> In y l -> R x y -> R' (fst x) (fst y)) ->
  StronglySorted R l -> StronglySorted R' (List.map fst l).
Proof.
  intros Himp Hs. revert Himp.
  induction Hs as [|x l Hs IH Hx]; intros Himp; simpl; [constructor|].
  constructor.
  - apply IH. intros a b Ha Hb. apply Himp; now right.
  - apply List.Forall_forall. intros c Hc.
    apply in_map_iff in Hc as (z & <- & Hz).
    apply Himp; [now left | now right |].
    apply (proj1 (List.Forall_forall _ _) Hx z Hz).
Qed.

Lemma take_firstn {A : Type} n (l : list A) :
  exists k, take n l = firstn k l /\ (0 <= n -> k = Z.to_nat n).
Proof.
  unfold take. destruct (Z.ltb_spec n 0); eexists; split; try reflexivity; lia.
Qed.

Lemma filter_all {A : Type} (f : A -> bool) l :
  (forall x, In x l -> f x = true) -> List.filter f l = l.
Proof.
  induction l as [|x l IH]; intros Hall; simpl; [reflexivity|].
  rewrite (Hall x (or_introl eq_refl)). f_equal. apply IH. intros y Hy.
  apply Hall. now right.
Qed.

Section Selection.
Variable cs : gmap string (gmap string Z).
Variable pm : gmap string PerfEntry.
Variable gs : list (string * Z).

Lemma view_scores_keys v :
  List.NoDup (List.map fst (view_scores_of cs pm gs v))
  /\ forall c, In c (List.map fst (view_scores_of cs pm gs v)) <-> In c (columns v).
Proof.
  unfold view_scores_of.
  assert (forall cols acc,
             List.NoDup (List.map fst acc) ->
             let d :=
               fold_left
                 (fun view_scores column =>
                    dict_set column
                      (calculate_partition_score column (fq_view v) cs pm gs)
                      view_scores) cols acc in
             List.NoDup (List.map fst d)
             /\ forall c, In c (List.map fst d)
                          <-> In c (List.map fst acc) \/ In c cols) as H.
  { induction cols as [|col cols IH]; intros acc Hacc; cbn zeta; simpl fold_left.
    - split; [assumption|]. intros c. simpl. tauto.
    - destruct (IH (dict_set col
                      (calculate_partition_score col (fq_view v) cs pm gs) acc))
        as [Hnd Hkeys]; [now apply dict_set_nodup|].
      split; [assumption|]. intros c. rewrite Hkeys, dict_set_key_in. simpl.
      intuition congruence. }
  destruct (H (columns v) [] (List.NoDup_nil _)) as [Hnd Hkeys].
  split; [assumption|]. intros c. rewrite Hkeys. simpl. tauto.
Qed.

Lemma sorted_columns_sorted v :
  StronglySorted (fun a b : string * Q => (snd b <= snd a)%Q)
    (sorted_columns_of cs pm gs v).
Proof.
  unfold sorted_columns_of.
  assert (StronglySorted
            (fun a b : string * Q => Qle_bool (snd b) (snd a) = true)
            (sort_desc (fun a b : string * Q => Qle_bool (snd b) (snd a))
               (view_scores_of cs pm gs v))) as H.
  { apply sort_desc_sorted.
    - intros x y H. apply Qle_bool_iff.
      destruct (Qlt_le_dec (snd y) (snd x)) as [Hlt|Hle]; [|assumption].
      exfalso. apply Qlt_le_weak, Qle_bool_iff in Hlt. congruence.
    - intros x y z Hxy Hyz. apply Qle_bool_iff. apply Qle_bool_iff in Hxy, Hyz.
      now apply Qle_trans with (snd y). }
  induction H as [|a l Hl IH Ha]; constructor; [assumption|].
  eapply List.Forall_impl; [|exact Ha]. intros b Hb. now apply Qle_bool_iff.
Qed.

Lemma sorted_columns_entries v c s :
  In (c, s) (sorted_columns_of cs pm gs v) <->
  In c (columns v) /\ s = calculate_partition_score c (fq_view v) cs pm gs.
Proof.
  unfold sorted_columns_of. split.
  - intros Hin. apply (Permutation_in _ (sort_desc_perm _ _)) in Hin.
    now apply view_scores_entries in Hin.
  - intros [Hc ->].
    apply (proj2 (proj2 (view_scores_keys v) c)) in Hc.
    apply in_map_iff in Hc as ([c' s'] & Hfst & Hin). simpl in Hfst. subst c'.
    apply (Permutation_in _ (Permutation_sym (sort_desc_perm _ _))).
    now destruct (view_scores_entries cs pm gs v c s' Hin) as [_ <-].
Qed.
End Selection.

Lemma positive_is_kept (s : Q) : (0 < s)%Q -> Qgt_bool s 0 = true.
Proof.
  intros Hs. unfold Qgt_bool. apply negb_true_iff.
  destruct (Qle_bool s 0) eqn:E; [|reflexivity].
  apply Qle_bool_iff in E. lra.
Qed.

(** X13: the columns a script partitions by are the top of the ranking.
    They are distinct, at most [top_n] of them when [top_n] is not negative,
    and listed by descending score; and a column of the view with a positive
    score is left out only when every selected column scores at least as
    much and, for a [top_n] that is not negative, exactly [top_n] columns
    were selected. *)
Theorem selection_is_top_n cs pm gs top_n v :
  let score c := calculate_partition_score c (fq_view v) cs pm gs in
  let selected := selected_columns cs pm gs top_n v in
  List.NoDup selected
  /\ (0 <= top_n -> Z.of_nat (length selected) <= top_n)
  /\ StronglySorted (fun a b => (score b <= score a)%Q) selected
  /\ (forall c,
         In c (columns v) -> (0 < score c)%Q -> ~ In c selected ->
         (forall c', In c' selected -> (score c <= score c')%Q)
         /\ (0 <= top_n -> Z.of_nat (length selected) = top_n)).
Proof.
  intros score selected. subst selected. unfold selected_columns, top_columns_of.
  destruct (take_firstn top_n (sorted_columns_of cs pm gs v)) as (k & -> & Hk).
  pose proof (sorted_columns_sorted cs pm gs v) as Hsorted.
  pose proof (sorted_columns_entries cs pm gs v) as Hentries.
  assert (List.NoDup (List.map fst (sorted_columns_of cs pm gs v))) as Hnodup.
  { apply Permutation.Permutation_NoDup
      with (List.map fst (view_scores_of cs pm gs v));
      [|apply view_scores_keys].
    apply Permutation_map. symmetry. apply sort_desc_perm. }
  set (L0 := sorted_columns_of cs pm gs v) in *.
  assert (forall x, In x (firstn k L0) -> In x L0) as Hfirst.
  { intros x Hx. rewrite <- (firstn_skipn k L0). apply in_or_app. now left. }
  split; [|split; [|split]].
  - now apply filter_keys_nodup, firstn_keys_nodup.
  - intros Hn. rewrite List.length_map.
    pose proof (List.filter_length_le (fun cs0 : string * Q => Qgt_bool (snd cs0) 0)
                  (firstn k L0)) as H1.
    pose proof (firstn_le_length k L0) as H2. specialize (Hk Hn). lia.
  - apply map_fst_sorted
      with (R := fun a b : string * Q => (snd b <= snd a)%Q).
    + intros [c1 s1] [c2 s2] H1 H2. simpl.
      apply filter_In in H1 as [H1 _]. apply filter_In in H2 as [H2 _].
      apply Hfirst, Hentries in H1 as [_ ->].
      apply Hfirst, Hentries in H2 as [_ ->]. intros H. exact H.
    + now apply filter_sorted, firstn_sorted.
  - intros c Hc Hpos Hout.
    assert (In (c, score c) L0) as Hin by (apply Hentries; now split).
    rewrite <- (firstn_skipn k L0) in Hin, Hsorted.
    apply in_app_or in Hin as [Hin|Hin].
    { exfalso. apply Hout. apply in_map_iff. exists (c, score c).
      split; [reflexivity|]. apply filter_In. split; [assumption|].
      now apply positive_is_kept. }
    assert (forall x, In x (firstn k L0) -> (score c <= snd x)%Q) as Hge.
    { intros x Hx.
      exact (sorted_app_order _ _ _ x (c, score c) Hsorted Hx Hin). }
    split.
    + intros c' Hc'. apply in_map_iff in Hc' as ([c0 s0] & Hfst & Hc').
      simpl in Hfst. subst c0. apply filter_In in Hc' as [Hc' _].
      pose proof (Hge _ Hc') as Hle. simpl in Hle.
      apply Hfirst, Hentries in Hc' as [_ ->]. exact Hle.
    + intros Hn. rewrite List.length_map, filter_all.
      * destruct (Nat.le_gt_cases k (length L0)) as [Hle|Hgt].
        -- rewrite firstn_length_le by assumption. rewrite (Hk Hn). lia.
        -- rewrite skipn_all2 in Hin by lia. destruct Hin.
      * intros x Hx. apply positive_is_kept.
        apply Qlt_le_trans with (score c); [assumption | now apply Hge].
Qed.

Lemma selection_is_top_n_witness :
  Z.of_nat (length (selected_columns ∅ ∅ [("region", 5); ("amount", 2)] 1 sales_view))
  = 1.
Proof.
  refine (proj2 (proj2 (proj2 (proj2
            (selection_is_top_n ∅ ∅ [("region", 5); ("amount", 2)] 1 sales_view)))
            "amount" _ _ _) _).
  - simpl. tauto.
  - reflexivity.
  - vm_compute. intros [H|[]]. discriminate H.
  - lia.
Defined.

(** ** When [analyze_query_resource_metrics] raises *)

Lemma threshold_inject :
  (overflow_threshold == inject_Z (2 ^ 1024 - 2 ^ 970))%Q.
Proof. vm_compute. reflexivity. Qed.

Lemma Qabs_inject z : Qabs (inject_Z z) = inject_Z (Z.abs z).
Proof. reflexivity. Qed.

(** The quotient of two integers reaches the threshold in magnitude. *)
Lemma quotient_threshold v mx :
  mx <> 0 ->
  (overflow_threshold <= Qabs (inject_Z v / inject_Z mx))%Q
  <-> (2 ^ 1024 - 2 ^ 970) * Z.abs mx <= Z.abs v.
Proof.
  intros Hmx. unfold Qdiv. rewrite Qabs_Qmult, Qabs_Qinv, !Qabs_inject.
  rewrite threshold_inject, Zle_Qle, inject_Z_mult.
  assert (0 < inject_Z (Z.abs mx))%Q as Hpos
    by (change 0%Q with (inject_Z 0); rewrite <- Zlt_Qlt; lia).
  set (T := inject_Z (2 ^ 1024 - 2 ^ 970)). set (a := inject_Z (Z.abs v)).
  set (b := inject_Z (Z.abs mx)) in *.
  split; intros H.
  - apply (Qmult_le_compat_r _ _ b) in H; [|lra].
    assert (a * / b * b == a)%Q as E by (field; lra). lra.
  - apply Qle_shift_div_l; assumption.
Qed.

Lemma int_true_div_outcome v mx :
  match int_true_div v mx with
  | Returns _ => mx <> 0 /\ ~ (2 ^ 1024 - 2 ^ 970) * Z.abs mx <= Z.abs v
  | Raises e =>
      (e = ZeroDivisionError /\ mx = 0)
      \/ (e = OverflowError /\ mx <> 0
          /\ (2 ^ 1024 - 2 ^ 970) * Z.abs mx <= Z.abs v)
  end.
Proof.
  unfold int_true_div. destruct (Z.eqb_spec mx 0) as [->|Hmx]; [now left|].
  pose proof (of_Q_infinite (inject_Z v / inject_Z mx)) as Hinf.
  rewrite (quotient_threshold v mx Hmx) in Hinf.
  destruct (Float.of_Q (inject_Z v / inject_Z mx)) as [q|negative|].
  - split; [assumption|]. intros H. apply Hinf in H as [s [=]].
  - right. split; [reflexivity|]. split; [assumption|]. apply Hinf. eauto.
  - split; [assumption|]. intros H. apply Hinf in H as [s [=]].
Qed.

Lemma normalise_outcome field max_value weight :
  match normalise field max_value weight with
  | Returns _ =>
      ~ (exists v, field = Some v /\ v <> 0 /\ max_value = 0)
      /\ ~ (exists v, field = Some v /\ max_value <> 0
                      /\ (2 ^ 1024 - 2 ^ 970) * Z.abs max_value <= Z.abs v)
  | Raises e =>
      (e = ZeroDivisionError
       /\ exists v, field = Some v /\ v <> 0 /\ max_value = 0)
      \/ (e = OverflowError
          /\ exists v, field = Some v /\ max_value <> 0
                       /\ (2 ^ 1024 - 2 ^ 970) * Z.abs max_value <= Z.abs v)
  end.
Proof.
  assert (0 < 2 ^ 1024 - 2 ^ 970) as HT by (vm_compute; reflexivity).
  unfold normalise. destruct field as [v|].
  - destruct (Z.eqb_spec v 0) as [->|Hv].
    + split.
      * intros (w & [= <-] & Hw & _). now apply Hw.
      * intros (w & [= <-] & Hmx & Hle). simpl Z.abs in Hle. nia.
    + pose proof (int_true_div_outcome v max_value) as Hdiv.
      destruct (int_true_div v max_value) as [r|e]; cbn [bind].
      * destruct Hdiv as [Hmx Hsmall]. split.
        -- intros (w & _ & _ & E). contradiction.
        -- intros (w & [= <-] & _ & Hle). contradiction.
      * destruct Hdiv as [[-> E]|(-> & Hmx & Hle)]; [left | right];
          (split; [reflexivity|]); exists v; auto.
  - split; intros (w & [=] & _).
Qed.

Lemma resource_score_outcome rows row :
  match resource_score (max_values rows) row with
  | Returns _ => ~ zero_division rows row /\ ~ division_overflow rows row
  | Raises e =>
      (e = ZeroDivisionError /\ zero_division rows row)
      \/ (e = OverflowError /\ division_overflow rows row)
  end.
Proof.
  unfold resource_score, max_values, zero_division, division_overflow. simpl.
  pose proof (normalise_outcome (row_get row 3)
                (max_or_1 (present_values 3 rows)) 40) as H3.
  pose proof (normalise_outcome (row_get row 4)
                (max_or_1 (present_values 4 rows)) 30) as H4.
  pose proof (normalise_outcome (row_get row 6)
                (max_or_1 (present_values 6 rows)) 15) as H6.
  pose proof (normalise_outcome (row_get row 7)
                (max_or_1 (present_values 7 rows)) 15) as H7.
  destruct (normalise (row_get row 3) _ 40) as [q3|e3]; cbn [bind];
    [|destruct H3 as [(-> & v & Hv)|(-> & v & Hv)]; [left | right];
      (split; [reflexivity|]); exists 3, v; (split; [simpl; tauto | exact Hv])].
  destruct (normalise (row_get row 4) _ 30) as [q4|e4]; cbn [bind];
    [|destruct H4 as [(-> & v & Hv)|(-> & v & Hv)]; [left | right];
      (split; [reflexivity|]); exists 4, v; (split; [simpl; tauto | exact Hv])].
  destruct (normalise (row_get row 6) _ 15) as [q6|e6]; cbn [bind];
    [|destruct H6 as [(-> & v & Hv)|(-> & v & Hv)]; [left | right];
      (split; [reflexivity|]); exists 6, v; (split; [simpl; tauto | exact Hv])].
  destruct (normalise (row_get row 7) _ 15) as [q7|e7]; cbn [bind];
    [|destruct H7 as [(-> & v & Hv)|(-> & v & Hv)]; [left | right];
      (split; [reflexivity|]); exists 7, v; (split; [simpl; tauto | exact Hv])].
  split; intros (i & v & Hi & Hv); each_metric Hi;
    [apply (proj1 H3) | apply (proj1 H4) | apply (proj1 H6) | apply (proj1 H7)
    |apply (proj2 H3) | apply (proj2 H4) | apply (proj2 H6) | apply (proj2 H7)];
    eauto.
Qed.

(** A row of the batch that fails holds a negative value. *)
Lemma failing_row_is_negative rows row :
  In row rows -> 8 <= row_len row ->
  zero_division rows row \/ division_overflow rows row ->
  exists i v, In i metric_indices /\ row_get row i = Some v /\ v < 0.
Proof.
  assert (1 < 2 ^ 1024 - 2 ^ 970) as HT by (vm_compute; reflexivity).
  intros Hin Hlen [(i & v & Hi & Hget & Hv & Hmax)|(i & v & Hi & Hget & Hmx & Hle)];
    exists i, v; (split; [assumption|]); (split; [assumption|]);
    assert (i < row_len row) as Hi' by (each_metric Hi; lia);
    pose proof (max_or_1_upper _ _ (present_values_in rows row i v Hin Hi' Hget))
      as Hup.
  - lia.
  - set (T := 2 ^ 1024 - 2 ^ 970) in *. nia.
Qed.

Lemma fold_score_row_outcome rows l (m0 : gmap string Float.float) :
  match fold_left (score_row (max_values rows)) l (Returns m0) with
  | Returns _ =>
      forall row, In row l -> 8 <= row_len row ->
                  ~ zero_division rows row /\ ~ division_overflow rows row
  | Raises e =>
      (e = ZeroDivisionError
       /\ exists row, In row l /\ 8 <= row_len row /\ zero_division rows row)
      \/ (e = OverflowError
          /\ exists row, In row l /\ 8 <= row_len row
                         /\ division_overflow rows row)
  end.
Proof.
  revert m0; induction l as [|row l IH]; intros m0; simpl; [intros row []|].
  assert (forall m1,
             match fold_left (score_row (max_values rows)) l (Returns m1) with
             | Returns _ =>
                 forall r, In r l -> 8 <= row_len r ->
                           ~ zero_division rows r /\ ~ division_overflow rows r
             | Raises e =>
                 (e = ZeroDivisionError
                  /\ exists r, In r (row :: l) /\ 8 <= row_len r
                               /\ zero_division rows r)
                 \/ (e = OverflowError
                     /\ exists r, In r (row :: l) /\ 8 <= row_len r
                                  /\ division_overflow rows r)
             end) as IH'.
  { intros m1. specialize (IH m1).
    destruct (fold_left (score_row (max_values rows)) l (Returns m1)) as [m|e];
      [assumption|].
    destruct IH as [(-> & r & Hr & H)|(-> & r & Hr & H)]; [left | right];
      (split; [reflexivity|]); exists r; (split; [now right | assumption]). }
  destruct (Z.ltb_spec (row_len row) 8) as [Hshort|Hlong].
  - specialize (IH' m0).
    destruct (fold_left (score_row (max_values rows)) l (Returns m0)) as [m|e];
      [|assumption].
    intros r [<-|Hr] Hlen; [lia | now apply IH'].
  - pose proof (resource_score_outcome rows row) as Hrow.
    destruct (resource_score (max_values rows) row) as [s|e]; cbn [bind].
    + specialize (IH' (<[query_id row := s]> m0)).
      destruct (fold_left (score_row (max_values rows)) l
                  (Returns (<[query_id row := s]> m0))) as [m|e];
        [|assumption].
      intros r [<-|Hr] Hlen; [assumption | now apply IH'].
    + rewrite fold_score_row_raises.
      destruct Hrow as [[-> H]|[-> H]]; [left | right];
        (split; [reflexivity|]); exists row; (split; [now left | auto]).
Qed.

Lemma fold_score_row_keeps mv l (m0 m : gmap string Float.float) k :
  fold_left (score_row mv) l (Returns m0) = Returns m ->
  (forall r, In r l -> 8 <= row_len r -> query_id r <> k) ->
  m !! k = m0 !! k.
Proof.
  revert m0; induction l as [|row l IH]; intros m0 Hfold Hother; simpl in Hfold.
  - now injection Hfold as <-.
  - destruct (Z.ltb_spec (row_len row) 8) as [Hshort|Hlong].
    + apply IH; [assumption|]. intros r Hr. apply Hother. now right.
    + destruct (resource_score mv row) as [s|e]; cbn [bind] in Hfold;
        [|rewrite fold_score_row_raises in Hfold; discriminate].
      rewrite (IH _ Hfold) by (intros r Hr; apply Hother; now right).
      apply lookup_insert_ne. now apply Hother; [left|].
Qed.

Lemma fold_score_row_last mv before row after (m0 m : gmap string Float.float) :
  fold_left (score_row mv) (before ++ row :: after)%list (Returns m0) = Returns m ->
  8 <= row_len row ->
  (forall r, In r after -> 8 <= row_len r -> query_id r <> query_id row) ->
  exists s, resource_score mv row = Returns s /\ m !! query_id row = Some s.
Proof.
  intros Hfold Hlen Hafter. rewrite fold_left_app in Hfold.
  destruct (fold_left (score_row mv) before (Returns m0)) as [mb|e];
    [|simpl in Hfold; rewrite fold_score_row_raises in Hfold; discriminate].
  simpl in Hfold. destruct (Z.ltb_spec (row_len row) 8) as [Hshort|_]; [lia|].
  destruct (resource_score mv row) as [s|e]; cbn [bind] in Hfold;
    [|rewrite fold_score_row_raises in Hfold; discriminate].
  exists s. split; [reflexivity|].
  rewrite (fold_score_row_keeps _ _ _ _ _ Hfold Hafter). apply lookup_insert_eq.
Qed.

(** X14: [analyze_query_resource_metrics] raises exactly when some row of at
    least 8 fields holds, for one of the four metrics, a value that is
    neither NULL nor 0 while the maximum of the metric over the batch is 0
    (ZeroDivisionError), or a value whose quotient by that maximum rounds
    out of the range of a float (OverflowError); it raises nothing else, and
    a row that makes it raise holds a negative value. When it returns, the
    score kept for a query_id is that of the last row of at least 8 fields
    with the id. *)
Theorem resource_metrics_outcome rows :
  (forall e,
      analyze_query_resource_metrics (Some rows) = Raises e ->
      (e = ZeroDivisionError
       /\ exists row, In row rows /\ 8 <= row_len row /\ zero_division rows row)
      \/ (e = OverflowError
          /\ exists row, In row rows /\ 8 <= row_len row
                         /\ division_overflow rows row))
  /\ ((exists e, analyze_query_resource_metrics (Some rows) = Raises e)
      <-> exists row, In row rows /\ 8 <= row_len row
                      /\ (zero_division rows row \/ division_overflow rows row))
  /\ (forall row,
         In row rows -> 8 <= row_len row ->
         zero_division rows row \/ division_overflow rows row ->
         exists i v, In i metric_indices /\ row_get row i = Some v /\ v < 0)
  /\ (forall scores before row after,
         analyze_query_resource_metrics (Some rows) = Returns scores ->
         rows = (before ++ row :: after)%list ->
         8 <= row_len row ->
         (forall r, In r after -> 8 <= row_len r -> query_id r <> query_id row) ->
         exists s,
           resource_score (max_values rows) row = Returns s
           /\ scores !! query_id row = Some s).
Proof.
  rewrite analyze_query_resource_metrics_fold.
  pose proof (fold_score_row_outcome rows rows ∅) as Hout.
  split; [|split; [|split]].
  - intros e He. rewrite He in Hout. exact Hout.
  - split.
    + intros [e He]. rewrite He in Hout.
      destruct Hout as [(_ & row & Hin & Hlen & H)|(_ & row & Hin & Hlen & H)];
        exists row; auto.
    + intros (row & Hin & Hlen & Hfail).
      destruct (fold_left (score_row (max_values rows)) rows (Returns ∅))
        as [m|e]; [|eauto].
      destruct (Hout row Hin Hlen) as [Hz Ho]. now destruct Hfail.
  - apply failing_row_is_negative.
  - intros scores before row after Hfold Hrows Hlen Hafter.
    rewrite Hrows in Hfold at 2.
    now apply fold_score_row_last with before after ∅.
Qed.

Lemma resource_metrics_outcome_witness :
  exists e,
    analyze_query_resource_metrics
      (Some [mkRow "q1" "SELECT 1" "2024-01-01" [Some 1; Some 5; None; Some 7; Some 9];
             mkRow "q2" "SELECT 2" "2024-01-02"
               [Some (- 2 ^ 1100); Some 5; None; Some 7; Some 9]])
    = Raises e.
Proof.
  apply (proj2 (proj1 (proj2 (resource_metrics_outcome _)))).
  exists (mkRow "q2" "SELECT 2" "2024-01-02"
            [Some (- 2 ^ 1100); Some 5; None; Some 7; Some 9]).
  split; [simpl; tauto|]. split; [vm_compute; discriminate|].
  right. exists 3, (- 2 ^ 1100). split; [simpl; tauto|]. split; [reflexivity|].
  split; vm_compute; discriminate.
Defined.

(** The two errors on concrete batches: a maximum of 0 over a negative
    value, and a quotient beyond the largest float. *)
Example zero_maximum_raises_zero_division :
  analyze_query_resource_metrics
    (Some [mkRow "q1" "SELECT 1" "2024-01-01" [Some 0; Some 5; None; Some 7; Some 9];
           mkRow "q2" "SELECT 2" "2024-01-02" [Some (-4); Some 5; None; Some 7; Some 9]])
  = Raises ZeroDivisionError.
Proof. vm_compute. reflexivity. Qed.

Example huge_quotient_raises_overflow :
  analyze_query_resource_metrics
    (Some [mkRow "q1" "SELECT 1" "2024-01-01" [Some 1; Some 5; None; Some 7; Some 9];
           mkRow "q2" "SELECT 2" "2024-01-02"
             [Some (- 2 ^ 1100); Some 5; None; Some 7; Some 9]])
  = Raises OverflowError.
Proof. vm_compute. reflexivity. Qed.

(** ** What the cursor statistics hold *)

Section ViewStatistics.
Context {V : Type} (kept : string -> string -> option V).

(** The loop over the columns of a view, in the form both analyses share. *)
Lemma fold_kept_lookup view columns (m0 : gmap string V) column :
  fold_left
    (fun view_stats c =>
       match kept view c with
       | Some r => <[c := r]> view_stats
       | None => view_stats
       end) columns m0 !! column
  = if in_dec string_dec column columns
    then match kept view column with
         | Some r => Some r
         | None => m0 !! column
         end
    else m0 !! column.
Proof.
  revert m0; induction columns as [|c columns IH]; intros m0; [reflexivity|].
  cbn [fold_left]. rewrite IH.
  destruct (in_dec string_dec column (c :: columns)) as [Hin|Hnot];
    destruct (in_dec string_dec column columns) as [Hin'|Hnot'].
  - destruct (kept view column) as [r|] eqn:E; [reflexivity|].
    destruct (string_dec c column) as [->|Hne]; [now rewrite E|].
    destruct (kept view c); [now rewrite lookup_insert_ne|reflexivity].
  - destruct Hin as [->|Hin]; [|contradiction].
    destruct (kept view column) as [r|]; [apply lookup_insert_eq | reflexivity].
  - exfalso. apply Hnot. now right.
  - destruct (kept view c) as [r|]; [|reflexivity].
    apply lookup_insert_ne. intros ->. apply Hnot. now left.
Qed.

Lemma fold_view_lookup (stats_of : View -> gmap string V) view_data
    (m0 : gmap string (gmap string V)) :
  (forall view, ~ In view (List.map fq_view view_data) ->
      fold_left (fun m v => <[fq_view v := stats_of v]> m) view_data m0 !! view
      = m0 !! view)
  /\ (forall before v after,
         view_data = (before ++ v :: after)%list ->
         ~ In (fq_view v) (List.map fq_view after) ->
         fold_left (fun m v => <[fq_view v := stats_of v]> m) view_data m0
           !! fq_view v
         = Some (stats_of v)).
Proof.
  assert (forall l (m : gmap string (gmap string V)) view,
             ~ In view (List.map fq_view l) ->
             fold_left (fun m v => <[fq_view v := stats_of v]> m) l m !! view
             = m !! view) as Hother.
  { induction l as [|x l IH]; intros m view Hnot; simpl; [reflexivity|].
    rewrite IH by (intros Hin; apply Hnot; now right).
    apply lookup_insert_ne. intros E. apply Hnot. now left. }
  split; [apply Hother|].
  intros before v after -> Hafter. rewrite fold_left_app. simpl.
  rewrite Hother by assumption. apply lookup_insert_eq.
Qed.
End ViewStatistics.

Lemma fold_left_pointwise {A B : Type} (f g : A -> B -> A) l a :
  (forall a b, f a b = g a b) -> fold_left f l a = fold_left g l a.
Proof.
  intros Hfg. revert a; induction l as [|b l IH]; intros a; simpl;
    [reflexivity|]. now rewrite Hfg, IH.
Qed.

Lemma analyze_column_cardinality_fold cursor view_data :
  analyze_column_cardinality cursor view_data
  = fold_left
      (fun m v =>
         <[fq_view v :=
             fold_left
               (fun view_stats c =>
                  match counted cursor (fq_view v) c with
                  | Some r => <[c := r]> view_stats
                  | None => view_stats
                  end) (columns v) ∅]> m)
      view_data ∅.
Proof.
  unfold analyze_column_cardinality.
  apply fold_left_pointwise. intros m v. cbv zeta. f_equal.
  apply fold_left_pointwise. intros vs c. unfold counted.
  now destruct (approx_distinct cursor c (fq_view v)).
Qed.

(** X15: [analyze_column_cardinality] has an entry for exactly the names of
    [view_data]; the entry of a name comes from its last tuple and holds a
    cardinality for exactly the columns of that tuple for which the cursor
    returned a row, the value being the one returned. *)
Theorem cardinality_stats_lookup cursor view_data :
  let stats := analyze_column_cardinality cursor view_data in
  (forall view, stats !! view = None <-> ~ In view (List.map fq_view view_data))
  /\ (forall before v after,
         view_data = (before ++ v :: after)%list ->
         ~ In (fq_view v) (List.map fq_view after) ->
         exists view_stats,
           stats !! fq_view v = Some view_stats
           /\ forall column n,
                view_stats !! column = Some n
                <-> In column (columns v)
                    /\ approx_distinct cursor column (fq_view v) = Row n).
Proof.
  cbv zeta. rewrite analyze_column_cardinality_fold.
  pose (stats_of := fun v : View =>
         fold_left
           (fun (view_stats : gmap string Z) c =>
              match counted cursor (fq_view v) c with
              | Some r => <[c := r]> view_stats
              | None => view_stats
              end) (columns v) ∅).
  destruct (fold_view_lookup stats_of view_data ∅) as [Hother Hlast].
  subst stats_of. cbv beta in Hother, Hlast. split.
  - intros view. split.
    + intros Hnone Hin.
      destruct (last_tuple_named view_data view Hin)
        as (before & v & after & Hvd & <- & Hafter).
      rewrite (Hlast before v after Hvd Hafter) in Hnone. discriminate.
    + intros Hnot. now rewrite Hother.
  - intros before v after Hvd Hafter. eexists.
    split; [now apply Hlast with before after|].
    intros column n.
    rewrite (fold_kept_lookup (counted cursor)), lookup_empty. unfold counted.
    destruct (in_dec string_dec column (columns v)) as [Hin|Hnot].
    + destruct (approx_distinct cursor column (fq_view v)) as [| |r].
      * split; [discriminate | intros [_ [=]]].
      * split; [discriminate | intros [_ [=]]].
      * split; [intros [= ->]; now split | intros [_ [= ->]]; reflexivity].
    + split; [discriminate | tauto].
Qed.

Lemma cardinality_stats_lookup_witness :
  get2 "db.sales" "region" (analyze_column_cardinality sample_cursor [sales_view])
  = Some 50.
Proof.
  destruct (proj2 (cardinality_stats_lookup sample_cursor [sales_view])
              [] sales_view [] eq_refl (fun H : False => H))
    as (view_stats & Hview & Hcols).
  unfold get2. simpl fq_view in Hview. rewrite Hview. simpl.
  apply Hcols. split; [simpl; tauto | reflexivity].
Defined.

Lemma analyze_data_distribution_fold cursor view_data :
  analyze_data_distribution cursor view_data
  = fold_left
      (fun m v =>
         <[fq_view v :=
             fold_left
               (fun view_stats c =>
                  match sampled cursor (fq_view v) c with
                  | Some r => <[c := r]> view_stats
                  | None => view_stats
                  end) (firstn 5 (columns v)) ∅]> m)
      view_data ∅.
Proof.
  unfold analyze_data_distribution.
  apply fold_left_pointwise. intros m v. cbv zeta. f_equal.
  assert (firstn (Nat.min 5 (length (columns v))) (columns v)
          = firstn 5 (columns v)) as ->.
  { destruct (Nat.min_spec 5 (length (columns v))) as [[_ ->]|[Hle ->]];
      [reflexivity|].
    rewrite firstn_all. now rewrite firstn_all2 by lia. }
  apply fold_left_pointwise. intros vs c. unfold sample_column, sampled.
  now destruct (column_distribution (distribution cursor c (fq_view v)))
    as [[d|]|e].
Qed.

(** X16: [analyze_data_distribution] has an entry for exactly the names of
    [view_data]; the entry of a name comes from its last tuple and looks at
    the first five columns of that tuple only. A column is kept exactly when
    the body of its [try] block completes with a result; in particular a
    column for which the cursor returns fewer than three percentiles is left
    out (the IndexError is caught), as is every column past the fifth. *)
Theorem distribution_stats_lookup cursor view_data :
  let stats := analyze_data_distribution cursor view_data in
  (forall view, stats !! view = None <-> ~ In view (List.map fq_view view_data))
  /\ (forall before v after,
         view_data = (before ++ v :: after)%list ->
         ~ In (fq_view v) (List.map fq_view after) ->
         exists view_stats,
           stats !! fq_view v = Some view_stats
           /\ (forall column d,
                  view_stats !! column = Some d
                  <-> In column (firstn 5 (columns v))
                      /\ column_distribution
                           (distribution cursor column (fq_view v))
                         = Returns (Some d))
           /\ (forall column percentiles distinct total,
                  distribution cursor column (fq_view v)
                  = Row (Some percentiles, distinct, total) ->
                  (length percentiles < 3)%nat ->
                  view_stats !! column = None)
           /\ (forall column,
                  ~ In column (firstn 5 (columns v)) ->
                  view_stats !! column = None)).
Proof.
  cbv zeta. rewrite analyze_data_distribution_fold.
  pose (stats_of := fun v : View =>
         fold_left
           (fun (view_stats : gmap string Distribution) c =>
              match sampled cursor (fq_view v) c with
              | Some r => <[c := r]> view_stats
              | None => view_stats
              end) (firstn 5 (columns v)) ∅).
  destruct (fold_view_lookup stats_of view_data ∅) as [Hother Hlast].
  assert (forall v column,
             stats_of v !! column
             = if in_dec string_dec column (firstn 5 (columns v))
               then sampled cursor (fq_view v) column else None) as Hlookup.
  { intros v column. unfold stats_of.
    rewrite (fold_kept_lookup (sampled cursor)), lookup_empty.
    destruct (in_dec string_dec column (firstn 5 (columns v)));
      [|reflexivity].
    now destruct (sampled cursor (fq_view v) column). }
  subst stats_of. cbv beta in Hother, Hlast, Hlookup. split.
  - intros view. split.
    + intros Hnone Hin.
      destruct (last_tuple_named view_data view Hin)
        as (before & v & after & Hvd & <- & Hafter).
      rewrite (Hlast before v after Hvd Hafter) in Hnone. discriminate.
    + intros Hnot. now rewrite Hother.
  - intros before v after Hvd Hafter. eexists.
    split; [now apply Hlast with before after|].
    split; [|split].
    + intros column d. rewrite Hlookup. unfold sampled.
      destruct (in_dec string_dec column (firstn 5 (columns v))) as [Hin|Hnot];
        [|split; [discriminate | tauto]].
      destruct (column_distribution (distribution cursor column (fq_view v)))
        as [[d'|]|e].
      * split; [intros [= ->]; now split | intros [_ [= ->]]; reflexivity].
      * split; [discriminate | intros [_ [=]]].
      * split; [discriminate | intros [_ [=]]].
    + intros column percentiles distinct total Hrow Hshort.
      rewrite Hlookup. unfold sampled. rewrite Hrow.
      destruct (in_dec string_dec column (firstn 5 (columns v))); [|reflexivity].
      destruct percentiles as [|p10 [|p50 [|p90 rest]]]; try reflexivity.
      simpl in Hshort. lia.
    + intros column Hnot. rewrite Hlookup.
      now destruct (in_dec string_dec column (firstn 5 (columns v))).
Qed.

Lemma distribution_stats_lookup_witness :
  exists view_stats,
    analyze_data_distribution sample_cursor
      [mkView "db.wide" ["a"; "b"; "c"; "d"; "e"; "f"] 1 None] !! "db.wide"
    = Some view_stats
    /\ view_stats !! "f" = None.
Proof.
  destruct (proj2 (distribution_stats_lookup sample_cursor
                     [mkView "db.wide" ["a"; "b"; "c"; "d"; "e"; "f"] 1 None])
              [] (mkView "db.wide" ["a"; "b"; "c"; "d"; "e"; "f"] 1 None) []
              eq_refl (fun H : False => H))
    as (view_stats & Hview & _ & _ & Hpast).
  exists view_stats. split; [exact Hview|]. apply Hpast.
  simpl. intros H. repeat (destruct H as [H|H]; [discriminate H|]). exact H.
Defined.

(** ** The cardinality score of the dashboard and the bonus of the engine *)

(** X17: the dashboard's [cardinality_score] takes the values 2, 5, 7, 8 and
    10 only, is 10 exactly on the cardinalities from 10 to 99, and does not
    increase with the cardinality from 10 on; the bonus that
    [calculate_partition_score] adds for a recorded cardinality has its
    maximum, 10, on the same cardinalities. *)
Theorem cardinality_score_bands card :
  In (cardinality_score card) [2; 5; 7; 8; 10]
  /\ (cardinality_score card = 10 <-> 10 <= card < 100)
  /\ (forall card', 10 <= card -> card <= card' ->
        cardinality_score card' <= cardinality_score card)
  /\ ((cardinality_bonus (Some card) == 10)%Q <-> 10 <= card < 100).
Proof.
  unfold cardinality_score, cardinality_bonus.
  destruct (Z.ltb_spec card 10);
    [|destruct (Z.ltb_spec card 100);
      [|destruct (Z.ltb_spec card 1000); [|destruct (Z.ltb_spec card 10000)]]].
  all: split; [simpl; auto 10|].
  all: split; [split; intros; try discriminate; try reflexivity; lia|].
  all: split;
    [|split; intros Hb; try reflexivity; try lia;
      (unfold Qeq in Hb; simpl in Hb; lia)].
  all: intros card' H10 Hle; try lia.
  all: destruct (Z.ltb_spec card' 10);
    [|destruct (Z.ltb_spec card' 100);
      [|destruct (Z.ltb_spec card' 1000); [|destruct (Z.ltb_spec card' 10000)]]];
    lia.
Qed.

Lemma cardinality_score_bands_witness :
  cardinality_score 5000 <= cardinality_score 50.
Proof.
  apply (proj1 (proj2 (proj2 (cardinality_score_bands 50)))); lia.
Defined.
